(** * pysofe: the finite-element evaluation engine

    A shallow embedding of
      - [pysofe/elements/simple/lagrange.py]  (the linear Lagrange element P1),
      - [pysofe/spaces/space.py]              (the finite-element space FESpace),
      - [pysofe_light/meshes/mesh.py]         (the mesh),
    together with the fragment of Python and NumPy these files rely on:
    exceptions, n-dimensional arrays with basic indexing, broadcasting and
    reductions along an axis.

    Scalars (NumPy's float64) are kept abstract behind the class [Scalar]:
    every definition is generic in the arithmetic, and two instances are
    given, the machine arithmetic of the code ([binary64], primitive floats)
    and exact integer arithmetic ([exactZ]). *)

From Stdlib Require Import String.
From Stdlib Require Import List ZArith Lia Bool Arith PeanoNat.
From Stdlib Require Import Floats DecimalString QArith Qabs Lqa.
Import ListNotations.
Close Scope Q_scope.

Set Implicit Arguments.

(** ** Python: exceptions and calls to collaborators *)

Module Py.

(** The exception classes the three source files can raise or let through. *)
Inductive exn : Type :=
| ValueError (msg : string)
| IndexError (msg : string)
| NameError (name : string)
| NotImplementedError (msg : string)
| TypeError (msg : string)
| AssertionError
| CollaboratorError (msg : string).

Inductive result (A : Type) : Type :=
| Ok (a : A)
| Raise (e : exn).
Arguments Ok {A} a.
Arguments Raise {A} e.

Definition rbind {A B} (r : result A) (k : A -> result B) : result B :=
  match r with
  | Ok a => k a
  | Raise e => Raise e
  end.

Definition is_ok {A} (r : result A) : bool :=
  match r with Ok _ => true | Raise _ => false end.

Definition is_NotImplementedError (e : exn) : bool :=
  match e with NotImplementedError _ => true | _ => false end.

Definition is_ValueError (e : exn) : bool :=
  match e with ValueError _ => true | _ => false end.

(** A computation that may call collaborators: it threads the log of the
    calls made so far (a list of events of type [E]) and ends in a value
    or in an exception. *)
Definition M (E A : Type) : Type := list E -> result A * list E.

Definition ret {E A} (a : A) : M E A := fun t => (Ok a, t).

Definition raise {E A} (e : exn) : M E A := fun t => (Raise e, t).

Definition bind {E A B} (m : M E A) (k : A -> M E B) : M E B :=
  fun t =>
    match m t with
    | (Ok a, t') => k a t'
    | (Raise e, t') => (Raise e, t')
    end.

(** A result computed without collaborators, used inside a computation. *)
Definition lift {E A} (r : result A) : M E A := fun t => (r, t).

(** A call to a collaborator: the call is logged, then its outcome is
    the outcome of the computation. *)
Definition call {E A} (ev : E) (r : result A) : M E A :=
  fun t => (r, t ++ [ev]).

(** [try: m except: h] with a bare [except]. *)
Definition try_except {E A} (m : M E A) (h : M E A) : M E A :=
  fun t =>
    match m t with
    | (Ok a, t') => (Ok a, t')
    | (Raise _, t') => h t'
    end.

(** [for x in xs: body], threading the value the body rebinds. *)
Fixpoint for_each {A S} (xs : list A) (body : A -> S -> result S) (s : S)
  : result S :=
  match xs with
  | [] => Ok s
  | x :: xs' => rbind (body x s) (for_each xs' body)
  end.

Fixpoint for_eachM {E A S} (xs : list A) (body : A -> S -> M E S) (s : S)
  : M E S :=
  match xs with
  | [] => ret s
  | x :: xs' => bind (body x s) (for_eachM xs' body)
  end.

(** [t[:stop]] on a tuple, with Python's treatment of a negative stop. *)
Definition slice_to {A} (stop : Z) (t : list A) : list A :=
  if (stop <? 0)%Z
  then firstn (Z.to_nat (Z.of_nat (length t) + stop)) t
  else firstn (Z.to_nat stop) t.

(** [t[i]] on a tuple, for a non-negative index. *)
Definition tuple_get {A} (t : list A) (i : nat) : result A :=
  match nth_error t i with
  | Some a => Ok a
  | None => Raise (IndexError "tuple index out of range"%string)
  end.

(** [str(z)] for an integer, as [format] renders it. *)
Definition str_of_Z (z : Z) : string := NilZero.string_of_int (Z.to_int z).

(** Resolution of a name that is read in a function body: the function's
    local names first, then the module's globals. *)
Definition resolve (locals globals : list string) (name : string)
  : result string :=
  if existsb (String.eqb name) locals then Ok name
  else if existsb (String.eqb name) globals then Ok name
  else Raise (NameError name).

End Py.

Import Py.

Declare Scope py_scope.
Delimit Scope py_scope with py.
Notation "x <- r ;; k" := (rbind r (fun x => k))
  (at level 61, r at next level, right associativity) : py_scope.
Notation "x <~ m ;; k" := (bind m (fun x => k))
  (at level 61, m at next level, right associativity) : py_scope.
Notation "' pat <- r ;; k" :=
  (rbind r (fun x => match x with pat => k end))
  (at level 61, pat pattern, r at next level, right associativity) : py_scope.
Local Open Scope py_scope.

(** ** Scalars *)

(** The arithmetic of array entries: what NumPy's float64 offers and the
    code uses. No law is assumed here; theorems that need one say so. *)
Class Scalar : Type := {
  sc : Type;
  zero : sc;
  one : sc;
  add : sc -> sc -> sc;
  sub : sc -> sc -> sc;
  mul : sc -> sc -> sc;
  div : sc -> sc -> sc;
  opp : sc -> sc;
  absv : sc -> sc;
  ltb : sc -> sc -> bool;
  of_nat : nat -> sc
}.

(** IEEE 754 binary64, the arithmetic the code runs on. *)
Definition float_of_nat (n : nat) : float :=
  Z.iter (Z.of_nat n) (fun x => PrimFloat.add x 1%float) 0%float.

#[export] Instance binary64 : Scalar := {|
  sc := float;
  zero := 0%float;
  one := 1%float;
  add := PrimFloat.add;
  sub := PrimFloat.sub;
  mul := PrimFloat.mul;
  div := PrimFloat.div;
  opp := PrimFloat.opp;
  absv := PrimFloat.abs;
  ltb := PrimFloat.ltb;
  of_nat := float_of_nat
|}.

(** Exact arithmetic on the integers (division is the floor division). *)
#[export] Instance exactZ : Scalar := {|
  sc := Z;
  zero := 0%Z;
  one := 1%Z;
  add := Z.add;
  sub := Z.sub;
  mul := Z.mul;
  div := Z.div;
  opp := Z.opp;
  absv := Z.abs;
  ltb := Z.ltb;
  of_nat := Z.of_nat
|}.

(** ** NumPy: n-dimensional arrays *)

Module NumPy.

(** An array is its shape together with the lookup of the entry at a
    multi-index (one position per axis). Entries are meaningful at the
    multi-indices within the shape; every operation below that NumPy
    checks (bounds, number of axes, broadcasting) is checked here too. *)
Record ndarray (A : Type) : Type := mk_ndarray {
  shape : list nat;
  item : list nat -> A
}.

Section Generic.
Context {A : Type}.

Definition ndim (a : ndarray A) : nat := length (shape a).

(** [a.size] *)
Definition size (a : ndarray A) : nat := fold_right Nat.mul 1 (shape a).

(** [np.size(a, axis=0)] *)
Definition size_axis0 (a : ndarray A) : result nat :=
  match shape a with
  | n :: _ => Ok n
  | [] => Raise (IndexError "tuple index out of range"%string)
  end.

Fixpoint in_bounds (sh idx : list nat) : bool :=
  match sh, idx with
  | [], [] => true
  | n :: sh', i :: idx' => (i <? n) && in_bounds sh' idx'
  | _, _ => false
  end.

(** A zero-dimensional array: a Python number used as an operand. *)
Definition scalar (x : A) : ndarray A := mk_ndarray [] (fun _ => x).

Definition full (sh : list nat) (x : A) : ndarray A :=
  mk_ndarray sh (fun _ => x).

(** All multi-indices of a shape, in row-major order. *)
Fixpoint indices (sh : list nat) : list (list nat) :=
  match sh with
  | [] => [[]]
  | n :: sh' =>
      flat_map (fun i => List.map (cons i) (indices sh')) (seq 0 n)
  end.

(** [a.ravel().tolist()] *)
Definition tolist (a : ndarray A) : list A :=
  List.map (item a) (indices (shape a)).

(** [np.array(rows)] for a table given by its rows. *)
Definition of_rows (d : A) (rows : list (list A)) : ndarray A :=
  mk_ndarray [length rows; length (hd [] rows)]
    (fun idx => nth (nth 1 idx 0) (nth (nth 0 idx 0) rows []) d).

(** [np.array(xs)] for a flat list. *)
Definition of_list (d : A) (xs : list A) : ndarray A :=
  mk_ndarray [length xs] (fun idx => nth (nth 0 idx 0) xs d).

(** [np.atleast_2d(a)] *)
Definition atleast_2d (a : ndarray A) : ndarray A :=
  match shape a with
  | [] => mk_ndarray [1; 1] (fun _ => item a [])
  | [n] => mk_ndarray [1; n] (fun idx => item a (tl idx))
  | _ => a
  end.

(** *** Basic indexing: integers, [:] and [None] *)

Inductive index : Type :=
| Int (i : Z)
| Slice
| NewAxis.

(** An index along an axis of length [n], negative ones counted from
    the end. *)
Definition norm_index (i : Z) (n : nat) : option nat :=
  let j := if (i <? 0)%Z then (i + Z.of_nat n)%Z else i in
  if ((0 <=? j) && (j <? Z.of_nat n))%Z then Some (Z.to_nat j) else None.

(** The shape of [a[spec]]. *)
Fixpoint index_shape (spec : list index) (sh : list nat)
  : result (list nat) :=
  match spec with
  | [] => Ok sh
  | NewAxis :: spec' => r <- index_shape spec' sh ;; Ok (1 :: r)
  | Slice :: spec' =>
      match sh with
      | n :: sh' => r <- index_shape spec' sh' ;; Ok (n :: r)
      | [] => Raise (IndexError "too many indices for array"%string)
      end
  | Int i :: spec' =>
      match sh with
      | n :: sh' =>
          match norm_index i n with
          | Some _ => index_shape spec' sh'
          | None => Raise (IndexError "index is out of bounds"%string)
          end
      | [] => Raise (IndexError "too many indices for array"%string)
      end
  end.

(** The multi-index of [a] that entry [idx] of [a[spec]] reads. *)
Fixpoint index_source (spec : list index) (sh idx : list nat) : list nat :=
  match spec with
  | [] => idx
  | NewAxis :: spec' => index_source spec' sh (tl idx)
  | Slice :: spec' => hd 0 idx :: index_source spec' (tl sh) (tl idx)
  | Int i :: spec' =>
      match norm_index i (hd 0 sh) with Some j => j | None => 0 end
      :: index_source spec' (tl sh) idx
  end.

(** Whether the multi-index [idx] of [a] lies in the region [a[spec]],
    and at which multi-index of the region. *)
Fixpoint index_target (spec : list index) (sh idx : list nat)
  : option (list nat) :=
  match spec with
  | [] => Some idx
  | NewAxis :: spec' => option_map (cons 0) (index_target spec' sh idx)
  | Slice :: spec' =>
      match idx with
      | i :: idx' => option_map (cons i) (index_target spec' (tl sh) idx')
      | [] => None
      end
  | Int i :: spec' =>
      match idx, norm_index i (hd 0 sh) with
      | k :: idx', Some j =>
          if k =? j then index_target spec' (tl sh) idx' else None
      | _, _ => None
      end
  end.

(** [a[spec]] *)
Definition getitem (spec : list index) (a : ndarray A) : result (ndarray A) :=
  sh <- index_shape spec (shape a) ;;
  Ok (mk_ndarray sh (fun idx => item a (index_source spec (shape a) idx))).

(** *** Broadcasting *)

Definition bdim (m n : nat) : option nat :=
  if m =? n then Some m
  else if m =? 1 then Some n
  else if n =? 1 then Some m
  else None.

Fixpoint bzip (s1 s2 : list nat) : option (list nat) :=
  match s1, s2 with
  | [], [] => Some []
  | m :: s1', n :: s2' =>
      match bdim m n, bzip s1' s2' with
      | Some d, Some r => Some (d :: r)
      | _, _ => None
      end
  | _, _ => None
  end.

(** A shape extended on the left with axes of length 1. *)
Definition pad (l : nat) (s : list nat) : list nat :=
  repeat 1 (l - length s) ++ s.

Definition broadcast_shapes (s1 s2 : list nat) : option (list nat) :=
  let l := Nat.max (length s1) (length s2) in
  bzip (pad l s1) (pad l s2).

Fixpoint clamp (s idx : list nat) : list nat :=
  match s, idx with
  | n :: s', i :: idx' => (if n =? 1 then 0 else i) :: clamp s' idx'
  | _, _ => []
  end.

(** The multi-index of an operand of shape [s] that entry [idx] of the
    broadcast result reads: the trailing axes, at 0 where the operand
    has length 1. *)
Definition bidx (s idx : list nat) : list nat :=
  clamp s (skipn (length idx - length s) idx).

(** Whether a value of shape [vs] can be assigned to a region of shape
    [rs]: leading axes the value has in excess must have length 1, the
    others broadcast. *)
Definition can_broadcast (vs rs : list nat) : bool :=
  let extra := length vs - length rs in
  forallb (Nat.eqb 1) (firstn extra vs)
  && forallb (fun '(v, r) => (v =? r) || (v =? 1))
             (combine (pad (length rs) (skipn extra vs)) rs).

(** The multi-index of the assigned value that the multi-index [r] of
    the region receives. *)
Definition vidx (vs r : list nat) : list nat :=
  let extra := length vs - length r in
  repeat 0 extra ++ bidx (skipn extra vs) r.

(** [a[spec] = v] *)
Definition setitem (spec : list index) (a v : ndarray A)
  : result (ndarray A) :=
  rs <- index_shape spec (shape a) ;;
  if can_broadcast (shape v) rs
  then Ok (mk_ndarray (shape a)
             (fun idx =>
                match index_target spec (shape a) idx with
                | Some r => item v (vidx (shape v) r)
                | None => item a idx
                end))
  else Raise (ValueError "could not broadcast input array"%string).

(** *** Axes *)

Definition norm_axis (axis : Z) (nd : nat) : result nat :=
  match norm_index axis nd with
  | Some k => Ok k
  | None => Raise (ValueError "'axis' entry is out of bounds"%string)
  end.

Fixpoint insert_at {B} (k : nat) (i : B) (l : list B) : list B :=
  match k, l with
  | 0, _ => i :: l
  | S k', j :: l' => j :: insert_at k' i l'
  | S _, [] => [i]
  end.

Fixpoint remove_at {B} (k : nat) (l : list B) : list B :=
  match k, l with
  | 0, _ :: l' => l'
  | S k', j :: l' => j :: remove_at k' l'
  | _, [] => []
  end.

Definition swap_at {B} (i j : nat) (d : B) (l : list B) : list B :=
  List.map
    (fun k => nth (if k =? i then j else if k =? j then i else k) l d)
    (seq 0 (length l)).

(** [a.swapaxes(axis1, axis2)] *)
Definition swapaxes (axis1 axis2 : Z) (a : ndarray A) : result (ndarray A) :=
  i <- norm_axis axis1 (ndim a) ;;
  j <- norm_axis axis2 (ndim a) ;;
  Ok (mk_ndarray (swap_at i j 0 (shape a))
        (fun idx => item a (swap_at i j 0 idx))).

(** [a.T] *)
Definition transpose (a : ndarray A) : ndarray A :=
  mk_ndarray (rev (shape a)) (fun idx => item a (rev idx)).

(** *** Gathering rows *)

(** [a.take(ind, axis=0)] *)
Definition take (ind : ndarray Z) (a : ndarray A) : result (ndarray A) :=
  match shape a with
  | [] => Raise (ValueError "'axis' entry is out of bounds"%string)
  | n :: sh' =>
      if forallb (fun i => match norm_index (item ind i) n with
                           | Some _ => true
                           | None => false
                           end)
                 (indices (shape ind))
      then Ok (mk_ndarray (shape ind ++ sh')
                 (fun idx =>
                    let i := firstn (length (shape ind)) idx in
                    match norm_index (item ind i) n with
                    | Some j => item a (j :: skipn (length (shape ind)) idx)
                    | None => item a idx
                    end))
      else Raise (IndexError "index out of range"%string)
  end.

(** [a.compress(mask, axis=0)]: the rows of [a] at which the
    one-dimensional [mask] is true. *)
Definition true_positions (mask : ndarray bool) : list nat :=
  filter (fun i => item mask [i]) (seq 0 (nth 0 (shape mask) 0)).

Definition compress (mask : ndarray bool) (a : ndarray A)
  : result (ndarray A) :=
  match shape mask, shape a with
  | [_], n :: sh' =>
      let pos := true_positions mask in
      if forallb (fun i => i <? n) pos
      then Ok (mk_ndarray (length pos :: sh')
                 (fun idx => item a (nth (hd 0 idx) pos 0 :: tl idx)))
      else Raise (IndexError "index out of bounds for axis 0"%string)
  | [_], [] => Raise (ValueError "'axis' entry is out of bounds"%string)
  | _, _ => Raise (ValueError "condition must be a 1-d array"%string)
  end.

(** [a[mask]] for one-dimensional [a] and [mask] of equal length. *)
Definition getitem_mask (a : ndarray A) (mask : ndarray bool)
  : result (ndarray A) :=
  match shape a, shape mask with
  | [n], [m] =>
      if n =? m
      then Ok (mk_ndarray [length (true_positions mask)]
                 (fun idx => item a [nth (hd 0 idx) (true_positions mask) 0]))
      else Raise (IndexError "boolean index did not match indexed array"%string)
  | _, _ => Raise (IndexError "too many indices for array"%string)
  end.

(** [a[mask] = v] for one-dimensional [a] and [mask] of equal length:
    the entries of [v], in order, go to the positions at which [mask]
    is true. The value has at most one axis (NumPy refuses any other with
    a TypeError); a single entry is repeated, otherwise there is one
    entry per true position. *)
Definition setitem_mask (a : ndarray A) (mask : ndarray bool) (v : ndarray A)
  : result (ndarray A) :=
  match shape a, shape mask with
  | [n], [m] =>
      if n =? m
      then
        if negb (ndim v <=? 1)
        then Raise (TypeError
               "NumPy boolean array indexing assignment requires a 0 or 1-dimensional input"%string)
        else if can_broadcast (shape v) [length (true_positions mask)]
        then Ok (mk_ndarray (shape a)
                   (fun idx =>
                      let i := hd 0 idx in
                      if item mask [i]
                      then item v (vidx (shape v)
                                     [length (filter (fun k => item mask [k])
                                                     (seq 0 i))])
                      else item a idx))
        else Raise (ValueError
               "cannot assign the input values to the output values where the mask is true"%string)
      else Raise (IndexError "boolean index did not match indexed array"%string)
  | _, _ => Raise (IndexError "too many indices for array"%string)
  end.

End Generic.

(** [f(a)] entry by entry *)
Definition map {A B} (f : A -> B) (a : ndarray A) : ndarray B :=
  mk_ndarray (shape a) (fun idx => f (item a idx)).

(** [a op b] entry by entry, with broadcasting *)
Definition binop {A B C} (f : A -> B -> C) (a : ndarray A) (b : ndarray B)
  : result (ndarray C) :=
  match broadcast_shapes (shape a) (shape b) with
  | Some sh =>
      Ok (mk_ndarray sh
            (fun idx => f (item a (bidx (shape a) idx))
                          (item b (bidx (shape b) idx))))
  | None => Raise (ValueError "operands could not be broadcast together"%string)
  end.

(** [np.logical_and(a, b)] *)
Definition logical_and : ndarray bool -> ndarray bool -> result (ndarray bool) :=
  binop andb.

(** [np.empty(shape, dtype=bool)]: the entries are whatever the memory
    holds; every use in the code overwrites them before reading. *)
Definition empty_bool (sh : list nat) : ndarray bool := full sh false.

Section Numeric.
Context {F : Scalar}.

Definition zeros (sh : list nat) : ndarray sc := full sh zero.
Definition ones (sh : list nat) : ndarray sc := full sh one.

(** [np.abs(a)] *)
Definition abs (a : ndarray sc) : ndarray sc := map absv a.

(** [a * b] *)
Definition multiply : ndarray sc -> ndarray sc -> result (ndarray sc) :=
  binop mul.

(** The sum of a sequence of entries, accumulated from left to right. *)
Definition total (xs : list sc) : sc := fold_left add xs zero.

(** NumPy's pairwise summation of a run of entries that lie one after
    the other in memory. Eight accumulators take the entries in turn,
    group of eight after group of eight ([add_lanes]); they are added as
    a balanced tree ([add_tree]), and the entries left over after the
    last full group are added from left to right ([pairwise_block]). *)
Fixpoint add_lanes (groups : nat) (r xs : list sc) : list sc * list sc :=
  match groups with
  | 0 => (r, xs)
  | S groups' =>
      add_lanes groups'
        (List.map (fun '(x, y) => add x y) (combine r (firstn 8 xs)))
        (skipn 8 xs)
  end.

Definition add_tree (r : list sc) : sc :=
  let r_ (j : nat) := nth j r zero in
  add (add (add (r_ 0) (r_ 1)) (add (r_ 2) (r_ 3)))
      (add (add (r_ 4) (r_ 5)) (add (r_ 6) (r_ 7))).

Definition pairwise_block (xs : list sc) : sc :=
  let '(r, rest) :=
    add_lanes (length xs / 8 - 1) (firstn 8 xs) (skipn 8 xs) in
  fold_left add rest (add_tree r).

(** Fewer than 8 entries are added from left to right, up to 128 in one
    block; a longer run is split in two, the first part a multiple of
    eight, and the sums of the parts are added. The recursion halves the
    run, so the length of the run is fuel enough. *)
Fixpoint pairwise_sum (fuel : nat) (xs : list sc) : sc :=
  let n := length xs in
  if n <? 8 then fold_left add xs zero
  else if n <=? 128 then pairwise_block xs
  else
    match fuel with
    | 0 => pairwise_block xs
    | S fuel' =>
        let n2 := n / 2 - (n / 2) mod 8 in
        add (pairwise_sum fuel' (firstn n2 xs))
            (pairwise_sum fuel' (skipn n2 xs))
    end.

(** [np.add.reduce] for one entry of the result, which starts from 0.
    Where the reduced axis is the innermost one of the iteration (the
    entries [xs] are contiguous) NumPy adds their pairwise sum to it;
    elsewhere it adds the entries one after the other. Below 8 entries
    the two agree: the pairwise sum is then the left-to-right one, and
    adding it to 0 returns it. *)
Definition add_reduce (contiguous : bool) (xs : list sc) : sc :=
  if contiguous && (8 <=? length xs)
  then add zero (pairwise_sum (length xs) xs)
  else total xs.

(** Whether axis [k] of an array of shape [sh], laid out row by row, is
    the innermost axis of a reduction along it: every later axis has
    length 1. *)
Definition innermost (k : nat) (sh : list nat) : bool :=
  forallb (Nat.eqb 1) (skipn (S k) sh).

(** [a.sum(axis=axis)], for an array laid out row by row, as the results
    of NumPy's operations are. *)
Definition sum (axis : Z) (a : ndarray sc) : result (ndarray sc) :=
  k <- norm_axis axis (ndim a) ;;
  Ok (mk_ndarray (remove_at k (shape a))
        (fun idx =>
           add_reduce (innermost k (shape a))
             (List.map (fun i => item a (insert_at k i idx))
                       (seq 0 (nth k (shape a) 0))))).

(** [a.mean(axis=axis)] *)
Definition mean (axis : Z) (a : ndarray sc) : result (ndarray sc) :=
  k <- norm_axis axis (ndim a) ;;
  s <- sum axis a ;;
  Ok (map (fun x => div x (of_nat (nth k (shape a) 0))) s).

End Numeric.
End NumPy.

Import NumPy.

Arguments add_reduce : simpl never.

(** ** Reference elements *)

(** pysofe/elements/base.py is not among the sources: the base class is
    modelled from the specification (section 4.3), as the state its
    constructor stores and the dispatch of [eval_basis]. *)
Module Element.
Section WithScalar.
Context {F : Scalar}.

(** The attributes of an element object. *)
Record fields : Type := mk_fields {
  dimension : Z;
  order : Z;
  n_basis : list nat;
  n_verts : list nat;
  _dof_tuple : list nat
}.

(** The evaluators a concrete element class provides. *)
Record methods : Type := mk_methods {
  _eval_d0basis : fields -> ndarray sc -> result (ndarray sc);
  _eval_d1basis : fields -> ndarray sc -> result (ndarray sc);
  _eval_d2basis : fields -> ndarray sc -> result (ndarray sc)
}.

(** An element object: its attributes and its class. *)
Record t : Type := mk_element {
  self : fields;
  cls : methods
}.

(** Modelled from the spec: [Element.__init__] (base.py is missing)
    stores the dimension, the order and the two count tuples. *)
Definition __init__ (dimension order : Z) (n_basis n_verts : list nat)
  : fields :=
  mk_fields dimension order n_basis n_verts [].

(** Modelled from the spec: [Element.eval_basis] (base.py is missing)
    dispatches on [deriv] in {0, 1, 2} to the value, first-derivative
    and second-derivative evaluators; the taxonomy of section 7 makes
    any other order an invalid argument. *)
Definition eval_basis (e : t) (points : ndarray sc) (deriv : Z)
  : result (ndarray sc) :=
  if (deriv =? 0)%Z then _eval_d0basis (cls e) (self e) points
  else if (deriv =? 1)%Z then _eval_d1basis (cls e) (self e) points
  else if (deriv =? 2)%Z then _eval_d2basis (cls e) (self e) points
  else Raise (ValueError "Invalid derivation order"%string).

End WithScalar.
End Element.

(** [pysofe/elements/simple/lagrange.py]: linear Lagrange basis functions
    on simplicial domains. *)
Module P1.
Import Element.
Section WithScalar.
Context {F : Scalar}.

(** [nD, nP = points.shape] *)
Definition unpack_shape2 (points : ndarray sc) : result (nat * nat) :=
  match shape points with
  | [nD; nP] => Ok (nD, nP)
  | _ => Raise (ValueError "wrong number of values to unpack"%string)
  end.

(** The body of the loop of [_eval_d0basis]: [basis[i+1] = points[i]]. *)
Definition d0_body (points : ndarray sc) (i : nat) (basis : ndarray sc)
  : result (ndarray sc) :=
  row <- getitem [Int (Z.of_nat i)] points ;;
  setitem [Int (Z.of_nat i + 1)] basis row.

Definition _eval_d0basis (self : fields) (points : ndarray sc)
  : result (ndarray sc) :=
  '(nD, nP) <- unpack_shape2 points ;;
  nB <- tuple_get (n_basis self) nD ;;
  let basis := zeros [nB; nP] in
  s <- sum 0 points ;;
  basis <- setitem [Int 0] basis (map (sub one) s) ;;
  for_each (seq 0 nD) (d0_body points) basis.

(** The body of the loop of [_eval_d1basis]: [basis[i+1,:,i] = 1.]. *)
Definition d1_body (i : nat) (basis : ndarray sc) : result (ndarray sc) :=
  setitem [Int (Z.of_nat i + 1); Slice; Int (Z.of_nat i)] basis
          (scalar one).

Definition _eval_d1basis (self : fields) (points : ndarray sc)
  : result (ndarray sc) :=
  '(nD, nP) <- unpack_shape2 points ;;
  nB <- tuple_get (n_basis self) nD ;;
  let basis := zeros [nB; nP; nD] in
  basis <- setitem [Int 0] basis (scalar (opp one)) ;;
  for_each (seq 0 nD) d1_body basis.

Definition _eval_d2basis (self : fields) (points : ndarray sc)
  : result (ndarray sc) :=
  '(nD, nP) <- unpack_shape2 points ;;
  nB <- tuple_get (n_basis self) nD ;;
  let basis := zeros [nB; nP; nD; nD] in
  Ok basis.

Definition methods_P1 : methods :=
  mk_methods _eval_d0basis _eval_d1basis _eval_d2basis.

(** [P1.__init__] *)
Definition __init__ (dimension : Z) : Element.t :=
  let order := 1%Z in
  let n_basis := slice_to (dimension + 1) [1; 2; 3; 4] in
  let n_verts := slice_to (dimension + 1) [1; 2; 3; 4] in
  let self := Element.__init__ dimension order n_basis n_verts in
  let self := mk_fields (Element.dimension self) (Element.order self)
                        (Element.n_basis self) (Element.n_verts self)
                        (slice_to (dimension + 1) [1; 0; 0; 0]) in
  mk_element self methods_P1.

End WithScalar.
End P1.


(** ** The mesh *)

(** [pysofe_light/meshes/mesh.py]. The geometry, topology and reference-map
    classes live in modules that are not among the sources; they enter as
    records of the operations the mesh and the space call on them, and
    their constructors as the parameter [constructors] of [__init__]. *)
Module Mesh.
Section WithScalar.
Context {F : Scalar}.

Record MeshGeometry : Type := mk_geometry {
  geometry_nodes : ndarray sc
}.

Record MeshTopology : Type := mk_topology {
  get_entities : Z -> result (ndarray Z);
  get_boundary : Z -> result (ndarray bool);
  n_entities : Z -> result nat
}.

Record ReferenceMap : Type := mk_ref_map {
  jacobian_inverse : ndarray sc -> result (ndarray sc);
  jacobian_determinant : ndarray sc -> result (ndarray sc)
}.

Record t : Type := mk_mesh {
  _dimension : nat;
  geometry : MeshGeometry;
  topology : MeshTopology;
  ref_map : ReferenceMap
}.

Record constructors : Type := mk_constructors {
  new_MeshGeometry : ndarray sc -> result MeshGeometry;
  new_MeshTopology : ndarray Z -> nat -> result MeshTopology;
  new_ReferenceMap : nat -> MeshGeometry -> MeshTopology -> result ReferenceMap
}.

(** [Mesh.__init__]; the connectivity arrives as an integer array, on
    which [np.asarray(connectivity, dtype=int)] is the identity. *)
Definition __init__ (C : constructors)
                    (nodes : ndarray sc) (connectivity : ndarray Z)
  : result t :=
  let nodes := atleast_2d nodes in
  width <- tuple_get (shape nodes) 1 ;;
  if (1 <=? width) && (width <=? 3)
  then
    let _dimension := width in
    geometry <- new_MeshGeometry C nodes ;;
    topology <- new_MeshTopology C connectivity _dimension ;;
    ref_map <- new_ReferenceMap C _dimension geometry topology ;;
    Ok (mk_mesh _dimension geometry topology ref_map)
  else Raise AssertionError.

Definition dimension (self : t) : nat := _dimension self.

Definition nodes (self : t) : ndarray sc := geometry_nodes (geometry self).

Definition cells (self : t) : result (ndarray Z) :=
  get_entities (topology self) (Z.of_nat (dimension self)).

Definition facets (self : t) : result (ndarray Z) :=
  get_entities (topology self) (Z.of_nat (dimension self) - 1).

Definition faces (self : t) : result (ndarray Z) :=
  get_entities (topology self) 2.

Definition edges (self : t) : result (ndarray Z) :=
  get_entities (topology self) 1.

(** A boundary predicate: a Python callable from coordinates to truth
    values, which may raise. *)
Definition predicate : Type := ndarray sc -> result (ndarray bool).

(** The centroids of the boundary facets, one per row. *)
Definition boundary_centroids (self : t) (boundary_mask : ndarray bool)
  : result (ndarray sc) :=
  all_facets <- facets self ;;
  facet_vertices <- compress boundary_mask all_facets ;;
  facet_vertex_coordinates <-
    take (map (fun v => (v - 1)%Z) facet_vertices) (nodes self) ;;
  mean 1 facet_vertex_coordinates.

(** The body of the fallback loop: [part_mask[i] = fnc(centroids[i,:])]. *)
Definition part_body (fnc : predicate) (centroids : ndarray sc)
                     (i : nat) (part_mask : ndarray bool)
  : M (ndarray sc) (ndarray bool) :=
  c <~ lift (getitem [Int (Z.of_nat i); Slice] centroids) ;;
  v <~ call c (fnc c) ;;
  lift (setitem [Int (Z.of_nat i)] part_mask v).

(** [Mesh.boundary]. The log records every argument the predicate is
    called with. [assert callable(fnc)] holds by the type of [fnc]. The
    source writes the result into the array [get_boundary] handed out;
    here the mask is a value, and the updated mask is what is returned. *)
Definition boundary (self : t) (fnc : option predicate)
  : M (ndarray sc) (ndarray bool) :=
  boundary_mask <~
    lift (get_boundary (topology self) (Z.of_nat (dimension self) - 1)) ;;
  match fnc with
  | None => ret boundary_mask
  | Some fnc =>
      centroids <~ lift (boundary_centroids self boundary_mask) ;;
      part_mask <~
        try_except
          (call (transpose centroids) (fnc (transpose centroids)))
          (ncentroids <~ lift (size_axis0 centroids) ;;
           let part_mask := empty_bool [ncentroids] in
           for_eachM (seq 0 ncentroids) (part_body fnc centroids) part_mask) ;;
      selected <~ lift (getitem_mask boundary_mask boundary_mask) ;;
      value <~ lift (logical_and selected part_mask) ;;
      lift (setitem_mask boundary_mask boundary_mask value)
  end.

(** [Mesh.eval_function] *)
Definition eval_function (self : t) (fnc : predicate) (points : ndarray sc)
  : result (ndarray sc) :=
  Raise (NotImplementedError EmptyString).

End WithScalar.
End Mesh.

(** ** The finite-element space *)

(** [pysofe/spaces/space.py]. The degrees-of-freedom manager and the
    quadrature tables are not among the sources: the space holds the
    operations it calls on them. *)
Module FESpace.
Section WithScalar.
Context {F : Scalar}.

Record QuadRule : Type := mk_quad_rule {
  points : Z -> result (ndarray sc);
  weights : Z -> result (ndarray sc)
}.

Record t : Type := mk_space {
  mesh : Mesh.t;
  element : Element.t;
  quad_rule : QuadRule;
  get_dof_map : nat -> result (ndarray Z)
}.

(** The calls a space makes to its mesh, its element and its
    degrees-of-freedom manager. *)
Inductive event : Type :=
| Call_jacobian_determinant (points : ndarray sc)
| Call_jacobian_inverse (points : ndarray sc)
| Call_eval_basis (points : ndarray sc) (deriv : Z)
| Call_get_dof_map (d : nat).

Definition get_quadrature_data (self : t) (d : Z)
  : M event (ndarray sc * ndarray sc * ndarray sc) :=
  qpoints <~ lift (points (quad_rule self) d) ;;
  qweights <~ lift (weights (quad_rule self) d) ;;
  jac_dets <~
    (if 0 <? size qpoints
     then
       jac_dets <~ call (Call_jacobian_determinant qpoints)
                        (Mesh.jacobian_determinant (Mesh.ref_map (mesh self))
                                                   qpoints) ;;
       ret (abs jac_dets)
     else
       nE <~ lift (Mesh.n_entities (Mesh.topology (mesh self)) d) ;;
       ret (ones [nE; 1])) ;;
  ret (qpoints, qweights, jac_dets).

Definition invalid_order_msg (deriv : Z) : string :=
  ("Invalid derivation order for global derivatives! ("
     ++ str_of_Z deriv ++ ")")%string.

Definition eval_global_derivatives (self : t) (points : ndarray sc)
                                   (deriv : Z)
  : M event (ndarray sc) :=
  if negb ((deriv =? 1)%Z || (deriv =? 2)%Z)
  then raise (ValueError (invalid_order_msg deriv))
  else
    inv_jac <~ call (Call_jacobian_inverse points)
                    (Mesh.jacobian_inverse (Mesh.ref_map (mesh self)) points) ;;
    local_derivatives <~ call (Call_eval_basis points deriv)
                              (Element.eval_basis (element self) points deriv) ;;
    if (deriv =? 1)%Z
    then
      lift (a <- getitem [Slice; NewAxis; Slice; Slice; Slice] inv_jac ;;
            b <- getitem [NewAxis; Slice; Slice; Slice; NewAxis]
                         local_derivatives ;;
            prod <- multiply a b ;;
            sum (-2) prod)
    else if (deriv =? 2)%Z
    then
      lift (inv_jac_T <- swapaxes (-2) (-1) inv_jac ;;
            a <- getitem [Slice; NewAxis; Slice; Slice; Slice; NewAxis]
                         inv_jac_T ;;
            b <- getitem [NewAxis; Slice; Slice; NewAxis; Slice; Slice]
                         local_derivatives ;;
            prod <- multiply a b ;;
            derivatives <- sum (-2) prod ;;
            c <- getitem [Slice; Slice; Slice; Slice; Slice; NewAxis]
                         derivatives ;;
            e <- getitem [Slice; NewAxis; Slice; NewAxis; Slice; Slice]
                         inv_jac ;;
            prod <- multiply c e ;;
            sum (-2) prod)
    else raise (NameError "derivatives"%string).

(** The names bound in the body of [eval_dofs] and at the top level of
    the module; no builtin is called [d]. *)
Definition eval_dofs_locals : list string :=
  ["self"; "dofs"; "points"; "deriv"; "local"; "dim"; "dof_map";
   "values"; "basis"; "U"; "dbasis_global"]%string.

Definition module_globals : list string :=
  ["np"; "sparse"; "DOFManager"; "quadrature"; "IPS"; "FESpace"]%string.

Definition eval_dofs (self : t) (dofs : ndarray sc) (points : ndarray sc)
                     (deriv : Z) (local : bool)
  : M event (ndarray sc) :=
  if negb local
  then raise (NotImplementedError EmptyString)
  else
    dim <~ lift (size_axis0 points) ;;
    if (dim <? Mesh.dimension (mesh self)) && (0 <? deriv)%Z
    then raise (NotImplementedError
                  "Higher order derivatives for traces not supported!"%string)
    else
      dof_map <~ call (Call_get_dof_map dim) (get_dof_map self dim) ;;
      values <~ lift (take (map (fun g => (g - 1)%Z) dof_map) dofs) ;;
      if (deriv =? 0)%Z
      then
        basis <~ call (Call_eval_basis points deriv)
                      (Element.eval_basis (element self) points deriv) ;;
        lift (a <- getitem [Slice; Slice; NewAxis] values ;;
              b <- getitem [Slice; NewAxis; Slice] basis ;;
              prod <- multiply a b ;;
              sum 0 prod)
      else if (deriv =? 1)%Z
      then
        dbasis_global <~ eval_global_derivatives self points 1 ;;
        lift (a <- getitem [Slice; Slice; NewAxis; NewAxis]
                           (transpose values) ;;
              prod <- multiply a dbasis_global ;;
              sum 1 prod)
      else
        d <~ lift (resolve eval_dofs_locals module_globals "d"%string) ;;
        raise (NotImplementedError
                 ("Invalid derivation order (" ++ d ++ ")")%string).

End WithScalar.
End FESpace.

(** ** Properties referred to by the theorems *)

(** The few facts of arithmetic on -1, 0 and 1 under which the gradients
    of the P1 basis cancel. They hold in binary64 as in any ring. *)
Record signed_unit_laws (F : Scalar) : Prop := mk_signed_unit_laws {
  add_zero_minus_one : add zero (opp one) = opp one;
  add_minus_one_one : add (opp one) one = zero;
  add_minus_one_zero : add (opp one) zero = opp one;
  add_zero_zero : add zero zero = zero
}.

(** Column [p] of [points] lies on the reference simplex: no coordinate is
    negative and the coordinates do not sum to more than one. *)
Definition on_reference_simplex {F : Scalar}
  (points : ndarray sc) (nD p : nat) : bool :=
  forallb (fun i => negb (ltb (item points [i; p]) zero)) (seq 0 nD)
  && negb (ltb one (total (List.map (fun i => item points [i; p]) (seq 0 nD)))).

(** Partition of unity in the arithmetic [F]: in every dimension 1, 2, 3,
    at every point of the reference simplex, the values of the P1 basis
    functions, summed along the basis axis, give exactly one. *)
Definition partition_of_unity (F : Scalar) : Prop :=
  forall (dimension : Z) (points : ndarray sc) (nD nP : nat),
    (1 <= dimension <= 3)%Z ->
    shape points = [nD; nP] ->
    Z.of_nat nD = dimension ->
    exists basis s,
      Element.eval_basis (P1.__init__ dimension) points 0 = Ok basis /\
      sum 0 basis = Ok s /\
      shape s = [nP] /\
      forall p, p < nP -> on_reference_simplex points nD p = true ->
                item s [p] = one.

(** The rational number a binary64 scalar stands for; the infinities and
    NaN, which stand for none, are given 0. *)
Definition float_value (x : float) : Q :=
  match Prim2SF x with
  | S754_finite s m e =>
      let n := if s then Z.neg m else Z.pos m in
      match e with
      | Z.neg k => n # (2 ^ k)
      | _ => inject_Z (n * 2 ^ e)
      end
  | _ => 0%Q
  end.

(** The value of a finite binary64 number in units of 2^-1074, the
    smallest positive one. *)
Definition SFscaled (x : spec_float) : Z :=
  match x with
  | S754_finite s m e => (cond_Zopp s (Z.pos m) * 2 ^ (e + 1074))%Z
  | _ => 0%Z
  end.

Definition SFfinite (x : spec_float) : bool :=
  match x with
  | S754_zero _ | S754_finite _ _ _ => true
  | _ => false
  end.

(** Neither an infinity nor NaN. *)
Definition float_finite (x : float) : bool := SFfinite (Prim2SF x).

(** What [k] right shifts make of the mantissa [m] in the rounding of the
    IEEE 754 operations: the quotient by 2^k, and where the remainder
    lies with respect to half of 2^k. *)
Definition shifted (m : Z) (k : nat) (mrs : shr_record) : Prop :=
  (shr_m mrs = m / 2 ^ Z.of_nat k /\
   let rem := m mod 2 ^ Z.of_nat k in
   match shr_r mrs, shr_s mrs with
   | false, false => rem = 0
   | false, true => 0 < 2 * rem < 2 ^ Z.of_nat k
   | true, false => 2 * rem = 2 ^ Z.of_nat k
   | true, true => 2 ^ Z.of_nat k < 2 * rem
   end)%Z.

(** What is asked of a reading [value] of the scalars as rational
    numbers: 0 and 1 are read as such, and nothing but 1 is read as 1. *)
Record value_laws (F : Scalar) (value : sc -> Q) : Prop := mk_value_laws {
  value_zero : (value zero == 0)%Q;
  value_one : (value one == 1)%Q;
  value_one_only : forall x, (value x == 1)%Q -> x = one
}.

(** Adding the entries [xs] to [acc] one after the other, no addition is
    off the exact sum of its two operands by more than [eps]. *)
Fixpoint accumulated_within {F : Scalar} (value : sc -> Q) (eps : Q)
  (acc : sc) (xs : list sc) : Prop :=
  match xs with
  | [] => True
  | x :: xs' =>
      (Qabs (value (add acc x) - (value acc + value x)) <= eps)%Q /\
      accumulated_within value eps (add acc x) xs'
  end.

(** At column [p] of [points], none of the operations of [_eval_d0basis]
    and of the sum of its rows is off its exact result by more than
    [eps]: the additions of [points.sum(axis=0)], the subtraction from 1,
    and the additions of the sum along the basis axis. *)
Definition rounded_within {F : Scalar} (value : sc -> Q) (eps : Q)
  (points : ndarray sc) (nD p : nat) : Prop :=
  let xs := List.map (fun i => item points [i; p]) (seq 0 nD) in
  accumulated_within value eps zero xs /\
  (Qabs (value (sub one (total xs)) - (1 - value (total xs))) <= eps)%Q /\
  accumulated_within value eps zero (sub one (total xs) :: xs).

(** The exact sum of rational numbers. *)
Definition exact_total (qs : list Q) : Q := fold_right Qplus 0%Q qs.

(** Column [p] of [points] is a point of the reference simplex: its
    coordinates are finite numbers, none of them negative, and their
    sum, taken exactly, is at most one. *)
Definition within_reference_simplex (points : ndarray float) (nD p : nat)
  : Prop :=
  let xs := List.map (fun i => item points [i; p]) (seq 0 nD) in
  Forall (fun x => float_finite x = true /\ (0 <= float_value x)%Q) xs /\
  (exact_total (List.map float_value xs) <= 1)%Q.

(** The determinant scaling is never negative once the absolute value is
    taken: the law of [absv] that [get_quadrature_data] relies on. *)
Definition abs_never_negative (F : Scalar) : Prop :=
  forall x : sc, ltb (absv x) zero = false.

(** The exceptions the array operations of [NumPy] raise. *)
Definition numpy_errors : list exn :=
  [ ValueError "could not broadcast input array"%string;
    ValueError "operands could not be broadcast together"%string;
    ValueError "'axis' entry is out of bounds"%string;
    ValueError "condition must be a 1-d array"%string;
    ValueError "cannot assign the input values to the output values where the mask is true"%string;
    TypeError "NumPy boolean array indexing assignment requires a 0 or 1-dimensional input"%string;
    IndexError "too many indices for array"%string;
    IndexError "index is out of bounds"%string;
    IndexError "index out of range"%string;
    IndexError "index out of bounds for axis 0"%string;
    IndexError "boolean index did not match indexed array"%string;
    IndexError "tuple index out of range"%string ].

(** The invalid-argument error of [eval_global_derivatives], recognised by
    its message. *)
Definition is_invalid_order (e : exn) : bool :=
  match e with
  | ValueError msg =>
      prefix "Invalid derivation order for global derivatives!"%string msg
  | _ => false
  end.

(** The centroid of facet [f], coordinate [j], as the specification words
    it: the average of the coordinates of the facet's vertices, which the
    incidence table [facets] numbers from 1. The coordinates are added
    the way NumPy adds them: one after the other, except that on a mesh
    of one spatial axis the coordinates of a facet's vertices lie one
    after the other in memory. *)
Definition facet_centroid {F : Scalar}
  (nodes : ndarray sc) (facets : ndarray Z) (f j : nat) : sc :=
  let m := nth 1 (shape facets) 0 in
  let nN := nth 0 (shape nodes) 0 in
  let D := nth 1 (shape nodes) 0 in
  div (add_reduce (1 =? D)
         (List.map
            (fun q =>
               item nodes
                 [match norm_index (item facets [f; q] - 1) nN with
                  | Some r => r
                  | None => 0
                  end; j])
            (seq 0 m)))
      (of_nat m).

(** An argument a boundary predicate may be called with: the centroids of
    all boundary facets stacked by spatial axis, or the centroid of one
    boundary facet. *)
Definition centroid_argument {F : Scalar}
  (nodes : ndarray sc) (facets : ndarray Z) (boundary_mask : ndarray bool)
  (a : ndarray sc) : Prop :=
  let pos := true_positions boundary_mask in
  let D := nth 1 (shape nodes) 0 in
  (shape a = [D; length pos] /\
   forall j k, j < D -> k < length pos ->
     item a [j; k] = facet_centroid nodes facets (nth k pos 0) j)
  \/
  (exists k, k < length pos /\ shape a = [D] /\
     forall j, j < D ->
       item a [j] = facet_centroid nodes facets (nth k pos 0) j).

(** The array [c] holds the centroids of the boundary facets, one per
    row, in the order of the facets. *)
Definition facet_centroids {F : Scalar}
  (nodes : ndarray sc) (facets : ndarray Z) (boundary_mask : ndarray bool)
  (c : ndarray sc) : Prop :=
  let pos := true_positions boundary_mask in
  let D := nth 1 (shape nodes) 0 in
  shape c = [length pos; D] /\
  forall k j, k < length pos -> j < D ->
    item c [k; j] = facet_centroid nodes facets (nth k pos 0) j.

(** The answers [part_mask] of a predicate on the centroids [c], and the
    calls that obtained them: either the predicate answered the call on
    all centroids stacked by spatial axis, or it raised there and was
    then called on the rows of [c] in turn, each answer, a single truth
    value, stored at the position of its row. *)
Definition predicate_answers {F : Scalar}
  (fnc : Mesh.predicate) (c : ndarray sc) (part_mask : ndarray bool)
  (calls : list (ndarray sc)) : Prop :=
  let nBF := nth 0 (shape c) 0 in
  (fnc (transpose c) = Ok part_mask /\ calls = [transpose c])
  \/
  ((exists e, fnc (transpose c) = Raise e) /\
   exists rows,
     calls = transpose c :: rows /\ length rows = nBF /\
     shape part_mask = [nBF] /\
     forall k, k < nBF ->
       getitem [Int (Z.of_nat k); Slice] c = Ok (nth k rows c) /\
       exists v, fnc (nth k rows c) = Ok v /\
                 item part_mask [k] = item v (vidx (shape v) [])).

(** The number of boundary facets before facet [i]: the position of facet
    [i] among the boundary facets. *)
Definition boundary_rank (mask : ndarray bool) (i : nat) : nat :=
  length (filter (fun k => item mask [k]) (seq 0 i)).

(** The facts of arithmetic on 0 and 1 under which the P1 basis is nodal. *)
Record zero_one_laws (F : Scalar) : Prop := mk_zero_one_laws {
  zo_add_zero_zero : add zero zero = zero;
  zo_add_zero_one : add zero one = one;
  zo_add_one_zero : add one zero = one;
  zo_sub_one_zero : sub one zero = one;
  zo_sub_one_one : sub one one = zero
}.

(** The vertices of the reference simplex of dimension [d], one per
    column: the origin, then the unit points of the axes. *)
Definition reference_vertices {F : Scalar} (d : nat) : ndarray sc :=
  mk_ndarray [d; d + 1]
    (fun idx => if nth 1 idx 0 =? nth 0 idx 0 + 1 then one else zero).

(** What the predicate answers on the centroid in row [k], called on that
    centroid alone. *)
Definition pointwise_answer {F : Scalar}
  (fnc : Mesh.predicate) (centroids : ndarray sc) (k : nat) : bool :=
  match getitem [Int (Z.of_nat k); Slice] centroids with
  | Ok r => match fnc r with
            | Ok v => item v []
            | Raise _ => false
            end
  | Raise _ => false
  end.

(** ** Concrete data *)

Module Data.

(** The three vertices of the reference triangle, one per column. *)
Definition triangle_vertices : ndarray Z :=
  of_rows 0%Z [[0; 1; 0]; [0; 0; 1]]%Z.

(** The binary64 number nearest to one tenth. *)
Definition tenth : float := 0x1.999999999999ap-4%float.

(** One point of the reference tetrahedron: (0.1, 0.1, 0.1). *)
Definition tenths : ndarray float :=
  of_rows 0%float [[tenth]; [tenth]; [tenth]].

(** Another point of the reference tetrahedron: (0.25, 0.25, 0.25). *)
Definition quarters : ndarray float :=
  of_rows 0%float [[0.25]; [0.25]; [0.25]]%float.

(** The midpoint of the reference interval. *)
Definition midpoint : ndarray float := of_rows 0%float [[0.5%float]].

(** *** The unit interval, meshed by the single cell (2, 1)

    The cell runs from node 2 to node 1, against the axis: its reference
    map has the Jacobian -1 at every point. *)

Definition interval_nodes : ndarray float :=
  of_rows 0%float [[0%float]; [1%float]].

Definition interval_cells : ndarray Z := of_rows 0%Z [[2; 1]]%Z.

Definition interval_geometry (nodes : ndarray float)
  : @Mesh.MeshGeometry binary64 :=
  Mesh.mk_geometry (F := binary64) nodes.

Definition interval_topology (cells : ndarray Z)
  : Mesh.MeshTopology :=
  Mesh.mk_topology
    (fun d => if (d =? 0)%Z then Ok (of_rows 0%Z [[1]; [2]]%Z)
              else if (d =? 1)%Z then Ok cells
              else Raise (IndexError "list index out of range"%string))
    (fun d => if (d =? 0)%Z then Ok (of_list false [true; true])
              else Raise (IndexError "list index out of range"%string))
    (fun d => if (d =? 0)%Z then Ok 2
              else if (d =? 1)%Z then Ok 1
              else Raise (IndexError "list index out of range"%string)).

Definition interval_ref_map : @Mesh.ReferenceMap binary64 :=
  Mesh.mk_ref_map (F := binary64)
    (fun points => Ok (full [1; nth 1 (shape points) 0; 1; 1] (-1)%float))
    (fun points => Ok (full [1; nth 1 (shape points) 0] (-1)%float)).

Definition interval_constructors : @Mesh.constructors binary64 :=
  Mesh.mk_constructors (F := binary64)
    (fun nodes => Ok (interval_geometry nodes))
    (fun cells _ => Ok (interval_topology cells))
    (fun _ _ _ => Ok interval_ref_map).

Definition interval_mesh : @Mesh.t binary64 :=
  Mesh.mk_mesh 1 (interval_geometry interval_nodes)
               (interval_topology interval_cells) interval_ref_map.

(** A one-point rule on the cell, none on the vertices. *)
Definition interval_quad_rule : @FESpace.QuadRule binary64 :=
  FESpace.mk_quad_rule (F := binary64)
    (fun d => if (d =? 1)%Z then Ok midpoint
              else Ok (mk_ndarray [1; 0] (fun _ => 0%float)))
    (fun d => Ok (of_list 0%float [1%float])).

Definition interval_space : @FESpace.t binary64 :=
  FESpace.mk_space interval_mesh (P1.__init__ (F := binary64) 1)
    interval_quad_rule
    (fun d => match d with
              | 0 => Ok (of_rows 0%Z [[1; 2]]%Z)
              | 1 => Ok (of_rows 0%Z [[2]; [1]]%Z)
              | _ => Raise (IndexError "list index out of range"%string)
              end).

(** *** Sixteen basis functions on the interval

    A stand-in for an element of high order: at every point each of its
    sixteen basis functions has the value 1 and the derivative 1. With
    the degrees of freedom 1, 2^-53, ..., 2^-53 the sixteen products that
    [eval_dofs] adds up are 1 and fifteen times 2^-53 (their negatives
    for the derivative, the Jacobian being -1). *)

Definition sixteen_element : @Element.t binary64 :=
  Element.mk_element
    (Element.__init__ 1 15 [1; 16] [1; 2])
    (Element.mk_methods (F := binary64)
       (fun _ points => Ok (ones [16; nth 1 (shape points) 0]))
       (fun _ points => Ok (ones [16; nth 1 (shape points) 0; 1]))
       (fun _ points => Ok (zeros [16; nth 1 (shape points) 0; 1; 1]))).

Definition sixteen_dof_map : ndarray Z :=
  mk_ndarray [16; 1] (fun idx => (Z.of_nat (hd 0%nat idx) + 1)%Z).

Definition sixteen_space : @FESpace.t binary64 :=
  FESpace.mk_space interval_mesh sixteen_element interval_quad_rule
    (fun d => match d with
              | 1 => Ok sixteen_dof_map
              | _ => Raise (IndexError "list index out of range"%string)
              end).

Definition sixteen_dofs : ndarray float :=
  of_list 0%float (1%float :: repeat 0x1p-53%float 15).

(** *** The unit square, meshed by the triangles (1, 2, 3) and (2, 3, 4) *)

Definition square_nodes : ndarray float :=
  of_rows 0%float [[0; 0]; [1; 0]; [0; 1]; [1; 1]]%float.

Definition square_edges : ndarray Z :=
  of_rows 0%Z [[1; 2]; [1; 3]; [2; 3]; [2; 4]; [3; 4]]%Z.

Definition square_mesh : @Mesh.t binary64 :=
  Mesh.mk_mesh 2
    (Mesh.mk_geometry (F := binary64) square_nodes)
    (Mesh.mk_topology
       (fun d => if (d =? 1)%Z then Ok square_edges
                 else if (d =? 2)%Z then Ok (of_rows 0%Z [[1; 2; 3]; [2; 3; 4]]%Z)
                 else Raise (IndexError "list index out of range"%string))
       (fun d => if (d =? 1)%Z
                 then Ok (of_list false [true; true; false; true; true])
                 else Raise (IndexError "list index out of range"%string))
       (fun d => if (d =? 1)%Z then Ok 5
                 else if (d =? 2)%Z then Ok 2
                 else Raise (IndexError "list index out of range"%string)))
    interval_ref_map.

Definition on_left_or_right (x : float) : bool :=
  PrimFloat.eqb x 0%float || PrimFloat.eqb x 1%float.

(** [lambda x: np.logical_or(x[0] == 0., x[0] == 1.)], which accepts the
    centroids all at once as well as one by one. *)
Definition left_or_right : @Mesh.predicate binary64 :=
  fun x =>
    match shape x with
    | [_] => Ok (scalar (on_left_or_right (item x [0])))
    | _ :: sh => Ok (mk_ndarray sh (fun idx => on_left_or_right (item x (0 :: idx))))
    | [] => Raise (IndexError "too many indices for array"%string)
    end.

(** The same part of the boundary, by a predicate that only accepts one
    point at a time. *)
Definition left_or_right_pointwise : @Mesh.predicate binary64 :=
  fun x =>
    match shape x with
    | [_] => Ok (scalar (on_left_or_right (item x [0])))
    | _ => Raise (ValueError "The truth value of an array with more than one element is ambiguous"%string)
    end.

(** One point of dimension zero: the trace of the interval on a vertex. *)
Definition vertex_point : ndarray float := mk_ndarray [0; 1] (fun _ => 0%float).

(** The degrees of freedom 1 at the first node and 3 at the second. *)
Definition dofs_1_3 : ndarray float := of_list 0%float [1; 3]%float.

(** What an outcome prints as: the shape and the entries of the array
    returned, or the exception raised. *)
Definition show {A E : Type} (r : result (ndarray A) * list E)
  : result (list nat * list A) :=
  a <- fst r ;; Ok (shape a, tolist a).

(** The coordinates 0 and 1 given as a flat list, not as a table. *)
Definition flat_nodes : ndarray float := of_list 0%float [0; 1]%float.

(** A predicate that answers for three facets, whatever it is given. *)
Definition three_answers : @Mesh.predicate binary64 :=
  fun _ => Ok (of_list false [true; false; true]).

(** [lambda x: True] *)
Definition everywhere : @Mesh.predicate binary64 :=
  fun _ => Ok (scalar true).

(** A predicate that answers with a table of one row. *)
Definition answers_in_a_row : @Mesh.predicate binary64 :=
  fun x => Ok (full [1; nth 1 (shape x) 0] true).

(** Two points of the reference interval. *)
Definition two_points : ndarray float := of_rows 0%float [[0.5; 0.25]]%float.

(** The boundary mask of the unit square and the centroids of its four
    boundary edges, as [Mesh.boundary] computes them. *)
Definition square_boundary_mask : ndarray bool :=
  of_list false [true; true; false; true; true].

Definition square_centroids : ndarray float :=
  match Mesh.boundary_centroids square_mesh square_boundary_mask with
  | Ok c => c
  | Raise _ => full [] 0%float
  end.

End Data.

(** * Theorems *)

Import Element.

(** ** Facts about arrays *)

Section ArrayFacts.
Context {A : Type}.

Lemma norm_index_of_nat (i n : nat) :
  i < n -> norm_index (Z.of_nat i) n = Some i.
Proof.
  intros H. unfold norm_index.
  destruct (Z.ltb_spec (Z.of_nat i) 0); [lia|].
  destruct (Z.leb_spec 0 (Z.of_nat i)); [|lia].
  destruct (Z.ltb_spec (Z.of_nat i) (Z.of_nat n)); [|lia].
  cbn. now rewrite Nat2Z.id.
Qed.

Lemma norm_index_succ (i n : nat) :
  i + 1 < n -> norm_index (Z.of_nat i + 1) n = Some (i + 1).
Proof.
  intros H. replace (Z.of_nat i + 1)%Z with (Z.of_nat (i + 1)) by lia.
  now apply norm_index_of_nat.
Qed.

Lemma norm_index_some (i : Z) (n k : nat) :
  norm_index i n = Some k -> k < n.
Proof.
  unfold norm_index.
  destruct (Z.ltb_spec i 0);
    match goal with |- context [(?a && ?b)%bool] =>
      destruct a eqn:Ea; destruct b eqn:Eb end; cbn; try discriminate;
    intros [= <-]; lia.
Qed.

Lemma pad_same (s : list nat) : pad (length s) s = s.
Proof. unfold pad. now rewrite Nat.sub_diag. Qed.

Lemma can_broadcast_refl (s : list nat) : can_broadcast s s = true.
Proof.
  unfold can_broadcast. rewrite Nat.sub_diag. cbn. rewrite pad_same.
  induction s as [|n s IH]; cbn; [reflexivity|].
  now rewrite Nat.eqb_refl, IH.
Qed.

Lemma can_broadcast_scalar (s : list nat) : can_broadcast [] s = true.
Proof.
  unfold can_broadcast, pad. cbn. rewrite Nat.sub_0_r, app_nil_r.
  induction s as [|n s IH]; cbn; [reflexivity|].
  rewrite IH. now rewrite orb_true_r.
Qed.

Lemma clamp_lt (n i : nat) : i < n -> (if n =? 1 then 0 else i) = i.
Proof. intros H. destruct (Nat.eqb_spec n 1); lia. Qed.

Lemma clamp_in_bounds (s idx : list nat) :
  in_bounds s idx = true -> clamp s idx = idx.
Proof.
  revert idx. induction s as [|n s IH]; intros [|i idx]; cbn; try easy.
  intros H. apply andb_prop in H as [Hi Hr]. apply Nat.ltb_lt in Hi.
  rewrite (IH _ Hr). destruct (Nat.eqb_spec n 1); [|reflexivity].
  f_equal. lia.
Qed.

Lemma in_bounds_length (s idx : list nat) :
  in_bounds s idx = true -> length idx = length s.
Proof.
  revert idx. induction s as [|n s IH]; intros [|i idx]; cbn; try easy.
  intros H. apply andb_prop in H as [_ Hr]. now rewrite (IH _ Hr).
Qed.

Lemma bidx_in_bounds (s idx : list nat) :
  in_bounds s idx = true -> bidx s idx = idx.
Proof.
  intros H. unfold bidx. rewrite (in_bounds_length _ _ H), Nat.sub_diag.
  cbn. now apply clamp_in_bounds.
Qed.

Lemma vidx_same (s idx : list nat) :
  in_bounds s idx = true -> vidx s idx = idx.
Proof.
  intros H. unfold vidx. rewrite (in_bounds_length _ _ H), Nat.sub_diag.
  cbn. now apply bidx_in_bounds.
Qed.

Lemma setitem_ok (spec : list index) (a v : ndarray A) (rs : list nat) :
  index_shape spec (shape a) = Ok rs ->
  can_broadcast (shape v) rs = true ->
  setitem spec a v
  = Ok (mk_ndarray (shape a)
          (fun idx =>
             match index_target spec (shape a) idx with
             | Some r => item v (vidx (shape v) r)
             | None => item a idx
             end)).
Proof. intros Hs Hb. unfold setitem. rewrite Hs. cbn. now rewrite Hb. Qed.

Lemma getitem_ok (spec : list index) (a : ndarray A) (rs : list nat) :
  index_shape spec (shape a) = Ok rs ->
  getitem spec a
  = Ok (mk_ndarray rs (fun idx => item a (index_source spec (shape a) idx))).
Proof. intros Hs. unfold getitem. now rewrite Hs. Qed.

End ArrayFacts.

(** Where a reduction does not run pairwise, it is the left-to-right sum:
    along an axis that is not the innermost one, and for fewer than 8
    entries. *)
Lemma add_reduce_short {F : Scalar} (c : bool) (xs : list sc) :
  length xs < 8 -> add_reduce c xs = total xs.
Proof.
  intros H. unfold add_reduce.
  destruct (Nat.leb_spec 8 (length xs)); [lia|].
  now rewrite andb_false_r.
Qed.

Lemma add_reduce_along {F : Scalar} {B} (c : bool) (f : B -> sc) (l : list B) :
  (c = true -> length l < 8) ->
  add_reduce c (List.map f l) = total (List.map f l).
Proof.
  intros H. destruct c; [|reflexivity].
  apply add_reduce_short. rewrite length_map. now apply H.
Qed.

(** A contraction of the code reduces an axis whose length is the length
    of the axis after it: where it is the innermost one, it has a single
    entry. *)
Lemma add_reduce_contraction {F : Scalar} (n : nat) (rest : bool)
  (f : nat -> sc) :
  add_reduce ((1 =? n) && rest) (List.map f (seq 0 n))
  = total (List.map f (seq 0 n)).
Proof.
  apply add_reduce_along. rewrite length_seq. intros H.
  apply andb_prop in H as [H _]. apply Nat.eqb_eq in H. lia.
Qed.

(** ** The P1 element *)

Section P1Facts.
Context {F : Scalar}.

Lemma P1_n_basis (dimension : Z) (nD : nat) :
  (0 <= dimension <= 3)%Z -> (Z.of_nat nD <= dimension)%Z ->
  tuple_get (n_basis (self (P1.__init__ dimension))) nD = Ok (nD + 1).
Proof.
  intros Hd Hn.
  assert (Hc : dimension = 0%Z \/ dimension = 1%Z \/ dimension = 2%Z
               \/ dimension = 3%Z) by lia.
  destruct Hc as [-> | [-> | [-> | ->]]];
    destruct nD as [|[|[|[|nD]]]]; try lia; reflexivity.
Qed.

Variable points : ndarray sc.
Variables nD nP nB : nat.
Hypothesis Hpoints : shape points = [nD; nP].

Lemma d0_body_spec (i : nat) (basis : ndarray sc) :
  shape basis = [nB; nP] -> i < nD -> i + 1 < nB ->
  exists basis',
    P1.d0_body points i basis = Ok basis' /\ shape basis' = [nB; nP] /\
    forall r p, p < nP ->
      item basis' [r; p]
      = if r =? i + 1 then item points [i; p] else item basis [r; p].
Proof.
  intros Hb Hi Hi1. unfold P1.d0_body.
  erewrite getitem_ok; cycle 1.
  { rewrite Hpoints. cbn. now rewrite norm_index_of_nat. }
  cbn. erewrite setitem_ok; cycle 1.
  { rewrite Hb. cbn. rewrite norm_index_succ by assumption. reflexivity. }
  { apply can_broadcast_refl. }
  eexists. split; [reflexivity|]. split; [assumption|].
  intros r p Hp. cbn. rewrite Hb, Hpoints. cbn.
  rewrite norm_index_succ by assumption.
  rewrite norm_index_of_nat by assumption.
  destruct (r =? i + 1); [|reflexivity].
  cbn. now rewrite clamp_lt.
Qed.

Lemma d0_loop_spec (k : nat) : forall (s : nat) (basis : ndarray sc),
  shape basis = [nB; nP] -> s + k <= nD -> s + k < nB ->
  exists basis',
    for_each (seq s k) (P1.d0_body points) basis = Ok basis' /\
    shape basis' = [nB; nP] /\
    forall r p, p < nP ->
      item basis' [r; p]
      = if (s <? r) && (r <=? s + k) then item points [r - 1; p]
        else item basis [r; p].
Proof.
  induction k as [|k IH]; intros s basis Hb Hk Hk'.
  - exists basis. split; [reflexivity|]. split; [assumption|].
    intros r p _.
    destruct (Nat.ltb_spec s r), (Nat.leb_spec r (s + 0)); cbn; try reflexivity.
    lia.
  - cbn [seq for_each].
    destruct (@d0_body_spec s basis Hb) as (b1 & E1 & Hb1 & I1); [lia|lia|].
    rewrite E1. cbn [rbind].
    destruct (IH (S s) b1 Hb1) as (b2 & E2 & Hb2 & I2); [lia|lia|].
    exists b2. split; [assumption|]. split; [assumption|].
    intros r p Hp. rewrite (I2 r p Hp), (I1 r p Hp).
    destruct (Nat.ltb_spec (S s) r), (Nat.leb_spec r (S s + k)),
      (Nat.ltb_spec s r), (Nat.leb_spec r (s + S k)),
      (Nat.eqb_spec r (s + 1)); cbn; try lia; try reflexivity.
    subst r. f_equal. f_equal. lia.
Qed.

End P1Facts.

(** The outcome of [_eval_d0basis] through [eval_basis], row by row. *)
Lemma P1_d0_entries
  (F : Scalar) (dimension : Z) (points : ndarray sc) (nD nP : nat) :
  (0 <= dimension <= 3)%Z ->
  shape points = [nD; nP] ->
  (Z.of_nat nD <= dimension)%Z ->
  exists basis,
    eval_basis (P1.__init__ dimension) points 0 = Ok basis /\
    shape basis = [nD + 1; nP] /\
    forall r p, p < nP ->
      item basis [r; p]
      = if (0 <? r) && (r <=? nD) then item points [r - 1; p]
        else if r =? 0
             then sub one (total (List.map (fun i => item points [i; p])
                                           (seq 0 nD)))
             else zero.
Proof.
  intros Hd Hs Hle.
  pose proof (@P1_n_basis F dimension nD Hd Hle) as HnB.
  unfold eval_basis. cbn [Z.eqb cls self P1.__init__ P1.methods_P1 _eval_d0basis].
  unfold P1._eval_d0basis, P1.unpack_shape2. rewrite Hs. cbn [rbind].
  change (Element.n_basis _) with (n_basis (self (P1.__init__ dimension))).
  rewrite HnB. cbn [rbind].
  unfold sum, ndim, norm_axis. rewrite Hs. cbn [length].
  change (norm_index 0 2) with (Some 0). cbn [rbind remove_at nth].
  erewrite setitem_ok; cycle 1.
  { cbn. rewrite (norm_index_of_nat (i := 0)) by lia. reflexivity. }
  { apply can_broadcast_refl. }
  cbn [rbind].
  match goal with |- context [for_each _ _ ?b] => set (b0 := b) end.
  destruct (@d0_loop_spec F points nD nP (nD + 1) Hs nD 0 b0)
    as (b' & E & Hb' & I); [reflexivity|lia|lia|].
  exists b'. split; [exact E|]. split; [exact Hb'|].
  intros r p Hp. rewrite (I r p Hp). cbn [Nat.add].
  destruct ((0 <? r) && (r <=? nD)); [reflexivity|].
  subst b0. cbn. rewrite (norm_index_of_nat (i := 0)) by lia.
  destruct (r =? 0); [|reflexivity].
  cbn. rewrite clamp_lt by assumption.
  rewrite add_reduce_short; [reflexivity|].
  rewrite length_map, length_seq. lia.
Qed.

(** C5. For the P1 element and points of coordinate dimension [nD] with
    0 < nD <= dimension, [eval_basis(points, 0)] has [n_basis[nD] = nD + 1]
    rows and [nP] columns; at each point row 0 is one minus the sum of the
    coordinates and row i+1 is the i-th coordinate. The element's
    dimension ranges over 0..3, as the specification has it. *)
Theorem P1_eval_basis_values
  (F : Scalar) (dimension : Z) (points : ndarray sc) (nD nP : nat) :
  (0 <= dimension <= 3)%Z ->
  shape points = [nD; nP] ->
  0 < nD -> (Z.of_nat nD <= dimension)%Z ->
  exists basis,
    eval_basis (P1.__init__ dimension) points 0 = Ok basis /\
    tuple_get (n_basis (self (P1.__init__ dimension))) nD = Ok (nD + 1) /\
    shape basis = [nD + 1; nP] /\
    forall p, p < nP ->
      item basis [0; p]
      = sub one (total (List.map (fun i => item points [i; p]) (seq 0 nD))) /\
      forall i, i < nD -> item basis [i + 1; p] = item points [i; p].
Proof.
  intros Hd Hs Hpos Hle.
  destruct (@P1_d0_entries F dimension points nD nP Hd Hs Hle)
    as (basis & E & Hb & I).
  exists basis. split; [exact E|].
  split; [now apply P1_n_basis|]. split; [exact Hb|].
  intros p Hp. split.
  - now rewrite (I 0 p Hp).
  - intros i Hi. rewrite (I (i + 1) p Hp).
    destruct (Nat.ltb_spec 0 (i + 1)); [|lia].
    destruct (Nat.leb_spec (i + 1) nD); [|lia].
    cbn [andb]. now rewrite Nat.add_sub.
Qed.

Section P1Gradients.
Context {F : Scalar}.
Variables nD nP nB : nat.

Lemma d1_body_spec (i : nat) (basis : ndarray sc) :
  shape basis = [nB; nP; nD] -> i < nD -> i + 1 < nB ->
  exists basis',
    P1.d1_body i basis = Ok basis' /\ shape basis' = [nB; nP; nD] /\
    forall r p j,
      item basis' [r; p; j]
      = if (r =? i + 1) && (j =? i) then one else item basis [r; p; j].
Proof.
  intros Hb Hi Hi1. unfold P1.d1_body.
  erewrite setitem_ok; cycle 1.
  { rewrite Hb. cbn. rewrite norm_index_succ by assumption. cbn.
    rewrite norm_index_of_nat by assumption. reflexivity. }
  { apply can_broadcast_scalar. }
  eexists. split; [reflexivity|]. split; [assumption|].
  intros r p j. cbn. rewrite Hb. cbn.
  rewrite norm_index_succ by assumption.
  rewrite norm_index_of_nat by assumption.
  destruct (r =? i + 1); [|reflexivity]. cbn.
  destruct (j =? i); reflexivity.
Qed.

Lemma d1_loop_spec (k : nat) : forall (s : nat) (basis : ndarray sc),
  shape basis = [nB; nP; nD] -> s + k <= nD -> s + k < nB ->
  exists basis',
    for_each (seq s k) P1.d1_body basis = Ok basis' /\
    shape basis' = [nB; nP; nD] /\
    forall r p j,
      item basis' [r; p; j]
      = if (s <? r) && (r <=? s + k) && (j =? r - 1) then one
        else item basis [r; p; j].
Proof.
  induction k as [|k IH]; intros s basis Hb Hk Hk'.
  - exists basis. split; [reflexivity|]. split; [assumption|].
    intros r p j.
    destruct (Nat.ltb_spec s r), (Nat.leb_spec r (s + 0)); cbn; try reflexivity.
    lia.
  - cbn [seq for_each].
    destruct (@d1_body_spec s basis Hb) as (b1 & E1 & Hb1 & I1); [lia|lia|].
    rewrite E1. cbn [rbind].
    destruct (IH (S s) b1 Hb1) as (b2 & E2 & Hb2 & I2); [lia|lia|].
    exists b2. split; [assumption|]. split; [assumption|].
    intros r p j. rewrite (I2 r p j), (I1 r p j).
    destruct (Nat.ltb_spec (S s) r), (Nat.leb_spec r (S s + k)),
      (Nat.ltb_spec s r), (Nat.leb_spec r (s + S k)),
      (Nat.eqb_spec r (s + 1)), (Nat.eqb_spec j (r - 1)),
      (Nat.eqb_spec j s); cbn; try lia; try reflexivity.
Qed.

End P1Gradients.

Lemma P1_d1_entries
  (F : Scalar) (dimension : Z) (points : ndarray sc) (nD nP : nat) :
  (0 <= dimension <= 3)%Z ->
  shape points = [nD; nP] ->
  (Z.of_nat nD <= dimension)%Z ->
  exists basis,
    eval_basis (P1.__init__ dimension) points 1 = Ok basis /\
    shape basis = [nD + 1; nP; nD] /\
    (forall p j, item basis [0; p; j] = opp one) /\
    (forall i p j, i < nD ->
       item basis [i + 1; p; j] = if j =? i then one else zero).
Proof.
  intros Hd Hs Hle.
  pose proof (@P1_n_basis F dimension nD Hd Hle) as HnB.
  unfold eval_basis. cbn [Z.eqb cls self P1.__init__ P1.methods_P1 _eval_d1basis].
  unfold P1._eval_d1basis, P1.unpack_shape2. rewrite Hs. cbn [rbind].
  change (Element.n_basis _) with (n_basis (self (P1.__init__ dimension))).
  rewrite HnB. cbn [rbind].
  erewrite setitem_ok; cycle 1.
  { cbn. rewrite (norm_index_of_nat (i := 0)) by lia. reflexivity. }
  { apply can_broadcast_scalar. }
  cbn [rbind].
  match goal with |- context [for_each _ _ ?b] => set (b0 := b) end.
  destruct (@d1_loop_spec F nD nP (nD + 1) nD 0 b0)
    as (b' & E & Hb' & I); [reflexivity|lia|lia|].
  exists b'. split; [exact E|]. split; [exact Hb'|]. split.
  - intros p j. rewrite (I 0 p j). cbn.
    rewrite (norm_index_of_nat (i := 0)) by lia. reflexivity.
  - intros i p j Hi. rewrite (I (i + 1) p j).
    destruct (Nat.ltb_spec 0 (i + 1)); [|lia].
    destruct (Nat.leb_spec (i + 1) (0 + nD)); [|lia].
    rewrite Nat.add_sub. cbn [andb].
    destruct (j =? i); [reflexivity|].
    cbn. rewrite (norm_index_of_nat (i := 0)) by lia.
    destruct (Nat.eqb_spec (i + 1) 0); [lia|reflexivity].
Qed.

Lemma sum_axis0_ok {F : Scalar} (a : ndarray sc) (n : nat) (sh : list nat) :
  shape a = n :: sh ->
  sum 0 a = Ok (mk_ndarray sh
                  (fun idx =>
                     add_reduce (innermost 0 (n :: sh))
                       (List.map (fun i => item a (i :: idx)) (seq 0 n)))).
Proof.
  intros Ha. unfold sum, ndim, norm_axis. rewrite Ha.
  cbn [length]. rewrite (norm_index_of_nat (i := 0)) by lia. reflexivity.
Qed.

(** C7. In every dimension 1, 2, 3 and at every point, the first
    derivatives of the P1 basis are the constant vector of -1 for basis 0
    and the i-th unit vector for basis i+1; summed over the basis functions
    they give the zero vector. *)
Theorem P1_gradients
  (F : Scalar) (dimension : Z) (points : ndarray sc) (nD nP : nat) :
  signed_unit_laws F ->
  (1 <= dimension <= 3)%Z ->
  shape points = [nD; nP] ->
  0 < nD -> (Z.of_nat nD <= dimension)%Z ->
  exists basis,
    eval_basis (P1.__init__ dimension) points 1 = Ok basis /\
    shape basis = [nD + 1; nP; nD] /\
    (forall p j, p < nP -> j < nD -> item basis [0; p; j] = opp one) /\
    (forall i p j, i < nD -> p < nP -> j < nD ->
       item basis [i + 1; p; j] = if j =? i then one else zero) /\
    exists g,
      sum 0 basis = Ok g /\ shape g = [nP; nD] /\
      forall p j, p < nP -> j < nD -> item g [p; j] = zero.
Proof.
  intros [L1 L2 L3 L4] Hd Hs Hpos Hle.
  destruct (@P1_d1_entries F dimension points nD nP) as (basis & E & Hb & H0 & Hi);
    [lia|assumption|assumption|].
  exists basis. split; [exact E|]. split; [exact Hb|].
  split; [intros; apply H0|]. split; [intros; now apply Hi|].
  rewrite (sum_axis0_ok _ Hb). eexists. split; [reflexivity|].
  split; [reflexivity|].
  intros p j Hp Hj. cbn [item].
  rewrite add_reduce_short by (rewrite length_map, length_seq; lia).
  unfold total.
  assert (HnD : nD = 1 \/ nD = 2 \/ nD = 3) by lia.
  assert (Hi' : forall i, i < nD ->
            item basis [S i; p; j] = if j =? i then one else zero).
  { intros i Hlt. rewrite <- (Hi i p j Hlt). now rewrite Nat.add_1_r. }
  destruct HnD as [-> | [-> | ->]]; cbn [seq List.map fold_left Nat.add];
    rewrite (H0 p j).
  - assert (j = 0) as -> by lia.
    rewrite (Hi' 0) by lia. cbn. now rewrite L1, L2.
  - rewrite (Hi' 0), (Hi' 1) by lia.
    destruct j as [|[|j]]; [| |lia]; cbn; now rewrite L1, ?L2, ?L3, ?L2, ?L4.
  - rewrite (Hi' 0), (Hi' 1), (Hi' 2) by lia.
    destruct j as [|[|[|j]]]; [| | |lia]; cbn;
      now rewrite L1, ?L2, ?L3, ?L3, ?L2, ?L4, ?L4.
Qed.

Lemma binary64_signed_unit_laws : signed_unit_laws binary64.
Proof. split; reflexivity. Qed.

(** ** Partition of unity, up to rounding *)

(** *** The rounding of binary64 addition and subtraction

    From the specification of the IEEE 754 operations in the standard
    library: the sum or difference of two finite numbers, when below 2
    in magnitude, is rounded by at most 2^-53. Mantissas are counted in
    units of 2^-1074. *)

Section Binary64Rounding.
Local Open Scope Z_scope.

(** Digits *)
Lemma digits2_pos_bounds (m : positive) :
  2 ^ (Z.pos (digits2_pos m) - 1) <= Z.pos m < 2 ^ Z.pos (digits2_pos m).
Proof.
  induction m as [m IH|m IH|]; cbn [digits2_pos].
  - rewrite Pos2Z.inj_succ. replace (Z.succ (Z.pos (digits2_pos m)) - 1)
      with (Z.succ (Z.pos (digits2_pos m) - 1)) by lia.
    rewrite !Z.pow_succ_r by lia. lia.
  - rewrite Pos2Z.inj_succ. replace (Z.succ (Z.pos (digits2_pos m)) - 1)
      with (Z.succ (Z.pos (digits2_pos m) - 1)) by lia.
    rewrite !Z.pow_succ_r by lia. lia.
  - cbn. lia.
Qed.

(** [d] is the number of binary digits of [m] as soon as [m] lies between
    2^(d-1) and 2^d. *)
Lemma digits2_pos_unique (m : positive) (d : Z) :
  2 ^ (d - 1) <= Z.pos m < 2 ^ d -> Z.pos (digits2_pos m) = d.
Proof.
  intros [H1 H2]. pose proof (digits2_pos_bounds m) as [B1 B2].
  assert (0 < d).
  { destruct (Z.ltb_spec 0 d); [assumption|].
    rewrite (Z.pow_neg_r 2 (d - 1)) in H1 by lia.
    destruct (Z.eqb_spec d 0) as [->|]; [cbn in H2; lia|].
    rewrite Z.pow_neg_r in H2 by lia. lia. }
  destruct (Z.lt_trichotomy (Z.pos (digits2_pos m)) d) as [L|[E|G]];
    [|assumption|].
  - assert (2 ^ Z.pos (digits2_pos m) <= 2 ^ (d - 1))
      by (apply Z.pow_le_mono_r; lia). lia.
  - assert (2 ^ d <= 2 ^ (Z.pos (digits2_pos m) - 1))
      by (apply Z.pow_le_mono_r; lia). lia.
Qed.

(** iter_pos as iteration over nat *)
Lemma iter_twice {A} (f : A -> A) (n : nat) (x : A) :
  Nat.iter n f (Nat.iter n f x) = Nat.iter (2 * n) f x.
Proof.
  replace (2 * n)%nat with (n + n)%nat by lia.
  generalize n at 1 3 as k. intros k.
  induction k as [|k IH]; [reflexivity|].
  cbn [Nat.add]. rewrite !Nat.iter_succ. now rewrite IH.
Qed.

Lemma iter_shift {A} (f : A -> A) (n : nat) (x : A) :
  Nat.iter n f (f x) = f (Nat.iter n f x).
Proof. induction n as [|n IH]; [reflexivity|]. rewrite !Nat.iter_succ. now rewrite IH. Qed.

Lemma iter_pos_nat {A} (f : A -> A) (p : positive) : forall x,
  @SpecFloat.iter_pos A f p x = Nat.iter (Pos.to_nat p) f x.
Proof.
  induction p as [p IH|p IH|]; intros x; cbn [SpecFloat.iter_pos].
  - rewrite !IH, iter_twice, iter_shift, Pos2Nat.inj_xI.
    now rewrite Nat.iter_succ.
  - rewrite !IH, iter_twice, Pos2Nat.inj_xO. reflexivity.
  - reflexivity.
Qed.

Lemma shr_1_spec (mrs : shr_record) :
  0 <= shr_m mrs ->
  shr_1 mrs = {| shr_m := shr_m mrs / 2;
                 shr_r := Z.odd (shr_m mrs);
                 shr_s := shr_r mrs || shr_s mrs |}.
Proof.
  destruct mrs as [m r s]. cbn [shr_m shr_r shr_s shr_1]. intros Hm.
  destruct m as [|[p|p|]|p]; try lia; try reflexivity.
  - f_equal. rewrite Pos2Z.inj_xI.
    apply Z.div_unique with (r := 1); lia.
  - f_equal. rewrite Pos2Z.inj_xO.
    apply Z.div_unique with (r := 0); lia.
Qed.

Lemma shifted_step (m : Z) (k : nat) (mrs : shr_record) :
  0 <= m -> shifted m k mrs -> shifted m (S k) (shr_1 mrs).
Proof.
  intros Hm [Hq Hloc].
  assert (Hp : 0 < 2 ^ Z.of_nat k) by (apply Z.pow_pos_nonneg; lia).
  assert (Hq0 : 0 <= shr_m mrs).
  { rewrite Hq. apply Z.div_pos; lia. }
  rewrite (shr_1_spec _ Hq0). unfold shifted. cbn [shr_m shr_r shr_s].
  rewrite Nat2Z.inj_succ, Z.pow_succ_r by lia.
  pose proof (Z.div_mod m (2 ^ Z.of_nat k) ltac:(lia)) as Hdm.
  pose proof (Z.mod_pos_bound m (2 ^ Z.of_nat k) Hp) as Hrem.
  set (P := 2 ^ Z.of_nat k) in *.
  set (q := m / P) in *. set (rem := m mod P) in *.
  rewrite Hq.
  pose proof (Z.div_mod q 2 ltac:(lia)) as Hq2.
  pose proof (Z.mod_pos_bound q 2 ltac:(lia)) as Hb.
  assert (Hodd : Z.odd q = negb (q mod 2 =? 0)).
  { rewrite Zmod_odd. destruct (Z.odd q); reflexivity. }
  set (h := q / 2) in *. set (b := q mod 2) in *.
  assert (Em : m = 2 * P * h + (b * P + rem)).
  { rewrite Hdm at 1. rewrite Hq2 at 1. ring. }
  assert (Hb01 : b = 0 \/ b = 1) by lia.
  assert (Hr' : 0 <= b * P + rem < 2 * P).
  { clearbody b P rem. destruct Hb01 as [-> | ->]; lia. }
  assert (Hdiv : m / (2 * P) = h).
  { symmetry. apply Z.div_unique with (r := b * P + rem);
      [left; exact Hr'|exact Em]. }
  assert (Hmod : m mod (2 * P) = b * P + rem).
  { symmetry. apply Z.mod_unique with (q := h);
      [left; exact Hr'|exact Em]. }
  split; [now rewrite Hdiv|]. cbv zeta in *. rewrite Hmod, Hodd.
  clearbody b h rem q P.
  destruct Hb01 as [Eb | Eb]; rewrite Eb; cbn [Z.eqb negb];
    destruct (shr_r mrs), (shr_s mrs); cbn [orb]; lia.
Qed.

Lemma shifted_iter (m : Z) (k : nat) :
  0 <= m ->
  shifted m k (Nat.iter k shr_1 {| shr_m := m; shr_r := false; shr_s := false |}).
Proof.
  intros Hm. induction k as [|k IH].
  - cbn. unfold shifted. cbn. rewrite Z.div_1_r, Z.mod_1_r. now split.
  - rewrite Nat.iter_succ. now apply shifted_step.
Qed.

(** Rounding the shifted mantissa to nearest, ties to even, is off by at
    most half of 2^k. *)
Lemma round_shifted (m : Z) (k : nat) (mrs : shr_record) :
  0 <= m -> shifted m k mrs ->
  let m1 := round_nearest_even (shr_m mrs) (loc_of_shr_record mrs) in
  m / 2 ^ Z.of_nat k <= m1 <= m / 2 ^ Z.of_nat k + 1 /\
  2 * Z.abs (m1 * 2 ^ Z.of_nat k - m) <= 2 ^ Z.of_nat k /\
  m1 * 2 ^ Z.of_nat k <= m + 2 ^ Z.of_nat k - 1 + (if (k =? 0)%nat then 1 else 0).
Proof.
  intros Hm [Hq Hloc]. cbv zeta.
  assert (Hp : 0 < 2 ^ Z.of_nat k) by (apply Z.pow_pos_nonneg; lia).
  pose proof (Z.div_mod m (2 ^ Z.of_nat k) ltac:(lia)) as Hdm.
  pose proof (Z.mod_pos_bound m (2 ^ Z.of_nat k) Hp) as Hrem.
  set (P := 2 ^ Z.of_nat k) in *.
  destruct mrs as [q r s]. cbn [shr_m shr_r shr_s] in *. subst q.
  set (q := m / P) in *. set (rem := m mod P) in *.
  unfold loc_of_shr_record, round_nearest_even.
  destruct (Nat.eqb_spec k 0) as [Ek|Ek].
  - subst k. cbn in P. subst P.
    destruct r, s; try destruct (Z.even q); lia.
  - destruct r, s; try destruct (Z.even q); lia.
Qed.

Lemma fexp64 (z : Z) : fexp prec emax z = Z.max (z - 53) (-1074).
Proof. reflexivity. Qed.

Lemma iter_xO (d : positive) (m : positive) :
  Z.pos (Pos.iter xO m d) = Z.pos m * 2 ^ Z.pos d.
Proof.
  induction d as [|d IH] using Pos.peano_ind.
  - cbn [Pos.iter]. rewrite Pos2Z.inj_xO. lia.
  - rewrite Pos.iter_succ, Pos2Z.inj_xO, IH, Pos2Z.inj_succ,
      Z.pow_succ_r by lia. lia.
Qed.

Lemma shl_align_shift (m : positive) (e e' : Z) :
  e' < e ->
  exists mz, shl_align m e e' = (mz, e') /\
             Z.pos mz = Z.pos m * 2 ^ (e - e').
Proof.
  intros H. unfold shl_align.
  destruct (e' - e) as [|p|p] eqn:E; try lia.
  eexists. split; [reflexivity|]. rewrite iter_xO. f_equal. f_equal. lia.
Qed.

Lemma shl_align_keep (m : positive) (e e' : Z) :
  e <= e' -> shl_align m e e' = (m, e).
Proof.
  intros H. unfold shl_align.
  destruct (e' - e) as [|p|p] eqn:E; try lia; reflexivity.
Qed.

Lemma digits_shift (m mz : positive) (n : Z) :
  0 <= n -> Z.pos mz = Z.pos m * 2 ^ n ->
  Z.pos (digits2_pos mz) = Z.pos (digits2_pos m) + n.
Proof.
  intros Hn E. apply digits2_pos_unique.
  pose proof (digits2_pos_bounds m) as [B1 B2]. rewrite E.
  replace (Z.pos (digits2_pos m) + n - 1)
    with ((Z.pos (digits2_pos m) - 1) + n) by lia.
  rewrite !Z.pow_add_r by lia.
  assert (0 < 2 ^ n) by (apply Z.pow_pos_nonneg; lia).
  split; nia.
Qed.

(** A mantissa that is already in canonical position is kept. *)
Lemma binary_round_aux_keep (s : bool) (m : positive) (e : Z) :
  fexp prec emax (Z.pos (digits2_pos m) + e) = e ->
  e <= 971 ->
  binary_round_aux prec emax s (Z.pos m) e loc_Exact = S754_finite s m e.
Proof.
  intros Hf He. unfold binary_round_aux, shr_fexp.
  cbn [Zdigits2 shr_record_of_loc]. rewrite Hf, Z.sub_diag.
  cbn [shr shr_m loc_of_shr_record round_nearest_even Zdigits2
       shr_record_of_loc].
  rewrite Hf, Z.sub_diag. cbn [shr shr_m].
  destruct (Z.leb_spec e (emax - prec)) as [|L]; [reflexivity|].
  change (emax - prec) with 971 in L. lia.
Qed.

Lemma cond_Zopp_mul (s : bool) (a b : Z) :
  cond_Zopp s a * b = cond_Zopp s (a * b).
Proof. destruct s; cbn; lia. Qed.

Lemma cond_Zopp_abs_sub (s : bool) (a b : Z) :
  Z.abs (cond_Zopp s a - cond_Zopp s b) = Z.abs (a - b).
Proof. destruct s; cbn; lia. Qed.

Lemma binary_round_aux_shift (s : bool) (m : positive) (e : Z) :
  let E := fexp prec emax (Z.pos (digits2_pos m) + e) in
  -1074 <= e -> e < E -> E <= 970 ->
  let r := binary_round_aux prec emax s (Z.pos m) e loc_Exact in
  SFfinite r = true /\
  2 * Z.abs (SFscaled r - cond_Zopp s (Z.pos m * 2 ^ (e + 1074)))
  <= 2 ^ (E + 1074).
Proof.
  intros E He HE HE'.
  assert (HEdef : E = Z.max (Z.pos (digits2_pos m) + e - 53) (-1074))
    by reflexivity.
  clearbody E.
  pose proof (digits2_pos_bounds m) as [Bd1 Bd2].
  set (d := Z.pos (digits2_pos m)) in *.
  unfold binary_round_aux, shr_fexp. cbn [Zdigits2 shr_record_of_loc].
  fold d. rewrite fexp64, <- HEdef.
  destruct (E - e) as [|p|p] eqn:En; try lia.
  cbn [shr]. rewrite iter_pos_nat.
  set (k := Pos.to_nat p).
  assert (Hk : Z.of_nat k = E - e) by (unfold k; lia).
  assert (Hm : 0 <= Z.pos m) by lia.
  pose proof (shifted_iter k Hm) as Hsh.
  pose proof (round_shifted Hm Hsh) as (Hq & Herr & _).
  set (mrs := Nat.iter k shr_1 _) in *.
  set (m1 := round_nearest_even (shr_m mrs) (loc_of_shr_record mrs)) in *.
  rewrite <- En.
  replace (e + (E - e)) with E by lia.
  assert (Hpk : 0 < 2 ^ Z.of_nat k) by (apply Z.pow_pos_nonneg; lia).
  assert (Hq53 : Z.pos m / 2 ^ Z.of_nat k < 2 ^ 53).
  { apply Z.div_lt_upper_bound; [assumption|].
    rewrite <- Z.pow_add_r by lia.
    assert (2 ^ d <= 2 ^ (Z.of_nat k + 53)); [|lia].
    apply Z.pow_le_mono_r; lia. }
  assert (Hq0 : 0 <= Z.pos m / 2 ^ Z.of_nat k) by (apply Z.div_pos; lia).
  assert (Hscale : 2 ^ (E + 1074) = 2 ^ Z.of_nat k * 2 ^ (e + 1074)).
  { rewrite <- Z.pow_add_r by lia. f_equal. lia. }
  assert (Hpe : 0 < 2 ^ (e + 1074)) by (apply Z.pow_pos_nonneg; lia).
  assert (Herr' : 2 * Z.abs (m1 * 2 ^ (E + 1074) - Z.pos m * 2 ^ (e + 1074))
                  <= 2 ^ (E + 1074)).
  { rewrite Hscale.
    replace (m1 * (2 ^ Z.of_nat k * 2 ^ (e + 1074)) - Z.pos m * 2 ^ (e + 1074))
      with ((m1 * 2 ^ Z.of_nat k - Z.pos m) * 2 ^ (e + 1074)) by ring.
    rewrite Z.abs_mul, (Z.abs_eq (2 ^ (e + 1074))) by lia.
    nia. }
  set (X := Z.pos m * 2 ^ (e + 1074)) in *. set (U := 2 ^ (E + 1074)) in *.
  clearbody m1. clear Hsh. clearbody mrs.
  destruct m1 as [|p1|p1]; try lia.
  - (* the mantissa rounds to zero *)
    cbn [Zdigits2 shr_record_of_loc]. rewrite fexp64.
    clearbody X U.
    destruct (Z.max (0 + E - 53) (-1074) - E) as [|p2|p2] eqn:En2; try lia;
      cbn [shr shr_m]; (split; [reflexivity|]);
      cbn [SFscaled]; destruct s; cbn [cond_Zopp]; lia.
  - cbn [Zdigits2 shr_record_of_loc]. rewrite fexp64.
    pose proof (digits2_pos_bounds p1) as [B1 B2].
    set (d1 := Z.pos (digits2_pos p1)) in *.
    assert (Hfin : forall mf ef, Z.pos mf * 2 ^ (ef + 1074)
                                   = Z.pos p1 * U ->
              2 * Z.abs (SFscaled (S754_finite s mf ef) - cond_Zopp s X)
              <= U).
    { intros mf ef Ev. cbn [SFscaled].
      rewrite cond_Zopp_mul, cond_Zopp_abs_sub, Ev. exact Herr'. }
    destruct (Z.eq_dec (Z.pos p1) (2 ^ 53)) as [E53|N53].
    + (* the mantissa rounds up to 2^53 *)
      assert (Hd1 : d1 = 54).
      { apply digits2_pos_unique. rewrite E53. cbn. lia. }
      rewrite Hd1.
      replace (Z.max (54 + E - 53) (-1074) - E) with 1 by lia.
      cbn [shr SpecFloat.iter_pos].
      rewrite shr_1_spec by (cbn; lia). cbn [shr_m].
      rewrite E53. change (2 ^ 53 / 2) with (Z.pos (2 ^ 52)).
      destruct (Z.leb_spec (E + 1) (emax - prec)) as [|L];
        [|change (emax - prec) with 971 in L; lia].
      split; [reflexivity|]. apply Hfin. unfold U.
      rewrite E53. replace (E + 1 + 1074) with (Z.succ (E + 1074)) by lia.
      rewrite Z.pow_succ_r by lia. change (Z.pos (2 ^ 52)) with (2 ^ 52).
      change (2 ^ 53) with (2 * 2 ^ 52). ring.
    + assert (Hlt : Z.pos p1 < 2 ^ 53) by lia.
      assert (Hd1 : d1 <= 53).
      { destruct (Z.leb_spec d1 53); [assumption|].
        assert (2 ^ 53 <= 2 ^ (d1 - 1)) by (apply Z.pow_le_mono_r; lia).
        lia. }
      destruct (Z.max (d1 + E - 53) (-1074) - E) as [|p2|p2] eqn:En2;
        try lia; cbn [shr shr_m];
        (destruct (Z.leb_spec E (emax - prec)) as [|L];
         [|change (emax - prec) with 971 in L; lia]);
        (split; [reflexivity|]); now apply Hfin.
Qed.

(** Rounding a number below 2 to binary64 is off by at most 2^-53: in
    units of 2^-1074, a number below 2^1075 by at most 2^1021. *)
Lemma binary_round_error (s : bool) (m : positive) (e : Z) :
  -1074 <= e ->
  Z.pos m * 2 ^ (e + 1074) < 2 ^ 1075 ->
  let r := binary_round prec emax s m e in
  SFfinite r = true /\
  Z.abs (SFscaled r - cond_Zopp s (Z.pos m * 2 ^ (e + 1074))) <= 2 ^ 1021.
Proof.
  intros He Hlt. cbv zeta.
  pose proof (digits2_pos_bounds m) as [Bd1 Bd2].
  set (d := Z.pos (digits2_pos m)) in *.
  assert (Hd : 1 <= d) by (unfold d; lia).
  assert (Hde : d + e <= 1).
  { destruct (Z.leb_spec (d + e) 1); [assumption|].
    assert (2 ^ 1075 <= 2 ^ (d - 1) * 2 ^ (e + 1074)).
    { rewrite <- Z.pow_add_r by lia. apply Z.pow_le_mono_r; lia. }
    assert (0 < 2 ^ (e + 1074)) by (apply Z.pow_pos_nonneg; lia).
    nia. }
  unfold binary_round. rewrite fexp64. fold d.
  set (E := Z.max (d + e - 53) (-1074)).
  assert (HE : E <= -52) by (unfold E; lia).
  assert (HEmin : -1074 <= E) by (unfold E; lia).
  destruct (Z.lt_trichotomy E e) as [L|[Q|G]].
  - destruct (@shl_align_shift m e E L) as (mz & -> & Emz).
    assert (Hdz : Z.pos (digits2_pos mz) = d + (e - E)).
    { apply digits_shift; [lia|exact Emz]. }
    rewrite binary_round_aux_keep; cycle 1.
    { rewrite fexp64, Hdz. unfold E. lia. }
    { lia. }
    split; [reflexivity|]. cbn [SFscaled].
    rewrite cond_Zopp_mul, cond_Zopp_abs_sub, Emz.
    replace (Z.pos m * 2 ^ (e - E) * 2 ^ (E + 1074))
      with (Z.pos m * 2 ^ (e + 1074)).
    + rewrite Z.sub_diag. cbn. lia.
    + rewrite <- Z.mul_assoc, <- Z.pow_add_r by lia. do 2 f_equal. lia.
  - rewrite shl_align_keep by lia.
    rewrite binary_round_aux_keep; cycle 1.
    { rewrite fexp64. fold d. fold E. exact Q. }
    { lia. }
    split; [reflexivity|]. cbn [SFscaled].
    rewrite cond_Zopp_mul, cond_Zopp_abs_sub, Z.sub_diag. cbn. lia.
  - rewrite shl_align_keep by lia.
    destruct (@binary_round_aux_shift s m e) as [Hf Herr].
    { exact He. }
    { rewrite fexp64. fold d. fold E. exact G. }
    { rewrite fexp64. fold d. fold E. lia. }
    split; [exact Hf|].
    rewrite fexp64 in Herr. fold d in Herr. fold E in Herr.
    assert (2 ^ (E + 1074) <= 2 ^ 1022) by (apply Z.pow_le_mono_r; lia).
    change (2 ^ 1022) with (2 * 2 ^ 1021) in *.
    set (U := 2 ^ 1021) in *. clearbody U.
    set (err := Z.abs _) in *. clearbody err. lia.
Qed.

Lemma binary_normalize_error (M e : Z) :
  -1074 <= e ->
  Z.abs M * 2 ^ (e + 1074) < 2 ^ 1075 ->
  let r := binary_normalize prec emax M e false in
  SFfinite r = true /\
  Z.abs (SFscaled r - M * 2 ^ (e + 1074)) <= 2 ^ 1021.
Proof.
  intros He Hlt. cbv zeta. destruct M as [|p|p]; cbn [binary_normalize].
  - split; [reflexivity|]. cbn. lia.
  - exact (@binary_round_error false p e He Hlt).
  - destruct (@binary_round_error true p e He Hlt) as [Hf Herr].
    split; [exact Hf|]. cbn [cond_Zopp] in Herr.
    now rewrite <- Z.mul_opp_l in Herr.
Qed.

Lemma valid_exponent (s : bool) (m : positive) (e : Z) :
  SpecFloat.valid_binary prec emax (S754_finite s m e) = true -> -1074 <= e.
Proof.
  cbn [SpecFloat.valid_binary]. unfold bounded, canonical_mantissa.
  intros H. apply andb_prop in H as [H _]. apply Z.eqb_eq in H.
  rewrite fexp64 in H. lia.
Qed.

Lemma aligned_mantissa (m : positive) (e ez : Z) :
  ez <= e ->
  Z.pos (fst (shl_align m e ez)) = Z.pos m * 2 ^ (e - ez).
Proof.
  intros H. destruct (Z.eq_dec ez e) as [->|N].
  - rewrite shl_align_keep by lia. cbn [fst]. rewrite Z.sub_diag. cbn. lia.
  - destruct (@shl_align_shift m e ez) as (mz & -> & E); [lia|].
    exact E.
Qed.

Lemma aligned_scaled (s : bool) (m : positive) (e ez : Z) :
  -1074 <= ez -> ez <= e ->
  cond_Zopp s (Z.pos (fst (shl_align m e ez))) * 2 ^ (ez + 1074)
  = SFscaled (S754_finite s m e).
Proof.
  intros H1 H2. rewrite aligned_mantissa by assumption. cbn [SFscaled].
  rewrite !cond_Zopp_mul. f_equal.
  rewrite <- Z.mul_assoc, <- Z.pow_add_r by lia. do 2 f_equal. lia.
Qed.

(** Adding two finite numbers whose sum is below 2 in magnitude gives a
    finite number, off the sum by at most 2^-53. *)
Lemma SFadd_error (x y : spec_float) :
  SpecFloat.valid_binary prec emax x = true -> SpecFloat.valid_binary prec emax y = true ->
  SFfinite x = true -> SFfinite y = true ->
  Z.abs (SFscaled x + SFscaled y) < 2 ^ 1075 ->
  SFfinite (SFadd prec emax x y) = true /\
  Z.abs (SFscaled (SFadd prec emax x y) - (SFscaled x + SFscaled y))
  <= 2 ^ 1021.
Proof.
  intros Vx Vy Fx Fy Hlt.
  destruct x as [sx|sx| |sx mx ex]; try discriminate;
    destruct y as [sy|sy| |sy my ey]; try discriminate.
  - cbn [SFadd]. destruct sx, sy; cbn; split; try reflexivity; lia.
  - cbn [SFadd]. split; [reflexivity|].
    cbn [SFscaled Z.add]. rewrite Z.sub_diag. cbn. lia.
  - cbn [SFadd]. split; [reflexivity|].
    cbn [SFscaled]. rewrite Z.add_0_r, Z.sub_diag. cbn. lia.
  - pose proof (valid_exponent _ _ _ Vx) as Hex.
    pose proof (valid_exponent _ _ _ Vy) as Hey.
    cbn [SFadd]. set (ez := Z.min ex ey).
    assert (Hez : -1074 <= ez) by (unfold ez; lia).
    pose proof (@aligned_scaled sx mx ex ez Hez ltac:(unfold ez; lia)) as Ax.
    pose proof (@aligned_scaled sy my ey ez Hez ltac:(unfold ez; lia)) as Ay.
    set (M := cond_Zopp sx _ + cond_Zopp sy _).
    assert (EM : M * 2 ^ (ez + 1074)
                 = SFscaled (S754_finite sx mx ex)
                   + SFscaled (S754_finite sy my ey)).
    { unfold M. rewrite Z.mul_add_distr_r, Ax, Ay. reflexivity. }
    rewrite <- EM in *.
    apply binary_normalize_error; [exact Hez|].
    assert (0 < 2 ^ (ez + 1074)) by (apply Z.pow_pos_nonneg; lia).
    rewrite Z.abs_mul, (Z.abs_eq (2 ^ (ez + 1074))) in Hlt by lia.
    exact Hlt.
Qed.

Lemma SFsub_error (x y : spec_float) :
  SpecFloat.valid_binary prec emax x = true -> SpecFloat.valid_binary prec emax y = true ->
  SFfinite x = true -> SFfinite y = true ->
  Z.abs (SFscaled x - SFscaled y) < 2 ^ 1075 ->
  SFfinite (SFsub prec emax x y) = true /\
  Z.abs (SFscaled (SFsub prec emax x y) - (SFscaled x - SFscaled y))
  <= 2 ^ 1021.
Proof.
  intros Vx Vy Fx Fy Hlt.
  destruct x as [sx|sx| |sx mx ex]; try discriminate;
    destruct y as [sy|sy| |sy my ey]; try discriminate.
  - cbn [SFsub]. destruct sx, sy; cbn; split; try reflexivity; lia.
  - cbn [SFsub]. split; [reflexivity|].
    cbn [SFscaled]. rewrite !cond_Zopp_mul.
    set (V := Z.pos my * _). clearbody V.
    assert (0 <= 2 ^ 1021) by (apply Z.pow_nonneg; lia).
    destruct sy; cbn [negb cond_Zopp]; lia.
  - cbn [SFsub]. split; [reflexivity|].
    cbn [SFscaled]. rewrite Z.sub_0_r, Z.sub_diag. cbn. lia.
  - pose proof (valid_exponent _ _ _ Vx) as Hex.
    pose proof (valid_exponent _ _ _ Vy) as Hey.
    cbn [SFsub]. set (ez := Z.min ex ey).
    assert (Hez : -1074 <= ez) by (unfold ez; lia).
    pose proof (@aligned_scaled sx mx ex ez Hez ltac:(unfold ez; lia)) as Ax.
    pose proof (@aligned_scaled sy my ey ez Hez ltac:(unfold ez; lia)) as Ay.
    set (M := cond_Zopp sx _ - cond_Zopp sy _).
    assert (EM : M * 2 ^ (ez + 1074)
                 = SFscaled (S754_finite sx mx ex)
                   - SFscaled (S754_finite sy my ey)).
    { unfold M. rewrite Z.mul_sub_distr_r, Ax, Ay. reflexivity. }
    rewrite <- EM in *.
    apply binary_normalize_error; [exact Hez|].
    assert (0 < 2 ^ (ez + 1074)) by (apply Z.pow_pos_nonneg; lia).
    rewrite Z.abs_mul, (Z.abs_eq (2 ^ (ez + 1074))) in Hlt by lia.
    exact Hlt.
Qed.

End Binary64Rounding.

Lemma float_value_scaled (x : float) :
  (float_value x == SFscaled (Prim2SF x) # 2 ^ 1074)%Q.
Proof.
  unfold float_value. pose proof (Prim2SF_valid x) as Hv.
  destruct (Prim2SF x) as [s|s| |s m e]; try reflexivity.
  apply valid_exponent in Hv. cbn [SFscaled].
  replace (if s then Z.neg m else Z.pos m) with (cond_Zopp s (Z.pos m))
    by (destruct s; reflexivity).
  set (n := cond_Zopp s (Z.pos m)). clearbody n.
  assert (HD : Z.pos (2 ^ 1074) = (2 ^ 1074)%Z) by (rewrite Pos2Z.inj_pow; reflexivity).
  destruct e as [|p|k]; unfold Qeq; cbn [Qnum Qden inject_Z]; rewrite HD.
  - cbn [Z.add]. change (2 ^ 0)%Z with 1%Z. lia.
  - rewrite Z.pow_add_r by lia. lia.
  - rewrite Pos2Z.inj_pow.
    replace (2 ^ 1074)%Z with (2 ^ (Z.neg k + 1074) * 2 ^ Z.pos k)%Z.
    + lia.
    + rewrite <- Z.pow_add_r by lia. f_equal. lia.
Qed.

Lemma scaled_bound (A : Z) :
  (Qabs (A # 2 ^ 1074) < 2)%Q -> (Z.abs A < 2 ^ 1075)%Z.
Proof.
  unfold Qlt, Qabs. cbn [Qnum Qden].
  assert (HD : Z.pos (2 ^ 1074) = (2 ^ 1074)%Z) by (rewrite Pos2Z.inj_pow; reflexivity).
  rewrite HD. change (2 ^ 1075)%Z with (2 * 2 ^ 1074)%Z. lia.
Qed.

Lemma scaled_error (C S : Z) :
  (Z.abs (C - S) <= 2 ^ 1021)%Z ->
  (Qabs ((C # 2 ^ 1074) - (S # 2 ^ 1074)) <= 1 # 2 ^ 53)%Q.
Proof.
  intros H.
  assert (E : ((C # 2 ^ 1074) - (S # 2 ^ 1074) == (C - S) # 2 ^ 1074)%Q).
  { unfold Qeq, Qminus, Qplus, Qopp. cbn [Qnum Qden]. lia. }
  rewrite E. unfold Qle, Qabs. cbn [Qnum Qden].
  assert (HD : Z.pos (2 ^ 1074) = (2 ^ 1021 * Z.pos (2 ^ 53))%Z)
    by (rewrite !Pos2Z.inj_pow, <- Z.pow_add_r by lia; reflexivity).
  rewrite HD. nia.
Qed.

Lemma scaled_add (A B : Z) :
  ((A # 2 ^ 1074) + (B # 2 ^ 1074) == (A + B) # 2 ^ 1074)%Q.
Proof. unfold Qeq, Qplus. cbn [Qnum Qden]. lia. Qed.

Lemma scaled_sub (A B : Z) :
  ((A # 2 ^ 1074) - (B # 2 ^ 1074) == (A - B) # 2 ^ 1074)%Q.
Proof. unfold Qeq, Qminus, Qplus, Qopp. cbn [Qnum Qden]. lia. Qed.

(** binary64 addition of finite numbers whose sum is below 2 in magnitude
    is finite and off the sum by at most 2^-53. *)
Lemma float_add_error (a b : float) :
  float_finite a = true -> float_finite b = true ->
  (Qabs (float_value a + float_value b) < 2)%Q ->
  float_finite (a + b) = true /\
  (Qabs (float_value (a + b) - (float_value a + float_value b))
   <= 1 # 2 ^ 53)%Q.
Proof.
  unfold float_finite. intros Fa Fb.
  rewrite !float_value_scaled, add_spec, scaled_add. intros Hlt.
  apply scaled_bound in Hlt.
  destruct (@SFadd_error (Prim2SF a) (Prim2SF b)
              (Prim2SF_valid a) (Prim2SF_valid b) Fa Fb Hlt) as [Hf Herr].
  split; [exact Hf|]. now apply scaled_error.
Qed.

Lemma float_sub_error (a b : float) :
  float_finite a = true -> float_finite b = true ->
  (Qabs (float_value a - float_value b) < 2)%Q ->
  float_finite (a - b) = true /\
  (Qabs (float_value (a - b) - (float_value a - float_value b))
   <= 1 # 2 ^ 53)%Q.
Proof.
  unfold float_finite. intros Fa Fb.
  rewrite !float_value_scaled, sub_spec, scaled_sub. intros Hlt.
  apply scaled_bound in Hlt.
  destruct (@SFsub_error (Prim2SF a) (Prim2SF b)
              (Prim2SF_valid a) (Prim2SF_valid b) Fa Fb Hlt) as [Hf Herr].
  split; [exact Hf|]. now apply scaled_error.
Qed.

Lemma digits2_pos_pow2 (k : positive) :
  digits2_pos (2 ^ k) = Pos.succ k.
Proof.
  induction k as [|k IH] using Pos.peano_ind.
  - reflexivity.
  - rewrite Pos.pow_succ_r. cbn [digits2_pos Pos.mul]. now rewrite IH.
Qed.

(** The only binary64 number that stands for 1 is [1.0]: its mantissa is
    a power of two, and of these only 2^52 with exponent -52 is in
    canonical form. *)
Lemma float_value_one_only (x : float) :
  (float_value x == 1)%Q -> x = 1%float.
Proof.
  unfold float_value. pose proof (Prim2SF_valid x) as Hv.
  destruct (Prim2SF x) as [s|s| |s m e] eqn:E; try discriminate.
  cbn [valid_binary] in Hv. unfold bounded, canonical_mantissa in Hv.
  apply andb_prop in Hv as [Hc _]. apply Z.eqb_eq in Hc.
  destruct e as [|p|k]; unfold Qeq; cbn [Qnum Qden inject_Z]; intros H.
  - rewrite Z.mul_1_r, Z.mul_1_r in H. destruct s; [discriminate|].
    injection H as ->. vm_compute in Hc. discriminate.
  - exfalso.
    assert (2 <= 2 ^ Z.pos p)%Z.
    { change 2%Z with (2 ^ 1)%Z at 1. apply Z.pow_le_mono_r; lia. }
    destruct s; nia.
  - rewrite Z.mul_1_r, Z.mul_1_l in H. destruct s; [discriminate|].
    injection H as ->. rewrite digits2_pos_pow2 in Hc.
    unfold fexp, emin, prec, emax in Hc.
    assert (k = 52%positive) as -> by lia.
    apply Prim2SF_inj. rewrite E. reflexivity.
Qed.

Lemma binary64_value_laws : value_laws binary64 float_value.
Proof.
  split.
  - vm_compute. reflexivity.
  - vm_compute. reflexivity.
  - exact float_value_one_only.
Qed.

Lemma exactZ_value_laws : value_laws exactZ inject_Z.
Proof.
  split; [reflexivity|reflexivity|].
  intros x. unfold Qeq. cbn. lia.
Qed.

(** Exact arithmetic never rounds. *)
Lemma exactZ_accumulated (xs : list Z) : forall acc : Z,
  accumulated_within (F := exactZ) inject_Z 0 acc xs.
Proof.
  induction xs as [|x xs IH]; intros acc; cbn [accumulated_within];
    [exact I|].
  split; [|apply IH].
  cbn [add exactZ]. rewrite inject_Z_plus.
  apply Qabs_Qle_condition. split; lra.
Qed.

Lemma exactZ_never_rounds (points : ndarray Z) (nD p : nat) :
  rounded_within (F := exactZ) inject_Z 0 points nD p.
Proof.
  unfold rounded_within. split; [apply exactZ_accumulated|].
  split; [|apply exactZ_accumulated].
  cbn [sub one exactZ]. unfold Z.sub. rewrite inject_Z_plus, inject_Z_opp.
  change (inject_Z 1) with 1%Q.
  apply Qabs_Qle_condition. split; lra.
Qed.

(** A sum accumulated from left to right is off the exact sum by at most
    the number of its additions times the bound on each. *)
Lemma accumulated_bound {F : Scalar} (value : sc -> Q) (eps : Q)
  (xs : list sc) : forall acc : sc,
  accumulated_within value eps acc xs ->
  (Qabs (value (fold_left add xs acc)
         - (value acc + exact_total (List.map value xs)))
   <= inject_Z (Z.of_nat (length xs)) * eps)%Q.
Proof.
  induction xs as [|x xs IH]; intros acc;
    cbn [accumulated_within fold_left List.map length].
  - intros _. apply Qabs_Qle_condition.
    change (inject_Z (Z.of_nat 0)) with 0%Q.
    change (exact_total []) with 0%Q. split; lra.
  - intros [H1 H2]. specialize (IH _ H2).
    change (exact_total (value x :: List.map value xs))
      with (value x + exact_total (List.map value xs))%Q.
    apply Qabs_Qle_condition in H1, IH. apply Qabs_Qle_condition.
    rewrite Nat2Z.inj_succ, <- Z.add_1_r, inject_Z_plus.
    change (inject_Z 1) with 1%Q.
    set (K := inject_Z (Z.of_nat (length xs))) in *.
    set (B := (K * eps)%Q) in *.
    assert (E : ((K + 1) * eps == B + eps)%Q) by (unfold B; ring).
    rewrite E. clearbody B. split; lra.
Qed.

(** Column [p] of the values of the P1 basis: one minus the sum of the
    coordinates, then the coordinates. *)
Lemma P1_d0_column (F : Scalar) (basis points : ndarray sc) (nD p : nat) :
  (forall r, item basis [r; p]
      = if (0 <? r) && (r <=? nD) then item points [r - 1; p]
        else if r =? 0
             then sub one (total (List.map (fun i => item points [i; p])
                                           (seq 0 nD)))
             else zero) ->
  List.map (fun i => item basis [i; p]) (seq 0 (nD + 1))
  = sub one (total (List.map (fun i => item points [i; p]) (seq 0 nD)))
    :: List.map (fun i => item points [i; p]) (seq 0 nD).
Proof.
  intros I. rewrite Nat.add_1_r. cbn [seq List.map]. f_equal.
  - now rewrite I.
  - rewrite <- seq_shift, map_map. apply map_ext_in.
    intros i Hi. apply in_seq in Hi. rewrite I.
    destruct (Nat.leb_spec (S i) nD); [|lia].
    cbn [Nat.ltb Nat.leb andb]. f_equal. f_equal. lia.
Qed.

(** In any arithmetic read as rational numbers, in every dimension
    d = 1, 2, 3 and at every point: if none of the 2d + 2 additions and
    subtractions that compute the values of the P1 basis functions and
    add them up is off its exact result by more than [eps], their sum is
    within (2d + 2) * eps of 1; where none of them rounds at all
    ([eps = 0], as in exact arithmetic), the sum is exactly one. *)
Lemma P1_sum_within
  (F : Scalar) (value : sc -> Q)
  (dimension : Z) (points : ndarray sc) (nD nP : nat) :
  value_laws F value ->
  (1 <= dimension <= 3)%Z ->
  shape points = [nD; nP] ->
  Z.of_nat nD = dimension ->
  exists basis s,
    eval_basis (P1.__init__ dimension) points 0 = Ok basis /\
    sum 0 basis = Ok s /\
    shape s = [nP] /\
    forall p eps, p < nP -> rounded_within value eps points nD p ->
      (Qabs (value (item s [p]) - 1)
       <= inject_Z (Z.of_nat (2 * nD + 2)) * eps)%Q /\
      ((eps == 0)%Q -> item s [p] = one).
Proof.
  intros [Z0 _ Only] Hd Hs Hn.
  destruct (@P1_d0_entries F dimension points nD nP)
    as (basis & E & Hb & I); [lia|assumption|lia|].
  exists basis. rewrite (sum_axis0_ok _ Hb). eexists.
  split; [exact E|]. split; [reflexivity|]. split; [reflexivity|].
  intros p eps Hp (H1 & H2 & H3). cbn [item].
  rewrite add_reduce_short by (rewrite length_map, length_seq; lia).
  rewrite (@P1_d0_column F basis points nD p (fun r => I r p Hp)).
  set (xs := List.map (fun i => item points [i; p]) (seq 0 nD)) in *.
  assert (Hlen : length xs = nD).
  { unfold xs. now rewrite length_map, length_seq. }
  pose proof (accumulated_bound value eps _ zero H3) as A.
  pose proof (accumulated_bound value eps _ zero H1) as C.
  cbn [List.map length] in A.
  change (exact_total (value (sub one (total xs)) :: List.map value xs))
    with (value (sub one (total xs)) + exact_total (List.map value xs))%Q
    in A.
  rewrite Hlen in A, C.
  rewrite Nat2Z.inj_succ, <- Z.add_1_r, inject_Z_plus in A.
  change (inject_Z 1) with 1%Q in A.
  assert (Ebound : (inject_Z (Z.of_nat (2 * nD + 2)) * eps
                    == 2 * (inject_Z (Z.of_nat nD) * eps) + 2 * eps)%Q).
  { replace (Z.of_nat (2 * nD + 2)) with (2 * Z.of_nat nD + 2)%Z by lia.
    rewrite inject_Z_plus, inject_Z_mult.
    change (inject_Z 2) with 2%Q. ring. }
  assert (EA : ((inject_Z (Z.of_nat nD) + 1) * eps
                == inject_Z (Z.of_nat nD) * eps + eps)%Q) by ring.
  rewrite EA in A.
  unfold total in *.
  set (B := (inject_Z (Z.of_nat nD) * eps)%Q) in *.
  assert (HB0 : (eps == 0)%Q -> (B == 0)%Q).
  { intros E0. unfold B. rewrite E0. ring. }
  clearbody B.
  apply Qabs_Qle_condition in A, C, H2.
  assert (Hmain : (Qabs (value (fold_left add
                     (sub one (fold_left add xs zero) :: xs) zero) - 1)
                   <= 2 * B + 2 * eps)%Q).
  { apply Qabs_Qle_condition. split; lra. }
  split.
  - now rewrite Ebound.
  - intros E0. apply Only.
    specialize (HB0 E0). apply Qabs_Qle_condition in Hmain. lra.
Qed.

(** In exact integer arithmetic the values of the P1 basis functions sum
    to exactly one, at every point. *)
Lemma partition_of_unity_exactZ : partition_of_unity exactZ.
Proof.
  intros dimension points nD nP Hd Hs Hn.
  destruct (@P1_sum_within exactZ inject_Z dimension points nD nP
              exactZ_value_laws Hd Hs Hn) as (basis & s & E & Es & Hsh & H).
  exists basis, s. split; [exact E|]. split; [exact Es|].
  split; [exact Hsh|].
  intros p Hp _.
  exact (proj2 (H p 0%Q Hp (exactZ_never_rounds points nD p)) (Qeq_refl 0)).
Qed.

(** Adding numbers that are not negative to a number within [t] of the
    unit interval, the total staying within [t] of it too, no addition
    leaves the range in which binary64 rounds by at most 2^-53. *)
Lemma binary64_accumulated (xs : list float) :
  forall (acc : float) (t : Q),
  float_finite acc = true ->
  Forall (fun x => float_finite x = true /\ (0 <= float_value x)%Q) xs ->
  (- t <= float_value acc)%Q ->
  (float_value acc + exact_total (List.map float_value xs) <= 1 + t)%Q ->
  (0 <= t)%Q ->
  (t + inject_Z (Z.of_nat (length xs)) * (1 # 2 ^ 53) < 1)%Q ->
  accumulated_within (F := binary64) float_value (1 # 2 ^ 53) acc xs /\
  float_finite (fold_left (add (Scalar := binary64)) xs acc) = true.
Proof.
  induction xs as [|x xs IH]; intros acc t Fa Fx Hlo Hhi Ht Hn.
  - split; [exact I|exact Fa].
  - apply Forall_cons_iff in Fx as [[Fx Px] Fxs].
    cbn [List.map length] in Hhi, Hn.
    change (exact_total (float_value x :: List.map float_value xs))
      with (float_value x + exact_total (List.map float_value xs))%Q in Hhi.
    rewrite Nat2Z.inj_succ, <- Z.add_1_r, inject_Z_plus in Hn.
    change (inject_Z 1) with 1%Q in Hn.
    assert (Hrest : (0 <= exact_total (List.map float_value xs))%Q).
    { clear -Fxs. induction Fxs as [|y ys [_ Py] _ IHy]; [cbn; lra|].
      cbn [List.map].
      change (exact_total (float_value y :: List.map float_value ys))
        with (float_value y + exact_total (List.map float_value ys))%Q.
      lra. }
    set (K := inject_Z (Z.of_nat (length xs))) in *.
    assert (HK : (0 <= K)%Q).
    { unfold K. change 0%Q with (inject_Z 0). rewrite <- Zle_Qle. lia. }
    set (eps := (1 # 2 ^ 53)%Q) in *.
    assert (Heps : (0 < eps)%Q) by reflexivity.
    assert (HKe : (0 <= K * eps)%Q) by (apply Qmult_le_0_compat; lra).
    assert (EK : ((K + 1) * eps == K * eps + eps)%Q) by ring.
    rewrite EK in Hn.
    set (B := (K * eps)%Q) in *. clearbody B.
    destruct (@float_add_error acc x Fa Fx) as [Fs Hs].
    { apply Qabs_Qlt_condition. split; lra. }
    fold eps in Hs. pose proof Hs as Hs'. apply Qabs_Qle_condition in Hs'.
    cbn [accumulated_within fold_left]. 
    destruct (IH (PrimFloat.add acc x) (t + eps)%Q Fs Fxs) as [IH1 IH2];
      try lra.
    split; [split; assumption|exact IH2].
Qed.

Ltac literal_eps :=
  change (1 # 2 ^ 53)%Q with (1 # 9007199254740992)%Q in *.

Lemma binary64_rounded_within (points : ndarray float) (nD p : nat) :
  nD <= 3 ->
  within_reference_simplex points nD p ->
  rounded_within (F := binary64) float_value (1 # 2 ^ 53) points nD p.
Proof.
  intros HnD [Fx Hsum]. unfold rounded_within. cbv zeta.
  set (xs := List.map (fun i => item points [i; p]) (seq 0 nD)) in *.
  assert (Hlen : length xs = nD).
  { unfold xs. now rewrite length_map, length_seq. }
  assert (Hrest : (0 <= exact_total (List.map float_value xs))%Q).
  { clear -Fx. induction Fx as [|y ys [_ Py] _ IHy]; [cbn; lra|].
    cbn [List.map].
    change (exact_total (float_value y :: List.map float_value ys))
      with (float_value y + exact_total (List.map float_value ys))%Q.
    lra. }
  assert (HK : (0 <= inject_Z (Z.of_nat (length xs)) <= 3)%Q).
  { rewrite Hlen. split.
    - change 0%Q with (inject_Z 0). rewrite <- Zle_Qle. lia.
    - change 3%Q with (inject_Z 3). rewrite <- Zle_Qle. lia. }
  assert (HB : (0 <= inject_Z (Z.of_nat (length xs)) * (1 # 2 ^ 53)
                <= 3 * (1 # 2 ^ 53))%Q).
  { split.
    - apply Qmult_le_0_compat; [lra|discriminate].
    - apply Qmult_le_compat_r; [lra|discriminate]. }
  pose proof (value_zero binary64_value_laws) as V0.
  pose proof (value_one binary64_value_laws) as V1.
  unfold total.
  change (@zero binary64) with 0%float in *.
  change (@one binary64) with 1%float in *.
  change (@add binary64) with PrimFloat.add in *.
  change (@sub binary64) with PrimFloat.sub in *.
  (* the sum of the coordinates *)
  destruct (@binary64_accumulated xs 0%float 0%Q) as [A1 F1];
    try assumption; try reflexivity; try (literal_eps; lra).
  pose proof (accumulated_bound (F := binary64) float_value (1 # 2 ^ 53) xs
                0%float A1) as E1.
  apply Qabs_Qle_condition in E1.
  change (@zero binary64) with 0%float in *.
  change (@add binary64) with PrimFloat.add in *.
  change (@sc binary64) with float in *.
  (* the subtraction from one *)
  destruct (@float_sub_error 1%float _ eq_refl F1) as [F2 E2].
  { apply Qabs_Qlt_condition. literal_eps. split; lra. }
  pose proof E2 as E2'. apply Qabs_Qle_condition in E2'.
  (* the sum of the values *)
  destruct (@float_add_error 0%float _ eq_refl F2) as [F3 E3].
  { apply Qabs_Qlt_condition. literal_eps. split; lra. }
  pose proof E3 as E3'. apply Qabs_Qle_condition in E3'.
  destruct (@binary64_accumulated xs
              (0 + (1 - fold_left PrimFloat.add xs 0))%float
              (5 * (1 # 2 ^ 53))%Q)
    as [A3 _]; try assumption; try (literal_eps; lra).
  split; [exact A1|]. split; [rewrite V1 in E2; exact E2|].
  cbn [accumulated_within]. split; [exact E3|exact A3].
Qed.

(** C6, amended. Partition of unity holds up to rounding. In every
    dimension d = 1, 2, 3 and at every point of the reference simplex
    (finite coordinates, none negative, of sum at most one), the values
    of the P1 basis functions that [eval_basis(points, 0)] returns in
    binary64 sum to 1 within (2d + 2) * 2^-53, one rounding of at most
    2^-53 for each of the 2d + 2 additions and subtractions that compute
    them and add them up; and at every point where none of these
    operations rounds, they sum to exactly one. *)
Theorem P1_partition_of_unity_rounded
  (dimension : Z) (points : ndarray float) (nD nP : nat) :
  (1 <= dimension <= 3)%Z ->
  shape points = [nD; nP] ->
  Z.of_nat nD = dimension ->
  exists basis s,
    eval_basis (F := binary64) (P1.__init__ dimension) points 0 = Ok basis /\
    sum 0 basis = Ok s /\
    shape s = [nP] /\
    forall p, p < nP ->
      (within_reference_simplex points nD p ->
       (Qabs (float_value (item s [p]) - 1)
        <= inject_Z (Z.of_nat (2 * nD + 2)) * (1 # 2 ^ 53))%Q) /\
      (rounded_within (F := binary64) float_value 0 points nD p ->
       item s [p] = 1%float).
Proof.
  intros Hd Hs Hn.
  destruct (@P1_sum_within binary64 float_value dimension points nD nP
              binary64_value_laws Hd Hs Hn) as (basis & s & E & Es & Hsh & H).
  exists basis, s. split; [exact E|]. split; [exact Es|].
  split; [exact Hsh|].
  intros p Hp. split.
  - intros Hsimplex.
    apply (H p (1 # 2 ^ 53)%Q Hp).
    apply binary64_rounded_within; [lia|exact Hsimplex].
  - intros Hexact.
    exact (proj2 (H p 0%Q Hp Hexact) (Qeq_refl 0)).
Qed.

(** C6, counterexample. In binary64 the four basis values at the point
    (0.1, 0.1, 0.1) of the reference tetrahedron sum to
    0.99999999999999989, not to one. *)
Lemma partition_of_unity_binary64_fails : ~ partition_of_unity binary64.
Proof.
  intros H.
  destruct (H 3%Z Data.tenths 3 1) as (basis & s & E1 & E2 & _ & Hp);
    [lia|reflexivity|reflexivity|].
  vm_compute in E1. injection E1 as <-.
  vm_compute in E2. injection E2 as <-.
  specialize (Hp 0 (Nat.lt_0_succ 0) eq_refl).
  apply (f_equal (fun x => PrimFloat.eqb x 1%float)) in Hp.
  vm_compute in Hp. discriminate Hp.
Qed.


Lemma P1_partition_of_unity_rounded_witness :
  within_reference_simplex Data.tenths 3 0 /\
  rounded_within (F := binary64) float_value 0 Data.quarters 3 0 /\
  (exists basis s,
     eval_basis (F := binary64) (P1.__init__ 3) Data.tenths 0 = Ok basis /\
     sum 0 basis = Ok s /\
     shape s = [1] /\
     (Qabs (float_value (item s [0%nat]) - 1)
      <= inject_Z (Z.of_nat (2 * 3 + 2)) * (1 # 2 ^ 53))%Q) /\
  (exists basis s,
     eval_basis (F := binary64) (P1.__init__ 3) Data.quarters 0 = Ok basis /\
     sum 0 basis = Ok s /\
     shape s = [1] /\
     item s [0] = 1%float).
Proof.
  assert (Htenths : within_reference_simplex Data.tenths 3 0).
  { unfold within_reference_simplex. cbn [List.map seq]. split.
    - repeat constructor; apply Qle_bool_iff; vm_compute; reflexivity.
    - apply Qle_bool_iff. vm_compute. reflexivity. }
  assert (Hquarters : rounded_within (F := binary64) float_value 0
                        Data.quarters 3 0).
  { unfold rounded_within. cbn [accumulated_within List.map seq].
    repeat split; apply Qle_bool_iff; vm_compute; reflexivity. }
  assert (Hd : (1 <= 3 <= 3)%Z) by lia.
  split; [exact Htenths|]. split; [exact Hquarters|]. split.
  - destruct (@P1_partition_of_unity_rounded 3%Z Data.tenths 3 1
                Hd eq_refl eq_refl)
      as (basis & s & E & Es & Hs & H).
    exists basis, s. split; [exact E|]. split; [exact Es|].
    split; [exact Hs|].
    exact (proj1 (H 0 (Nat.lt_0_succ 0)) Htenths).
  - destruct (@P1_partition_of_unity_rounded 3%Z Data.quarters 3 1
                Hd eq_refl eq_refl)
      as (basis & s & E & Es & Hs & H).
    exists basis, s. split; [exact E|]. split; [exact Es|].
    split; [exact Hs|].
    exact (proj2 (H 0 (Nat.lt_0_succ 0)) Hquarters).
Defined.

Lemma P1_gradients_witness :
  exists basis,
    eval_basis (F := binary64) (P1.__init__ 3) Data.tenths 1 = Ok basis /\
    shape basis = [3 + 1; 1; 3] /\
    (forall p j, p < 1 -> j < 3 -> item basis [0; p; j] = opp one) /\
    (forall i p j, i < 3 -> p < 1 -> j < 3 ->
       item basis [i + 1; p; j] = if j =? i then one else zero) /\
    exists g,
      sum 0 basis = Ok g /\ shape g = [1; 3] /\
      forall p j, p < 1 -> j < 3 -> item g [p; j] = zero.
Proof.
  apply (@P1_gradients binary64 3%Z Data.tenths 3 1).
  - split; reflexivity.
  - lia.
  - reflexivity.
  - lia.
  - lia.
Defined.

(** ** Global derivatives *)

Lemma bdim_refl (n : nat) : bdim n n = Some n.
Proof. unfold bdim. now rewrite Nat.eqb_refl. Qed.

Lemma bdim_1_r (n : nat) : bdim n 1 = Some n.
Proof. unfold bdim. destruct (n =? 1); reflexivity. Qed.

Lemma bdim_1_l (n : nat) : bdim 1 n = Some n.
Proof.
  unfold bdim. destruct (Nat.eqb_spec 1 n); [now subst|reflexivity].
Qed.

(** C1. With [deriv = 1], for an inverse Jacobian of shape
    cells x points x dim x dim and local first derivatives of shape
    basis x points x dim, [eval_global_derivatives] returns a
    cells x basis x points x dim array whose entry (e, b, p, j) is the sum
    over the reference axes k of [inv_jac[e, p, k, j]] times
    [local_derivatives[b, p, k]]. *)
Theorem eval_global_derivatives_first_order
  (F : Scalar) (self : FESpace.t) (points inv_jac local_derivatives : ndarray sc)
  (nE nB nP nD : nat) (t0 : list FESpace.event) :
  Mesh.jacobian_inverse (Mesh.ref_map (FESpace.mesh self)) points = Ok inv_jac ->
  shape inv_jac = [nE; nP; nD; nD] ->
  eval_basis (FESpace.element self) points 1 = Ok local_derivatives ->
  shape local_derivatives = [nB; nP; nD] ->
  exists derivatives,
    FESpace.eval_global_derivatives self points 1 t0
    = (Ok derivatives,
       t0 ++ [FESpace.Call_jacobian_inverse points;
              FESpace.Call_eval_basis points 1]) /\
    shape derivatives = [nE; nB; nP; nD] /\
    forall e b p j, e < nE -> b < nB -> p < nP -> j < nD ->
      item derivatives [e; b; p; j]
      = total (List.map
                 (fun k => mul (item inv_jac [e; p; k; j])
                               (item local_derivatives [b; p; k]))
                 (seq 0 nD)).
Proof.
  intros Hcall_inv Hinv Hcall_loc Hloc.
  unfold FESpace.eval_global_derivatives. cbn [Z.eqb orb negb Pos.eqb].
  unfold bind, call, lift. rewrite Hcall_inv, Hcall_loc.
  unfold getitem. rewrite Hinv, Hloc. cbn [index_shape rbind].
  unfold multiply, binop. cbn [shape].
  unfold broadcast_shapes. cbn [length Nat.max pad Nat.sub repeat app bzip].
  rewrite !bdim_1_r, !bdim_1_l, !bdim_refl. cbn [rbind].
  unfold sum, ndim, norm_axis. cbn [shape length].
  change (norm_index (-2) 5) with (Some 3). cbn [rbind remove_at nth].
  eexists. split.
  { rewrite <- app_assoc. reflexivity. }
  split; [reflexivity|].
  intros e b p j He Hb Hp Hj. cbn [item innermost skipn forallb].
  rewrite add_reduce_contraction. f_equal.
  apply map_ext_in. intros k Hk. apply in_seq in Hk.
  cbn. rewrite !clamp_lt by lia. reflexivity.
Qed.

(** ** Where exceptions come from *)

Section NumPyErrors.
Context {A : Type}.

Lemma index_shape_error (spec : list index) : forall (sh : list nat) (e : exn),
  index_shape spec sh = Raise e -> In e numpy_errors.
Proof.
  induction spec as [|[i| |] spec IH]; intros sh e; cbn.
  - discriminate.
  - destruct sh as [|n sh]; [intros [= <-]; cbn; tauto|].
    destruct (norm_index i n); [apply IH|intros [= <-]; cbn; tauto].
  - destruct sh as [|n sh]; [intros [= <-]; cbn; tauto|].
    destruct (index_shape spec sh) eqn:E; cbn; [discriminate|].
    intros [= <-]. eapply IH, E.
  - destruct (index_shape spec sh) eqn:E; cbn; [discriminate|].
    intros [= <-]. eapply IH, E.
Qed.

Lemma getitem_error (spec : list index) (a : ndarray A) (e : exn) :
  getitem spec a = Raise e -> In e numpy_errors.
Proof.
  unfold getitem. destruct (index_shape spec (shape a)) eqn:E; cbn;
    [discriminate|]. intros [= <-]. eapply index_shape_error, E.
Qed.

Lemma norm_axis_error (axis : Z) (nd : nat) (e : exn) :
  norm_axis axis nd = Raise e -> In e numpy_errors.
Proof.
  unfold norm_axis. destruct (norm_index axis nd); [discriminate|].
  intros [= <-]. cbn; tauto.
Qed.

Lemma swapaxes_error (i j : Z) (a : ndarray A) (e : exn) :
  swapaxes i j a = Raise e -> In e numpy_errors.
Proof.
  unfold swapaxes.
  destruct (norm_axis i (ndim a)) eqn:Ei; cbn;
    [|intros [= <-]; eapply norm_axis_error, Ei].
  destruct (norm_axis j (ndim a)) eqn:Ej; cbn;
    [discriminate|intros [= <-]; eapply norm_axis_error, Ej].
Qed.

Lemma take_error (ind : ndarray Z) (a : ndarray A) (e : exn) :
  take ind a = Raise e -> In e numpy_errors.
Proof.
  unfold take. destruct (shape a); [intros [= <-]; cbn; tauto|].
  destruct (forallb _ _); [discriminate|intros [= <-]; cbn; tauto].
Qed.

Lemma binop_error {B C} (f : A -> B -> C) (a : ndarray A) (b : ndarray B)
      (e : exn) :
  binop f a b = Raise e -> In e numpy_errors.
Proof.
  unfold binop. destruct (broadcast_shapes _ _); [discriminate|].
  intros [= <-]. cbn; tauto.
Qed.
End NumPyErrors.

Lemma sum_error {F : Scalar} (axis : Z) (a : ndarray sc) (e : exn) :
  sum axis a = Raise e -> In e numpy_errors.
Proof.
  unfold sum. destruct (norm_axis axis (ndim a)) eqn:E; cbn; [discriminate|].
  intros [= <-]. eapply norm_axis_error, E.
Qed.

Lemma size_axis0_error {A} (a : ndarray A) (e : exn) :
  size_axis0 a = Raise e -> In e numpy_errors.
Proof.
  unfold size_axis0. destruct (shape a); [|discriminate].
  intros [= <-]. cbn; tauto.
Qed.

Create HintDb numpy.

#[local] Hint Resolve getitem_error swapaxes_error take_error binop_error
  sum_error size_axis0_error : numpy.

(** Peels the steps of a chain of array operations that ends in an
    exception: the exception is the one of the step that failed. *)
Ltac failing_step H :=
  repeat match type of H with
         | rbind ?r _ = Raise _ =>
             let E := fresh "E" in
             destruct r eqn:E; cbn [rbind] in H;
             [|injection H as <-; unfold multiply in *; eauto with numpy]
         end.

Lemma numpy_errors_not_invalid_order (e : exn) :
  In e numpy_errors -> is_invalid_order e = false.
Proof.
  intros H.
  assert (G : forallb (fun e => negb (is_invalid_order e)) numpy_errors = true)
    by reflexivity.
  rewrite forallb_forall in G. apply G in H. now destruct (is_invalid_order e).
Qed.

Lemma numpy_errors_not_NotImplementedError (e : exn) :
  In e numpy_errors -> is_NotImplementedError e = false.
Proof.
  intros H.
  assert (G : forallb (fun e => negb (is_NotImplementedError e)) numpy_errors
              = true) by reflexivity.
  rewrite forallb_forall in G. apply G in H.
  now destruct (is_NotImplementedError e).
Qed.

Lemma prefix_app (s t : string) : prefix s (s ++ t) = true.
Proof.
  induction s as [|c s IH]; cbn; [now destruct t|].
  destruct (Ascii.ascii_dec c c); [assumption|contradiction].
Qed.

Lemma invalid_order_msg_recognised (deriv : Z) :
  is_invalid_order (ValueError (FESpace.invalid_order_msg deriv)) = true.
Proof.
  unfold is_invalid_order, FESpace.invalid_order_msg.
  change ("Invalid derivation order for global derivatives! ("
            ++ str_of_Z deriv ++ ")")%string
    with ("Invalid derivation order for global derivatives!"
            ++ (" (" ++ str_of_Z deriv ++ ")"))%string.
  apply prefix_app.
Qed.

Section Guards.
Context {F : Scalar}.
Variable self : FESpace.t.

Lemma global_derivatives_chain_errors
      (points : ndarray sc) (deriv : Z) (t0 : list FESpace.event) (e : exn) :
  deriv = 1%Z \/ deriv = 2%Z ->
  fst (FESpace.eval_global_derivatives self points deriv t0) = Raise e ->
  Mesh.jacobian_inverse (Mesh.ref_map (FESpace.mesh self)) points = Raise e \/
  eval_basis (FESpace.element self) points deriv = Raise e \/
  In e numpy_errors.
Proof.
  intros Hd. unfold FESpace.eval_global_derivatives, bind, call, lift.
  destruct Hd as [-> | ->]; cbn [Z.eqb Pos.eqb orb negb];
    (destruct (Mesh.jacobian_inverse _ points) as [inv_jac|e1];
     [|cbn; intros [= <-]; now left]);
    (destruct (eval_basis _ points _) as [ld|e2];
     [|cbn; intros [= <-]; right; now left]);
    cbn [fst]; intros H; right; right; failing_step H; eauto with numpy.
Qed.

End Guards.

(** C3. For every [deriv] other than 1 and 2, [eval_global_derivatives]
    raises its invalid-argument error (a [ValueError] with the message
    for that order) without having called the mesh or the element: the log
    of calls is unchanged. For [deriv] 1 or 2 it does not raise that error,
    as long as the reference map and the element do not raise it
    themselves. *)
Theorem eval_global_derivatives_guard
  (F : Scalar) (self : FESpace.t)
  (points : ndarray sc) (deriv : Z) (t0 : list FESpace.event) :
  (deriv <> 1%Z -> deriv <> 2%Z ->
   FESpace.eval_global_derivatives self points deriv t0
   = (Raise (ValueError (FESpace.invalid_order_msg deriv)), t0)
   /\ is_invalid_order (ValueError (FESpace.invalid_order_msg deriv)) = true)
  /\
  (deriv = 1%Z \/ deriv = 2%Z ->
   (forall e, Mesh.jacobian_inverse (Mesh.ref_map (FESpace.mesh self)) points
              = Raise e -> is_invalid_order e = false) ->
   (forall e, eval_basis (FESpace.element self) points deriv = Raise e ->
              is_invalid_order e = false) ->
   forall e, fst (FESpace.eval_global_derivatives self points deriv t0)
             = Raise e -> is_invalid_order e = false).
Proof.
  split.
  - intros H1 H2. split; [|apply invalid_order_msg_recognised].
    unfold FESpace.eval_global_derivatives.
    destruct (Z.eqb_spec deriv 1); [contradiction|].
    destruct (Z.eqb_spec deriv 2); [contradiction|]. reflexivity.
  - intros Hd Hinv Hloc e He.
    destruct (@global_derivatives_chain_errors F self points deriv t0 e Hd He)
    as [H | [H | H]];
      [now apply Hinv|now apply Hloc|now apply numpy_errors_not_invalid_order].
Qed.


Section EvalDofs.
Context {F : Scalar}.
Variable self : FESpace.t.
Variables dofs points : ndarray sc.

(** Where an exception of [eval_dofs] comes from, for local points. *)
Lemma eval_dofs_errors (deriv : Z) (t0 : list FESpace.event) (e : exn) :
  fst (FESpace.eval_dofs self dofs points deriv true t0) = Raise e ->
  (exists dim, size_axis0 points = Ok dim /\
               dim < Mesh.dimension (FESpace.mesh self) /\ (0 < deriv)%Z /\
               is_NotImplementedError e = true) \/
  (exists d, FESpace.get_dof_map self d = Raise e) \/
  (exists dv, eval_basis (FESpace.element self) points dv = Raise e) \/
  Mesh.jacobian_inverse (Mesh.ref_map (FESpace.mesh self)) points = Raise e \/
  In e numpy_errors \/
  e = NameError "d"%string.
Proof.
  unfold FESpace.eval_dofs. cbn [negb]. unfold bind at 1. unfold lift at 1.
  destruct (size_axis0 points) as [dim|e0] eqn:Es;
    [|cbn [fst]; intros [= <-]; do 4 right; left; eapply size_axis0_error, Es].
  destruct (Nat.ltb_spec dim (Mesh.dimension (FESpace.mesh self)));
    destruct (Z.ltb_spec 0 deriv); cbn [andb].
  { cbn. intros [= <-]. left. exists dim. auto. }
  all: unfold bind at 1; unfold call at 1;
    (destruct (FESpace.get_dof_map self dim) as [dof_map|e1] eqn:Eg;
     [|cbn [fst]; intros [= <-]; right; left; eauto]);
    unfold bind at 1; unfold lift at 1;
    (destruct (take _ dofs) as [values|e2] eqn:Et;
     [|cbn [fst]; intros [= <-]; do 4 right; left; eauto with numpy]);
    (destruct (Z.eqb_spec deriv 0);
     [unfold bind, call, lift;
      destruct (eval_basis _ points deriv) as [basis|e3] eqn:Eb;
      [|cbn [fst]; intros [= <-]; right; right; left; eauto];
      cbn [fst]; intros Hrun; do 4 right; left; failing_step Hrun; eauto with numpy
     |]);
    (destruct (Z.eqb_spec deriv 1);
     [unfold bind at 1;
      match goal with |- context [FESpace.eval_global_derivatives ?s ?p 1 ?t] =>
        destruct (FESpace.eval_global_derivatives s p 1 t) as [[g|e4] t1] eqn:Eg1
      end;
      [unfold lift; cbn [fst]; intros Hrun; do 4 right; left;
       failing_step Hrun; eauto with numpy
      |cbn [fst]; intros [= <-];
       match type of Eg1 with
       | FESpace.eval_global_derivatives _ _ _ ?t = _ =>
           destruct (@global_derivatives_chain_errors F self points 1 t e4
                       (or_introl eq_refl)) as [Hc | [Hc | Hc]]
       end;
       [now rewrite Eg1|tauto|eauto|tauto]]
     |]);
    intros Hrun; do 5 right; cbn in Hrun; now injection Hrun.
Qed.

End EvalDofs.

(** C4. [eval_dofs] raises [NotImplementedError], and so returns no
    value, exactly when it is called with [local = False], or when the
    points have fewer coordinates than the mesh has dimensions and a
    derivative ([deriv > 0]) is requested. The collaborators (the
    degrees-of-freedom manager, the element, the reference map) are taken
    not to raise [NotImplementedError] themselves. *)
Theorem eval_dofs_not_supported
  (F : Scalar) (self : FESpace.t) (dofs points : ndarray sc)
  (deriv : Z) (local : bool) (t0 : list FESpace.event) :
  (forall d e, FESpace.get_dof_map self d = Raise e ->
               is_NotImplementedError e = false) ->
  (forall dv e, eval_basis (FESpace.element self) points dv = Raise e ->
                is_NotImplementedError e = false) ->
  (forall e, Mesh.jacobian_inverse (Mesh.ref_map (FESpace.mesh self)) points
             = Raise e -> is_NotImplementedError e = false) ->
  (exists e, fst (FESpace.eval_dofs self dofs points deriv local t0) = Raise e
             /\ is_NotImplementedError e = true)
  <->
  (local = false \/
   exists dim, size_axis0 points = Ok dim /\
               dim < Mesh.dimension (FESpace.mesh self) /\ (0 < deriv)%Z).
Proof.
  intros Hdof Hbasis Hjac. split.
  - intros (e & He & Hnie). destruct local; [right|now left].
    destruct (@eval_dofs_errors F self dofs points deriv t0 e He)
      as [(dim & Hs & Hlt & Hder & _) | [(d & H) | [(dv & H) | [H | [H | H]]]]].
    + exists dim. auto.
    + rewrite (Hdof _ _ H) in Hnie. discriminate.
    + rewrite (Hbasis _ _ H) in Hnie. discriminate.
    + rewrite (Hjac _ H) in Hnie. discriminate.
    + rewrite (numpy_errors_not_NotImplementedError H) in Hnie. discriminate.
    + subst e. discriminate.
  - intros [-> | (dim & Hs & Hlt & Hder)].
    + eexists. split; reflexivity.
    + destruct local; [|eexists; split; reflexivity].
      unfold FESpace.eval_dofs, bind, lift. cbn [negb]. rewrite Hs.
      apply Nat.ltb_lt in Hlt. apply Z.ltb_lt in Hder.
      rewrite Hlt, Hder. eexists. split; reflexivity.
Qed.

(** C10. With [local = True], points of the mesh's dimension and [deriv]
    outside {0, 1}, [eval_dofs] always fails, and never by the
    [NotImplementedError] its last branch means to raise: the message of
    that error reads the name [d], which the function does not define, so
    once the degrees of freedom are gathered the call ends in
    [NameError] for [d]. *)
Theorem eval_dofs_invalid_order_name_error
  (F : Scalar) (self : FESpace.t) (dofs points : ndarray sc)
  (deriv : Z) (t0 : list FESpace.event) :
  deriv <> 0%Z -> deriv <> 1%Z ->
  size_axis0 points = Ok (Mesh.dimension (FESpace.mesh self)) ->
  exists e t1,
    FESpace.eval_dofs self dofs points deriv true t0 = (Raise e, t1) /\
    match FESpace.get_dof_map self (Mesh.dimension (FESpace.mesh self)) with
    | Raise e1 => e = e1
    | Ok dof_map =>
        match take (map (fun g => (g - 1)%Z) dof_map) dofs with
        | Raise e2 => e = e2
        | Ok _ => e = NameError "d"%string
                  /\ t1 = t0 ++ [FESpace.Call_get_dof_map
                                   (Mesh.dimension (FESpace.mesh self))]
        end
    end.
Proof.
  intros H0 H1 Hs.
  unfold FESpace.eval_dofs, bind, lift, call. cbn [negb]. rewrite Hs.
  rewrite Nat.ltb_irrefl. cbn [andb].
  destruct (FESpace.get_dof_map self _) as [dof_map|e1]; [|eauto].
  destruct (take _ dofs) as [values|e2]; [|eauto].
  destruct (Z.eqb_spec deriv 0); [contradiction|].
  destruct (Z.eqb_spec deriv 1); [contradiction|].
  cbn. eauto.
Qed.


(** C2. When the quadrature rule of dimension [d] has points
    ([qpoints.size > 0]), [get_quadrature_data(d)] returns, entry by entry,
    the absolute value of the determinant the reference map computes, so
    no entry is negative, whatever the sign of the raw determinant. *)
Theorem get_quadrature_data_abs_determinants
  (F : Scalar) (self : FESpace.t) (d : Z) (t0 : list FESpace.event)
  (qpoints qweights raw : ndarray sc) :
  abs_never_negative F ->
  FESpace.points (FESpace.quad_rule self) d = Ok qpoints ->
  FESpace.weights (FESpace.quad_rule self) d = Ok qweights ->
  0 < size qpoints ->
  Mesh.jacobian_determinant (Mesh.ref_map (FESpace.mesh self)) qpoints = Ok raw ->
  exists jac_dets,
    FESpace.get_quadrature_data self d t0
    = (Ok (qpoints, qweights, jac_dets),
       t0 ++ [FESpace.Call_jacobian_determinant qpoints]) /\
    shape jac_dets = shape raw /\
    forall idx,
      item jac_dets idx = absv (item raw idx) /\
      ltb (item jac_dets idx) zero = false.
Proof.
  intros Habs Hp Hw Hsize Hraw.
  unfold FESpace.get_quadrature_data, bind, lift, call, ret.
  rewrite Hp, Hw. apply Nat.ltb_lt in Hsize. rewrite Hsize, Hraw.
  eexists. split; [reflexivity|]. split; [reflexivity|].
  intros idx. split; [reflexivity|]. apply Habs.
Qed.

(** C8. Constructing a mesh from a table of nodes with rows of width
    outside {1, 2, 3} fails (the [assert] on the dimension raises
    [AssertionError]); for the widths 1, 2 and 3 the construction succeeds,
    provided the geometry, topology and reference map can be built, and the
    mesh's dimension is the width. *)
Theorem Mesh_init_dimension
  (F : Scalar) (C : Mesh.constructors) (nodes : ndarray sc)
  (connectivity : ndarray Z) (n width : nat) :
  shape nodes = [n; width] ->
  (~ (1 <= width <= 3) -> Mesh.__init__ C nodes connectivity = Raise AssertionError)
  /\
  (1 <= width <= 3 ->
   forall geometry topology ref_map,
     Mesh.new_MeshGeometry C nodes = Ok geometry ->
     Mesh.new_MeshTopology C connectivity width = Ok topology ->
     Mesh.new_ReferenceMap C width geometry topology = Ok ref_map ->
     exists mesh,
       Mesh.__init__ C nodes connectivity = Ok mesh /\
       Mesh.dimension mesh = width /\
       Mesh.nodes mesh = Mesh.geometry_nodes geometry).
Proof.
  intros Hs.
  assert (Hat : atleast_2d nodes = nodes).
  { unfold atleast_2d. now rewrite Hs. }
  unfold Mesh.__init__. rewrite Hat, Hs. cbn [tuple_get nth_error rbind].
  split.
  - intros Hw.
    destruct (Nat.leb_spec 1 width), (Nat.leb_spec width 3); cbn [andb];
      try reflexivity. lia.
  - intros Hw geometry topology ref_map Hg Ht Hr.
    destruct (Nat.leb_spec 1 width), (Nat.leb_spec width 3); try lia.
    cbn [andb]. rewrite Hg. cbn [rbind]. rewrite Ht. cbn [rbind].
    rewrite Hr. cbn [rbind]. eexists. split; [reflexivity|]. split; reflexivity.
Qed.

(** ** The boundary of a mesh *)

Lemma in_indices (sh : list nat) : forall idx : list nat,
  in_bounds sh idx = true -> In idx (indices sh).
Proof.
  induction sh as [|n sh IH]; intros [|i idx]; cbn; try discriminate.
  - now left.
  - intros H. apply andb_prop in H as [Hi Hr]. apply Nat.ltb_lt in Hi.
    apply in_flat_map. exists i. split; [apply in_seq; lia|].
    apply in_map. now apply IH.
Qed.

Section Boundary.
Context {F : Scalar}.
Variable self : Mesh.t.
Variable fa : ndarray Z.
Variables nN D nF m : nat.
Hypothesis Hnodes : shape (Mesh.nodes self) = [nN; D].
Hypothesis Hfacets : Mesh.facets self = Ok fa.
Hypothesis Hfa : shape fa = [nF; m].

Lemma boundary_centroids_spec (mask : ndarray bool) (c : ndarray sc) :
  Mesh.boundary_centroids self mask = Ok c ->
  shape c = [length (true_positions mask); D] /\
  forall k j, k < length (true_positions mask) -> j < D ->
    item c [k; j]
    = facet_centroid (Mesh.nodes self) fa (nth k (true_positions mask) 0) j.
Proof.
  unfold Mesh.boundary_centroids. rewrite Hfacets. cbn [rbind].
  unfold compress. rewrite Hfa.
  destruct (shape mask) as [|n0 [|? ?]]; try discriminate.
  destruct (forallb _ (true_positions mask)); [|discriminate].
  cbn [rbind]. unfold take. rewrite Hnodes. cbn [shape].
  match goal with |- context [forallb ?f ?l] =>
    destruct (forallb f l) eqn:Hall end; [|discriminate].
  cbn [rbind]. unfold mean, sum, ndim, norm_axis. cbn [shape app length].
  change (norm_index 1 3) with (Some 1). cbn [rbind].
  intros [= <-]. cbn [shape map remove_at nth]. split; [reflexivity|].
  intros k j Hk Hj. cbn [item map innermost skipn forallb].
  unfold facet_centroid.
  change (Pos.to_nat 1) with 1. cbn [skipn forallb].
  rewrite Hfa, Hnodes, andb_true_r. cbn [nth]. f_equal. f_equal.
  apply map_ext_in. intros q Hq. apply in_seq in Hq.
  cbn [insert_at firstn skipn length shape map item hd tl].
  rewrite forallb_forall in Hall.
  specialize (Hall [k; q]). cbv beta in Hall. cbn [item map hd tl] in Hall.
  destruct (norm_index _ nN); [reflexivity|].
  enough (false = true) by discriminate. apply Hall, in_indices.
  cbn [shape map in_bounds].
  rewrite (proj2 (Nat.ltb_lt _ _) Hk).
  rewrite (proj2 (Nat.ltb_lt q m)) by lia. reflexivity.
Qed.

End Boundary.

Lemma rank_lt (f : nat -> bool) (i n : nat) :
  i < n -> f i = true ->
  length (filter f (seq 0 i)) < length (filter f (seq 0 n)).
Proof.
  intros Hi Hf.
  replace n with (i + (1 + (n - i - 1))) by lia.
  rewrite seq_app, filter_app, length_app. cbn [seq filter Nat.add].
  rewrite Hf. cbn [length]. lia.
Qed.

Lemma nth_filter_true (f : nat -> bool) (l : list nat) (k d : nat) :
  k < length (filter f l) -> f (nth k (filter f l) d) = true.
Proof.
  intros Hk. pose proof (nth_In (filter f l) d Hk) as Hin.
  apply filter_In in Hin. tauto.
Qed.

Lemma bzip_length (s1 : list nat) : forall (s2 r : list nat),
  bzip s1 s2 = Some r -> length r = length s1.
Proof.
  induction s1 as [|a s1 IH]; intros [|b s2] r; cbn; try discriminate.
  - now intros [= <-].
  - destruct (bdim a b); [|discriminate].
    destruct (bzip s1 s2) eqn:E; [|discriminate].
    intros [= <-]. cbn. now rewrite (IH _ _ E).
Qed.

(** A value that [logical_and] broadcasts from the selected entries and
    that the masked assignment accepts has one entry per selected entry. *)
Lemma broadcast_onto_line (L : nat) (s sh : list nat) :
  broadcast_shapes [L] s = Some sh ->
  length sh <= 1 ->
  can_broadcast sh [L] = true ->
  sh = [L].
Proof.
  unfold broadcast_shapes. intros Hb Hl Hc.
  pose proof (bzip_length _ _ Hb) as Hlen.
  unfold pad in Hlen. rewrite length_app, repeat_length in Hlen.
  cbn [length] in Hlen.
  destruct s as [|k [|? ?]]; cbn [length Nat.max] in *; [| |lia].
  - cbn in Hb. rewrite bdim_1_r in Hb. now injection Hb as <-.
  - cbn in Hb. destruct (bdim L k) as [d|] eqn:Hd; [|discriminate].
    injection Hb as <-. unfold can_broadcast in Hc. cbn in Hc.
    rewrite andb_true_r in Hc. unfold bdim in Hd.
    destruct (Nat.eqb_spec L k), (Nat.eqb_spec L 1), (Nat.eqb_spec k 1),
      (Nat.eqb_spec d L), (Nat.eqb_spec d 1);
      try discriminate; injection Hd as ->; f_equal; lia.
Qed.

(** The last three statements of [boundary], when they succeed: the
    result differs from the boundary mask at its true entries only, each
    of which is replaced by the answer at its position among them. *)
Lemma restricted_mask (mask part_mask mask' : ndarray bool) :
  (selected <- getitem_mask mask mask ;;
   value <- logical_and selected part_mask ;;
   setitem_mask mask mask value) = Ok mask' ->
  shape mask' = shape mask /\
  (forall i, item mask' [i] = true -> item mask [i] = true) /\
  forall i, i < nth 0 (shape mask) 0 ->
    item mask' [i]
    = item mask [i]
      && item part_mask (bidx (shape part_mask) [boundary_rank mask i]).
Proof.
  unfold getitem_mask.
  destruct (shape mask) as [|n [|? ?]] eqn:Hm; try discriminate.
  rewrite Nat.eqb_refl. cbn [rbind].
  unfold logical_and, binop. cbn [shape].
  destruct (broadcast_shapes _ _) as [sh|] eqn:Hbs; [|discriminate].
  cbn [rbind]. unfold setitem_mask, ndim. cbn [shape].
  rewrite Hm, Nat.eqb_refl.
  destruct (Nat.leb_spec (length sh) 1) as [Hl|Hl]; cbn [negb];
    [|discriminate].
  destruct (can_broadcast sh _) eqn:Hcb; [|discriminate].
  intros [= <-]. cbn [shape item hd nth].
  pose proof (@broadcast_onto_line _ _ _ Hbs Hl Hcb) as Esh. subst sh.
  split; [reflexivity|]. split.
  - intros i. now destruct (item mask [i]).
  - intros i Hi. fold (boundary_rank mask i).
    destruct (item mask [i]) eqn:Hmi; [|reflexivity].
    assert (Hpos : true_positions mask
                   = filter (fun k => item mask [k]) (seq 0 n)).
    { unfold true_positions. now rewrite Hm. }
    assert (Hr : boundary_rank mask i < length (true_positions mask)).
    { rewrite Hpos. unfold boundary_rank.
      now apply (rank_lt (fun k => item mask [k])). }
    assert (Hb : bidx [length (true_positions mask)] [boundary_rank mask i]
                 = [boundary_rank mask i]).
    { apply bidx_in_bounds. cbn [in_bounds].
      now rewrite (proj2 (Nat.ltb_lt _ _) Hr). }
    cbn [andb]. unfold vidx. cbn [length Nat.sub repeat app skipn].
    rewrite !Hb. cbn [hd].
    rewrite Hpos, (nth_filter_true (fun k => item mask [k])); [reflexivity|].
    rewrite <- Hpos. exact Hr.
Qed.

Section PredicateCalls.
Context {F : Scalar}.
Variable fnc : Mesh.predicate.
Variable c : ndarray sc.
Variables nBF D : nat.
Hypothesis Hc : shape c = [nBF; D].

Lemma centroid_row (k : nat) :
  k < nBF ->
  getitem [Int (Z.of_nat k); Slice] c
  = Ok (mk_ndarray [D] (fun idx => item c (k :: hd 0 idx :: tl idx))).
Proof.
  intros Hk. erewrite getitem_ok; cycle 1.
  { rewrite Hc. cbn. rewrite norm_index_of_nat by assumption. reflexivity. }
  rewrite Hc. cbn. now rewrite norm_index_of_nat by assumption.
Qed.

(** One round of the fallback loop that succeeds: the predicate is
    called on the centroid in row [k] and its answer is stored at [k]. *)
Lemma part_body_inv (k : nat) (pm pm' : ndarray bool)
                    (t t' : list (ndarray sc)) :
  k < nBF -> shape pm = [nBF] ->
  Mesh.part_body fnc c k pm t = (Ok pm', t') ->
  exists r v,
    getitem [Int (Z.of_nat k); Slice] c = Ok r /\ fnc r = Ok v /\
    t' = t ++ [r] /\ shape pm' = [nBF] /\
    forall j, item pm' [j]
              = if j =? k then item v (vidx (shape v) []) else item pm [j].
Proof.
  intros Hk Hpm. pose proof (centroid_row Hk) as Er.
  unfold Mesh.part_body, bind, lift, call. rewrite Er.
  match goal with |- context [fnc ?row] => set (r := row) in * end.
  destruct (fnc r) as [v|e] eqn:Ev; [|discriminate].
  unfold setitem. rewrite Hpm. cbn [index_shape].
  rewrite norm_index_of_nat by assumption. cbn [rbind].
  destruct (can_broadcast (shape v) []); [|discriminate].
  intros [= <- <-]. exists r, v.
  split; [reflexivity|]. split; [exact Ev|]. split; [reflexivity|].
  split; [reflexivity|].
  intros j. cbn [item].
  rewrite norm_index_of_nat by assumption.
  destruct (j =? k); reflexivity.
Qed.

Lemma part_loop_inv (k : nat) :
  forall (s : nat) (pm pm' : ndarray bool) (t t' : list (ndarray sc)),
  s + k <= nBF -> shape pm = [nBF] ->
  for_eachM (seq s k) (Mesh.part_body fnc c) pm t = (Ok pm', t') ->
  exists rows,
    t' = t ++ rows /\ length rows = k /\ shape pm' = [nBF] /\
    (forall i, i < k ->
       getitem [Int (Z.of_nat (s + i)); Slice] c = Ok (nth i rows c) /\
       exists v, fnc (nth i rows c) = Ok v /\
                 item pm' [s + i] = item v (vidx (shape v) [])) /\
    forall j, j < s -> item pm' [j] = item pm [j].
Proof.
  induction k as [|k IH]; intros s pm pm' t t' Hk Hpm.
  - cbn [seq for_eachM]. unfold ret. intros [= <- <-].
    exists []. split; [now rewrite app_nil_r|]. split; [reflexivity|].
    split; [assumption|]. split; [intros i Hi; lia|reflexivity].
  - cbn [seq for_eachM]. unfold bind at 1.
    destruct (Mesh.part_body fnc c s pm t) as [[pm1|e] t1] eqn:E1;
      [|discriminate].
    destruct (@part_body_inv s pm pm1 t t1) as (r & v & Er & Ev & -> & H1 & I1);
      [lia|assumption|assumption|].
    intros E2.
    destruct (IH (S s) pm1 pm' (t ++ [r]) t') as (rows & -> & Hl & H2 & Hrows & I2);
      [lia|assumption|assumption|].
    exists (r :: rows). split; [now rewrite <- app_assoc|].
    split; [cbn; now rewrite Hl|]. split; [assumption|]. split.
    + intros [|i] Hi; cbn [nth].
      * rewrite Nat.add_0_r. split; [exact Er|].
        exists v. split; [exact Ev|].
        rewrite (I2 s) by lia. rewrite (I1 s). now rewrite Nat.eqb_refl.
      * replace (s + S i) with (S s + i) by lia. apply Hrows. lia.
    + intros j Hj. rewrite (I2 j) by lia. rewrite (I1 j).
      destruct (Nat.eqb_spec j s); [lia|reflexivity].
Qed.

(** The two ways of [boundary] to the predicate's answers. *)
Lemma answers_obtained (part_mask : ndarray bool) (t0 t1 : list (ndarray sc)) :
  try_except
    (call (transpose c) (fnc (transpose c)))
    (ncentroids <~ lift (size_axis0 c) ;;
     for_eachM (seq 0 ncentroids) (Mesh.part_body fnc c)
               (empty_bool [ncentroids])) t0 = (Ok part_mask, t1) ->
  exists calls, t1 = t0 ++ calls /\ predicate_answers fnc c part_mask calls.
Proof.
  unfold try_except, call.
  destruct (fnc (transpose c)) as [pm|e] eqn:Ef.
  - intros [= <- <-]. exists [transpose c]. split; [reflexivity|].
    left. now split.
  - unfold bind at 1. unfold lift at 1. unfold size_axis0. rewrite Hc.
    intros Eloop.
    destruct (@part_loop_inv nBF 0 (empty_bool [nBF]) part_mask _ t1
                (Nat.le_refl _) eq_refl Eloop)
      as (rows & -> & Hl & Hpm & Hrows & _).
    exists (transpose c :: rows). split; [now rewrite <- app_assoc|].
    right. split; [now exists e|].
    exists rows. rewrite Hc. cbn [nth].
    split; [reflexivity|]. split; [exact Hl|]. split; [exact Hpm|].
    intros k Hk. exact (Hrows k Hk).
Qed.

End PredicateCalls.

(** Every argument [boundary] passes to the predicate is made of
    centroids of boundary facets. *)
Lemma answers_on_centroids
  (F : Scalar) (nodes : ndarray sc) (fa : ndarray Z) (mask : ndarray bool)
  (fnc : Mesh.predicate) (c : ndarray sc) (part_mask : ndarray bool)
  (calls : list (ndarray sc)) (nN D : nat) :
  shape nodes = [nN; D] ->
  facet_centroids nodes fa mask c ->
  predicate_answers fnc c part_mask calls ->
  Forall (centroid_argument nodes fa mask) calls.
Proof.
  intros Hn [Hsh Hit]. rewrite Hn in Hsh, Hit. cbn [nth] in Hsh, Hit.
  assert (HT : centroid_argument nodes fa mask (transpose c)).
  { left. rewrite Hn. cbn [nth shape transpose]. rewrite Hsh.
    split; [reflexivity|]. intros j k Hj Hk. cbn. now apply Hit. }
  intros [[_ ->] | [_ (rows & -> & Hl & _ & Hrows)]].
  - constructor; [exact HT|constructor].
  - constructor; [exact HT|].
    rewrite Hsh in Hl, Hrows. cbn [nth] in Hl, Hrows.
    apply Forall_forall. intros r Hin.
    destruct (In_nth rows r c Hin) as (k & Hk & <-).
    rewrite Hl in Hk. destruct (Hrows k Hk) as [Er _].
    rewrite (@centroid_row F c _ D Hsh k Hk) in Er. injection Er as Er. rewrite <- Er.
    right. exists k. split; [exact Hk|]. rewrite Hn. cbn [nth shape item hd tl].
    split; [reflexivity|]. intros j Hj. now apply Hit.
Qed.

(** C9. Whatever the predicate, when [boundary(fnc)] returns, its mask
    is the mask of [boundary()] intersected with the predicate's
    answers: it is true only where that mask is true, and facet i is in
    it exactly when it is a boundary facet and the predicate's answer at
    its position among the boundary facets is true. The predicate is
    called, and on nothing but centroids of boundary facets (the
    averages of their vertices' coordinates): first on all of them at
    once, stacked by spatial axis, and, when that call raises, on each
    of them in turn. *)
Theorem boundary_predicate_restricts
  (F : Scalar) (self : Mesh.t) (fnc : Mesh.predicate) (fa : ndarray Z)
  (nN D nF m : nat) (t0 t1 : list (ndarray sc)) (mask' : ndarray bool) :
  shape (Mesh.nodes self) = [nN; D] ->
  Mesh.facets self = Ok fa ->
  shape fa = [nF; m] ->
  Mesh.boundary self (Some fnc) t0 = (Ok mask', t1) ->
  exists mask c part_mask calls,
    Mesh.boundary self None t0 = (Ok mask, t0) /\
    facet_centroids (Mesh.nodes self) fa mask c /\
    t1 = t0 ++ calls /\
    predicate_answers fnc c part_mask calls /\
    Forall (centroid_argument (Mesh.nodes self) fa mask) calls /\
    shape mask' = shape mask /\
    (forall i, item mask' [i] = true -> item mask [i] = true) /\
    forall i, i < nth 0 (shape mask) 0 ->
      item mask' [i]
      = item mask [i]
        && item part_mask (bidx (shape part_mask) [boundary_rank mask i]).
Proof.
  intros Hnodes Hfacets Hfa. unfold Mesh.boundary.
  unfold bind at 1 3. unfold lift at 1 5.
  destruct (Mesh.get_boundary (Mesh.topology self)
              (Z.of_nat (Mesh.dimension self) - 1)) as [mask|e];
    [|discriminate].
  unfold bind at 1. unfold lift at 1.
  destruct (Mesh.boundary_centroids self mask) as [c|e] eqn:Hc;
    [|discriminate].
  pose proof (@boundary_centroids_spec F self fa nN D nF m Hnodes Hfacets Hfa
                mask c Hc) as Hspec.
  assert (Hcs : facet_centroids (Mesh.nodes self) fa mask c).
  { unfold facet_centroids. rewrite Hnodes. exact Hspec. }
  unfold bind at 1.
  destruct (try_except _ _ t0) as [[part_mask|e] t'] eqn:Etry;
    [|discriminate].
  destruct (@answers_obtained F fnc c _ D (proj1 Hspec) part_mask t0 t' Etry)
    as (calls & -> & Hans).
  unfold bind, lift.
  destruct (selected <- getitem_mask mask mask ;;
            value <- logical_and selected part_mask ;;
            setitem_mask mask mask value) as [m'|e] eqn:Eres.
  - destruct (restricted_mask _ _ Eres) as (Hs & Himp & Hitems).
    destruct (getitem_mask mask mask) as [selected|e]; [|discriminate Eres].
    cbn [rbind] in Eres.
    destruct (logical_and selected part_mask) as [value|e];
      [|discriminate Eres].
    cbn [rbind] in Eres. rewrite Eres. intros [= <- <-].
    exists mask, c, part_mask, calls.
    split; [reflexivity|].
    split; [exact Hcs|]. split; [reflexivity|]. split; [exact Hans|].
    split; [|now split].
    exact (answers_on_centroids Hnodes Hcs Hans).
  - destruct (getitem_mask mask mask) as [selected|e']; [|discriminate].
    cbn [rbind] in Eres.
    destruct (logical_and selected part_mask) as [value|e'];
      [|discriminate].
    cbn [rbind] in Eres. rewrite Eres. discriminate.
Qed.

(** ** The code at work on the unit interval and the unit square *)

Example boundary_of_square :
  Data.show (Mesh.boundary Data.square_mesh None [])
  = Ok ([5], [true; true; false; true; true]).
Proof. vm_compute. reflexivity. Qed.

Example left_and_right_of_square :
  Data.show (Mesh.boundary Data.square_mesh (Some Data.left_or_right) [])
  = Ok ([5], [false; true; false; true; false]).
Proof. vm_compute. reflexivity. Qed.

Example left_and_right_of_square_pointwise :
  Data.show (Mesh.boundary Data.square_mesh
               (Some Data.left_or_right_pointwise) [])
  = Ok ([5], [false; true; false; true; false])
  /\ List.map tolist (snd (Mesh.boundary Data.square_mesh
                             (Some Data.left_or_right_pointwise) []))
     = [[0.5; 0; 1; 0.5; 0; 0.5; 0.5; 1]; [0.5; 0]; [0; 0.5]; [1; 0.5];
        [0.5; 1]]%float.
Proof. split; vm_compute; reflexivity. Qed.

Example constant_field_at_midpoint :
  Data.show (FESpace.eval_dofs Data.interval_space
               (of_list 0%float [1; 1]%float) Data.midpoint 0 true [])
  = Ok ([1; 1], [1%float]).
Proof. vm_compute. reflexivity. Qed.

Example slope_of_linear_field :
  Data.show (FESpace.eval_dofs Data.interval_space Data.dofs_1_3
               Data.midpoint 1 true [])
  = Ok ([1; 1; 1], [2%float]).
Proof. vm_compute. reflexivity. Qed.

Example global_gradients_on_interval :
  Data.show (FESpace.eval_global_derivatives Data.interval_space
               Data.midpoint 1 [])
  = Ok ([1; 2; 1; 1], [1; -1]%float).
Proof. vm_compute. reflexivity. Qed.

Example quadrature_data_of_inverted_cell :
  (let '(r, _) := FESpace.get_quadrature_data Data.interval_space 1 [] in
   '(p, w, j) <- r ;; Ok (tolist p, tolist w, shape j, tolist j))
  = Ok ([0.5%float], [1%float], [1; 1], [1%float]).
Proof. vm_compute. reflexivity. Qed.

Example d0_on_triangle :
  Data.show (eval_basis (F := exactZ) (P1.__init__ 2) Data.triangle_vertices 0,
             @nil unit)
  = Ok ([3; 3], [1; 0; 0; 0; 1; 0; 0; 0; 1]%Z).
Proof. reflexivity. Qed.

Example d1_on_triangle :
  Data.show (eval_basis (F := exactZ) (P1.__init__ 2) Data.triangle_vertices 1,
             @nil unit)
  = Ok ([3; 3; 2],
        [-1; -1; -1; -1; -1; -1; 1; 0; 1; 0; 1; 0; 0; 1; 0; 1; 0; 1]%Z).
Proof. reflexivity. Qed.

Example sixteen_products_at_one_point :
  Data.show (FESpace.eval_dofs Data.sixteen_space Data.sixteen_dofs
               Data.midpoint 0 true [])
  = Ok ([1; 1], [0x1.0000000000007p+0%float]).
Proof. vm_compute. reflexivity. Qed.

Example sixteen_products_at_two_points :
  Data.show (FESpace.eval_dofs Data.sixteen_space Data.sixteen_dofs
               Data.two_points 0 true [])
  = Ok ([1; 2], [1; 1]%float).
Proof. vm_compute. reflexivity. Qed.

Example answers_in_a_row_refused :
  fst (Mesh.boundary Data.square_mesh (Some Data.answers_in_a_row) [])
  = Raise (TypeError
      "NumPy boolean array indexing assignment requires a 0 or 1-dimensional input"%string).
Proof. vm_compute. reflexivity. Qed.

Example points_of_too_high_dimension :
  eval_basis (F := exactZ) (P1.__init__ 1) Data.triangle_vertices 0
  = Raise (IndexError "tuple index out of range"%string).
Proof. reflexivity. Qed.

(** ** The theorems at concrete inputs *)

Lemma binary64_abs_never_negative : abs_never_negative binary64.
Proof.
  intros x. cbn [ltb absv binary64 zero].
  rewrite ltb_spec, abs_spec.
  destruct (Prim2SF x) as [s|s| |s m e]; reflexivity.
Qed.

Lemma eval_global_derivatives_first_order_witness :
  exists inv_jac local_derivatives,
    Mesh.jacobian_inverse (Mesh.ref_map (FESpace.mesh Data.interval_space))
                          Data.midpoint = Ok inv_jac /\
    shape inv_jac = [1; 1; 1; 1] /\
    eval_basis (FESpace.element Data.interval_space) Data.midpoint 1
    = Ok local_derivatives /\
    shape local_derivatives = [2; 1; 1] /\
    exists derivatives,
      FESpace.eval_global_derivatives Data.interval_space Data.midpoint 1 []
      = (Ok derivatives,
         [] ++ [FESpace.Call_jacobian_inverse (F := binary64) Data.midpoint;
                FESpace.Call_eval_basis (F := binary64) Data.midpoint 1]) /\
      shape derivatives = [1; 2; 1; 1] /\
      forall e b p j, e < 1 -> b < 2 -> p < 1 -> j < 1 ->
        item derivatives [e; b; p; j]
        = total (F := binary64)
            (List.map
                   (fun k => mul (item inv_jac [e; p; k; j])
                                 (item local_derivatives [b; p; k]))
                   (seq 0 1)).
Proof.
  do 2 eexists.
  split; [reflexivity|]. split; [reflexivity|].
  split; [reflexivity|]. split; [reflexivity|].
  apply (@eval_global_derivatives_first_order binary64 Data.interval_space
           Data.midpoint _ _ 1 2 1 1 []); reflexivity.
Defined.

Lemma get_quadrature_data_abs_determinants_witness :
  exists jac_dets,
    FESpace.get_quadrature_data Data.interval_space 1 []
    = (Ok (Data.midpoint, of_list 0%float [1%float], jac_dets),
       [] ++ [FESpace.Call_jacobian_determinant (F := binary64) Data.midpoint]) /\
    shape jac_dets = shape (full [1; 1] (-1)%float) /\
    forall idx,
      item jac_dets idx
      = absv (Scalar := binary64) (item (full [1; 1] (-1)%float) idx) /\
      ltb (Scalar := binary64) (item jac_dets idx) zero = false.
Proof.
  apply (@get_quadrature_data_abs_determinants binary64 Data.interval_space
           1%Z [] Data.midpoint (of_list 0%float [1%float])
           (full [1; 1] (-1)%float)).
  - exact binary64_abs_never_negative.
  - reflexivity.
  - reflexivity.
  - cbn. lia.
  - reflexivity.
Defined.

Lemma eval_global_derivatives_guard_witness :
  FESpace.eval_global_derivatives Data.interval_space Data.midpoint 3 []
  = (Raise (ValueError (FESpace.invalid_order_msg 3)), [])
  /\ forall e,
       fst (FESpace.eval_global_derivatives Data.interval_space
              Data.midpoint 1 []) = Raise e ->
       is_invalid_order e = false.
Proof.
  split.
  - apply (@eval_global_derivatives_guard binary64 Data.interval_space
             Data.midpoint 3%Z []); discriminate.
  - apply (@eval_global_derivatives_guard binary64 Data.interval_space
             Data.midpoint 1%Z []).
    + left. reflexivity.
    + intros e. cbn. discriminate.
    + intros e. vm_compute. discriminate.
Defined.

Lemma eval_dofs_not_supported_witness :
  (exists e,
     fst (FESpace.eval_dofs Data.interval_space Data.dofs_1_3
            Data.vertex_point 1 true []) = Raise e
     /\ is_NotImplementedError e = true)
  <->
  (true = false \/
   exists dim, size_axis0 Data.vertex_point = Ok dim /\
               dim < Mesh.dimension (FESpace.mesh Data.interval_space) /\
               (0 < 1)%Z).
Proof.
  apply (@eval_dofs_not_supported binary64 Data.interval_space Data.dofs_1_3
           Data.vertex_point 1%Z true []).
  - intros [|[|d]] e; cbn; try discriminate. intros [= <-]. reflexivity.
  - intros dv e. unfold eval_basis.
    destruct (dv =? 0)%Z; [vm_compute; discriminate|].
    destruct (dv =? 1)%Z; [vm_compute; discriminate|].
    destruct (dv =? 2)%Z; [vm_compute; discriminate|].
    intros [= <-]. reflexivity.
  - intros e. cbn. discriminate.
Defined.

Lemma P1_eval_basis_values_witness :
  exists basis,
    eval_basis (F := exactZ) (P1.__init__ 2) Data.triangle_vertices 0
    = Ok basis /\
    tuple_get (n_basis (self (P1.__init__ (F := exactZ) 2))) 2 = Ok (2 + 1) /\
    shape basis = [2 + 1; 3] /\
    forall p, p < 3 ->
      item basis [0; p]
      = sub one (total (List.map (fun i => item Data.triangle_vertices [i; p])
                                 (seq 0 2))) /\
      forall i, i < 2 -> item basis [i + 1; p] = item Data.triangle_vertices [i; p].
Proof.
  apply (@P1_eval_basis_values exactZ 2%Z Data.triangle_vertices 2 3).
  - lia.
  - reflexivity.
  - lia.
  - lia.
Defined.

Lemma Mesh_init_dimension_witness :
  shape Data.interval_nodes = [2; 1] /\
  exists mesh,
    Mesh.__init__ Data.interval_constructors Data.interval_nodes
                  Data.interval_cells = Ok mesh /\
    Mesh.dimension mesh = 1 /\
    Mesh.nodes mesh
    = Mesh.geometry_nodes (Data.interval_geometry Data.interval_nodes).
Proof.
  split; [reflexivity|].
  apply (proj2 (@Mesh_init_dimension binary64 Data.interval_constructors
                  Data.interval_nodes Data.interval_cells 2 1 eq_refl)
               (conj (le_n 1) (le_S 1 2 (le_S 1 1 (le_n 1))))
               (Data.interval_geometry Data.interval_nodes)
               (Data.interval_topology Data.interval_cells)
               Data.interval_ref_map);
    reflexivity.
Defined.

Lemma boundary_predicate_restricts_witness :
  exists mask' t1,
    Mesh.boundary Data.square_mesh (Some Data.left_or_right_pointwise) []
    = (Ok mask', t1) /\
    exists mask c part_mask calls,
      Mesh.boundary Data.square_mesh None [] = (Ok mask, []) /\
      facet_centroids (Mesh.nodes Data.square_mesh) Data.square_edges mask c /\
      t1 = [] ++ calls /\
      predicate_answers Data.left_or_right_pointwise c part_mask calls /\
      Forall (centroid_argument (Mesh.nodes Data.square_mesh)
                                Data.square_edges mask) calls /\
      shape mask' = shape mask /\
      (forall i, item mask' [i] = true -> item mask [i] = true) /\
      forall i, i < nth 0 (shape mask) 0 ->
        item mask' [i]
        = item mask [i]
          && item part_mask (bidx (shape part_mask) [boundary_rank mask i]).
Proof.
  do 2 eexists. split; [reflexivity|].
  apply (@boundary_predicate_restricts binary64 Data.square_mesh
           Data.left_or_right_pointwise Data.square_edges 4 2 5 2 []);
    reflexivity.
Defined.

Lemma eval_dofs_invalid_order_name_error_witness :
  exists e t1,
    FESpace.eval_dofs Data.interval_space Data.dofs_1_3 Data.midpoint 2 true []
    = (Raise e, t1) /\
    match FESpace.get_dof_map Data.interval_space
            (Mesh.dimension (FESpace.mesh Data.interval_space)) with
    | Raise e1 => e = e1
    | Ok dof_map =>
        match take (map (fun g => (g - 1)%Z) dof_map) Data.dofs_1_3 with
        | Raise e2 => e = e2
        | Ok _ => e = NameError "d"%string
                  /\ t1 = [] ++ [FESpace.Call_get_dof_map (F := binary64)
                                   (Mesh.dimension
                                      (FESpace.mesh Data.interval_space))]
        end
    end.
Proof.
  apply (@eval_dofs_invalid_order_name_error binary64 Data.interval_space
           Data.dofs_1_3 Data.midpoint 2%Z []).
  - discriminate.
  - discriminate.
  - reflexivity.
Defined.

(** * Further properties of the code *)

(** ** The P1 element *)

(** X1. [P1.__init__] for a dimension in 0..3: the order is 1; for every
    entity dimension k up to the element's, [n_basis[k]] and [n_verts[k]]
    are k + 1 and the degrees of freedom per entity are 1 on vertices and 0
    above; beyond the element's dimension the tuples have no entry. *)
Theorem P1_init_attributes (F : Scalar) (dimension : Z) :
  (0 <= dimension <= 3)%Z ->
  order (self (P1.__init__ dimension)) = 1%Z /\
  Element.dimension (self (P1.__init__ dimension)) = dimension /\
  (forall k, (Z.of_nat k <= dimension)%Z ->
     tuple_get (n_basis (self (P1.__init__ dimension))) k = Ok (k + 1) /\
     tuple_get (n_verts (self (P1.__init__ dimension))) k = Ok (k + 1) /\
     tuple_get (_dof_tuple (self (P1.__init__ dimension))) k
     = Ok (if k =? 0 then 1 else 0)) /\
  (forall k, (dimension < Z.of_nat k)%Z ->
     tuple_get (n_basis (self (P1.__init__ dimension))) k
     = Raise (IndexError "tuple index out of range"%string) /\
     tuple_get (_dof_tuple (self (P1.__init__ dimension))) k
     = Raise (IndexError "tuple index out of range"%string)).
Proof.
  intros Hd.
  assert (Hc : dimension = 0%Z \/ dimension = 1%Z \/ dimension = 2%Z
               \/ dimension = 3%Z) by lia.
  split; [reflexivity|]. split; [reflexivity|]. split.
  - intros k Hk.
    destruct Hc as [-> | [-> | [-> | ->]]];
      destruct k as [|[|[|[|k]]]]; try lia; repeat split; reflexivity.
  - intros k Hk.
    destruct Hc as [-> | [-> | [-> | ->]]];
      destruct k as [|[|[|[|[|k]]]]]; try lia; split; reflexivity.
Qed.

(** X2. The second derivatives of the P1 basis vanish: for points of
    dimension [nD] within the element's, [eval_basis(points, 2)] is the
    basis x points x dim x dim array of zeros. *)
Theorem P1_second_derivatives_vanish
  (F : Scalar) (dimension : Z) (points : ndarray sc) (nD nP : nat) :
  (0 <= dimension <= 3)%Z ->
  shape points = [nD; nP] ->
  (Z.of_nat nD <= dimension)%Z ->
  exists basis,
    eval_basis (P1.__init__ dimension) points 2 = Ok basis /\
    shape basis = [nD + 1; nP; nD; nD] /\
    forall idx, item basis idx = zero.
Proof.
  intros Hd Hs Hle.
  pose proof (@P1_n_basis F dimension nD Hd Hle) as HnB.
  unfold eval_basis. cbn [Z.eqb Pos.eqb cls self P1.__init__ P1.methods_P1 _eval_d2basis].
  unfold P1._eval_d2basis, P1.unpack_shape2. rewrite Hs. cbn [rbind].
  change (Element.n_basis _) with (n_basis (self (P1.__init__ dimension))).
  rewrite HnB. cbn [rbind].
  eexists. split; [reflexivity|]. split; reflexivity.
Qed.

(** Beyond the element's dimension [n_basis] has no entry. *)
Lemma P1_n_basis_beyond (F : Scalar) (dimension : Z) (nD : nat) :
  (0 <= dimension <= 3)%Z -> (dimension < Z.of_nat nD)%Z ->
  tuple_get (n_basis (self (P1.__init__ (F := F) dimension))) nD
  = Raise (IndexError "tuple index out of range"%string).
Proof.
  intros Hd Hlt.
  assert (Hc : dimension = 0%Z \/ dimension = 1%Z \/ dimension = 2%Z
               \/ dimension = 3%Z) by lia.
  destruct Hc as [-> | [-> | [-> | ->]]];
    destruct nD as [|[|[|[|[|nD]]]]]; try lia; reflexivity.
Qed.

(** X3. What the P1 evaluators reject, for every order 0, 1, 2: points
    of more coordinates than the element has dimensions end in
    [IndexError] (the lookup [n_basis[nD]]), and points that are not a
    two-dimensional array end in [ValueError] (the unpacking of their
    shape). *)
Theorem P1_eval_basis_rejects
  (F : Scalar) (dimension deriv : Z) (points : ndarray sc) :
  (0 <= dimension <= 3)%Z ->
  (0 <= deriv <= 2)%Z ->
  (forall nD nP, shape points = [nD; nP] -> (dimension < Z.of_nat nD)%Z ->
     eval_basis (P1.__init__ dimension) points deriv
     = Raise (IndexError "tuple index out of range"%string)) /\
  (length (shape points) <> 2 ->
     eval_basis (P1.__init__ dimension) points deriv
     = Raise (ValueError "wrong number of values to unpack"%string)).
Proof.
  intros Hd Hderiv.
  assert (Hv : deriv = 0%Z \/ deriv = 1%Z \/ deriv = 2%Z) by lia.
  split.
  - intros nD nP Hs Hlt.
    assert (Hg : tuple_get (n_basis (self (P1.__init__ (F := F) dimension))) nD
                 = Raise (IndexError "tuple index out of range"%string)).
    { now apply P1_n_basis_beyond. }
    destruct Hv as [-> | [-> | ->]]; unfold eval_basis;
      cbn [Z.eqb Pos.eqb cls self P1.__init__ P1.methods_P1
           _eval_d0basis _eval_d1basis _eval_d2basis];
      unfold P1._eval_d0basis, P1._eval_d1basis, P1._eval_d2basis,
        P1.unpack_shape2; rewrite Hs; cbn [rbind];
      change (Element.n_basis _) with (n_basis (self (P1.__init__ dimension)));
      rewrite Hg; reflexivity.
  - intros Hlen.
    destruct Hv as [-> | [-> | ->]]; unfold eval_basis;
      cbn [Z.eqb Pos.eqb cls self P1.__init__ P1.methods_P1
           _eval_d0basis _eval_d1basis _eval_d2basis];
      unfold P1._eval_d0basis, P1._eval_d1basis, P1._eval_d2basis,
        P1.unpack_shape2;
      destruct (shape points) as [|? [|? [|? ?]]]; cbn in Hlen; try lia;
      reflexivity.
Qed.

(** X4. The P1 basis is nodal: evaluated at the vertices of the reference
    simplex of dimension 1, 2 or 3, basis function b is one at vertex b and
    zero at every other vertex. Only facts about 0 and 1 are used, which
    hold in binary64. *)
Theorem P1_basis_is_nodal (F : Scalar) (d : nat) :
  zero_one_laws F ->
  1 <= d <= 3 ->
  exists basis,
    eval_basis (P1.__init__ (Z.of_nat d)) (reference_vertices d) 0 = Ok basis /\
    shape basis = [d + 1; d + 1] /\
    forall b p, b <= d -> p <= d ->
      item basis [b; p] = if b =? p then one else zero.
Proof.
  intros [L1 L2 L3 L4 L5] Hd.
  destruct (@P1_d0_entries F (Z.of_nat d) (reference_vertices d) d (d + 1))
    as (basis & E & Hb & I); [lia|reflexivity|lia|].
  exists basis. split; [exact E|]. split; [exact Hb|].
  intros b p Hbd Hpd. rewrite (I b p) by lia.
  assert (Hc : d = 1 \/ d = 2 \/ d = 3) by lia.
  destruct Hc as [-> | [-> | ->]];
    repeat (destruct b as [|b]; [|try lia]);
    repeat (destruct p as [|p]; [|try lia]);
    try lia; cbn; unfold total; cbn;
    rewrite ?L1, ?L2, ?L3, ?L1, ?L2, ?L3, ?L4, ?L5; reflexivity.
Qed.

Lemma binary64_zero_one_laws : zero_one_laws binary64.
Proof. split; reflexivity. Qed.

(** ** Contractions and gathers of the space *)

(** Rewrites the clamped positions of a broadcast operand that are within
    bounds. *)
Ltac unclamp :=
  repeat match goal with
         | |- context [if ?n =? 1 then 0 else ?i] =>
             rewrite (@clamp_lt n i) by lia
         end.

Section Contractions.
Context {F : Scalar}.

(** The contraction of [eval_global_derivatives] for first derivatives. *)
Lemma contract_first_order (inv_jac ld : ndarray sc) (nE nB nP nD : nat) :
  shape inv_jac = [nE; nP; nD; nD] ->
  shape ld = [nB; nP; nD] ->
  exists d,
    (a <- getitem [Slice; NewAxis; Slice; Slice; Slice] inv_jac ;;
     b <- getitem [NewAxis; Slice; Slice; Slice; NewAxis] ld ;;
     prod <- multiply a b ;;
     sum (-2) prod) = Ok d /\
    shape d = [nE; nB; nP; nD] /\
    forall e b p j, e < nE -> b < nB -> p < nP -> j < nD ->
      item d [e; b; p; j]
      = total (List.map (fun k => mul (item inv_jac [e; p; k; j])
                                      (item ld [b; p; k]))
                        (seq 0 nD)).
Proof.
  intros Hinv Hloc.
  unfold getitem. rewrite Hinv, Hloc. cbn [index_shape rbind].
  unfold multiply, binop. cbn [shape].
  unfold broadcast_shapes. cbn [length Nat.max pad Nat.sub repeat app bzip].
  rewrite !bdim_1_r, !bdim_1_l, !bdim_refl. cbn [rbind].
  unfold sum, ndim, norm_axis. cbn [shape length].
  change (norm_index (-2) 5) with (Some 3). cbn [rbind remove_at nth].
  eexists. split; [reflexivity|]. split; [reflexivity|].
  intros e b p j He Hb Hp Hj. cbn [item innermost skipn forallb].
  rewrite add_reduce_contraction. f_equal.
  apply map_ext_in. intros k Hk. apply in_seq in Hk.
  cbn. rewrite !clamp_lt by lia. reflexivity.
Qed.

(** The two contractions of [eval_global_derivatives] for second
    derivatives. *)
Lemma contract_second_order (inv_jac ld : ndarray sc) (nE nB nP nD : nat) :
  shape inv_jac = [nE; nP; nD; nD] ->
  shape ld = [nB; nP; nD; nD] ->
  exists d,
    (inv_jac_T <- swapaxes (-2) (-1) inv_jac ;;
     a <- getitem [Slice; NewAxis; Slice; Slice; Slice; NewAxis] inv_jac_T ;;
     b <- getitem [NewAxis; Slice; Slice; NewAxis; Slice; Slice] ld ;;
     prod <- multiply a b ;;
     derivatives <- sum (-2) prod ;;
     c <- getitem [Slice; Slice; Slice; Slice; Slice; NewAxis] derivatives ;;
     e <- getitem [Slice; NewAxis; Slice; NewAxis; Slice; Slice] inv_jac ;;
     prod <- multiply c e ;;
     sum (-2) prod) = Ok d /\
    shape d = [nE; nB; nP; nD; nD] /\
    forall e b p i j, e < nE -> b < nB -> p < nP -> i < nD -> j < nD ->
      item d [e; b; p; i; j]
      = total (List.map
                 (fun l =>
                    mul (total (List.map
                                  (fun k => mul (item inv_jac [e; p; k; i])
                                                (item ld [b; p; k; l]))
                                  (seq 0 nD)))
                        (item inv_jac [e; p; l; j]))
                 (seq 0 nD)).
Proof.
  intros Hinv Hloc.
  unfold swapaxes, ndim, norm_axis. rewrite Hinv. cbn [length].
  change (norm_index (-2) 4) with (Some 2).
  change (norm_index (-1) 4) with (Some 3). cbn [rbind].
  unfold getitem. cbn [shape]. rewrite Hinv, Hloc.
  cbn [swap_at length seq List.map Nat.eqb nth index_shape rbind].
  unfold multiply, binop. cbn [shape].
  unfold broadcast_shapes. cbn [length Nat.max pad Nat.sub repeat app bzip].
  rewrite !bdim_1_r, !bdim_1_l, !bdim_refl. cbn [rbind].
  unfold sum, ndim, norm_axis. cbn [shape length].
  change (norm_index (-2) 6) with (Some 4). cbn [rbind remove_at nth shape].
  cbn [index_shape rbind length Nat.max pad Nat.sub repeat app bzip].
  rewrite !bdim_1_r, !bdim_1_l, !bdim_refl. cbn [rbind shape length].
  change (norm_index (-2) 6) with (Some 4). cbn [rbind remove_at nth shape].
  eexists. split; [reflexivity|]. split; [reflexivity|].
  intros e b p i j He Hb Hp Hi Hj. cbn [item innermost skipn forallb].
  rewrite add_reduce_contraction. f_equal.
  apply map_ext_in. intros l Hl. apply in_seq in Hl.
  cbn [item index_source hd tl]. rewrite add_reduce_contraction.
  cbn. unclamp. f_equal. f_equal.
  apply map_ext_in. intros k Hk. apply in_seq in Hk.
  unclamp. reflexivity.
Qed.
End Contractions.

Lemma indices_in_bounds (sh : list nat) : forall idx : list nat,
  In idx (indices sh) -> in_bounds sh idx = true.
Proof.
  induction sh as [|n sh IH]; intros idx; cbn.
  - intros [<- | []]. reflexivity.
  - intros H. apply in_flat_map in H as (i & Hi & H).
    apply in_map_iff in H as (idx' & <- & H). apply in_seq in Hi.
    cbn. rewrite (IH _ H), andb_true_r. apply Nat.ltb_lt. lia.
Qed.

Lemma norm_index_nonneg (i : Z) (n : nat) :
  (0 <= i < Z.of_nat n)%Z -> norm_index i n = Some (Z.to_nat i).
Proof.
  intros H. unfold norm_index.
  destruct (Z.ltb_spec i 0); [lia|].
  destruct (Z.leb_spec 0 i); [|lia].
  destruct (Z.ltb_spec i (Z.of_nat n)); [|lia]. reflexivity.
Qed.

Section Combinations.
Context {F : Scalar}.

(** [dofs.take(indices=dof_map-1, axis=0)] for a table of global indices
    numbered from 1. *)
Lemma gather_dofs (dof_map : ndarray Z) (dofs : ndarray sc) (nB nE nDof : nat) :
  shape dof_map = [nB; nE] ->
  shape dofs = [nDof] ->
  (forall b e, b < nB -> e < nE ->
     (1 <= item dof_map [b; e] <= Z.of_nat nDof)%Z) ->
  exists values,
    take (map (fun g => (g - 1)%Z) dof_map) dofs = Ok values /\
    shape values = [nB; nE] /\
    forall b e, b < nB -> e < nE ->
      item values [b; e] = item dofs [Z.to_nat (item dof_map [b; e] - 1)].
Proof.
  intros Hmap Hdofs Hvalid. unfold take. rewrite Hdofs. cbn [shape map].
  rewrite Hmap.
  assert (Hall : forallb
            (fun i => match norm_index (item (map (fun g => (g - 1)%Z) dof_map) i) nDof with
                      | Some _ => true | None => false end)
            (indices [nB; nE]) = true).
  { apply forallb_forall. intros idx Hin. apply indices_in_bounds in Hin.
    destruct idx as [|b [|e [|? ?]]]; cbn [in_bounds] in Hin;
      try discriminate; try (rewrite !andb_false_r in Hin; discriminate).
    apply andb_prop in Hin as [Hb He]. rewrite andb_true_r in He.
    apply Nat.ltb_lt in Hb, He. cbn [item map].
    rewrite norm_index_nonneg; [reflexivity|].
    specialize (Hvalid b e Hb He). lia. }
  rewrite Hall. eexists. split; [reflexivity|]. split; [reflexivity|].
  intros b e Hb He. cbn [item length firstn skipn map].
  rewrite norm_index_nonneg; [reflexivity|].
  specialize (Hvalid b e Hb He). lia.
Qed.

(** The weighted sum of [eval_dofs] for values. *)
Lemma combine_values (values basis : ndarray sc) (nB nE nP : nat) :
  shape values = [nB; nE] ->
  shape basis = [nB; nP] ->
  exists U,
    (a <- getitem [Slice; Slice; NewAxis] values ;;
     b <- getitem [Slice; NewAxis; Slice] basis ;;
     prod <- multiply a b ;;
     sum 0 prod) = Ok U /\
    shape U = [nE; nP] /\
    forall e p, e < nE -> p < nP ->
      item U [e; p]
      = add_reduce ((nE =? 1) && (nP =? 1))
          (List.map (fun b => mul (item values [b; e]) (item basis [b; p]))
                    (seq 0 nB)).
Proof.
  intros Hv Hb.
  unfold getitem. rewrite Hv, Hb. cbn [index_shape rbind].
  unfold multiply, binop. cbn [shape].
  unfold broadcast_shapes. cbn [length Nat.max pad Nat.sub repeat app bzip].
  rewrite ?bdim_1_r, ?bdim_1_l, ?bdim_refl. cbn [rbind].
  unfold sum, ndim, norm_axis. cbn [shape length].
  change (norm_index 0 3) with (Some 0). cbn [rbind remove_at nth].
  eexists. split; [reflexivity|]. split; [reflexivity|].
  intros e p He Hp. cbn [item innermost skipn forallb].
  rewrite andb_true_r, (Nat.eqb_sym 1 nE), (Nat.eqb_sym 1 nP). f_equal.
  apply map_ext_in. intros b Hin. apply in_seq in Hin.
  cbn. unclamp. reflexivity.
Qed.

(** The weighted sum of [eval_dofs] for first derivatives. *)
Lemma combine_gradients (values G : ndarray sc) (nB nE nP nD : nat) :
  shape values = [nB; nE] ->
  shape G = [nE; nB; nP; nD] ->
  exists U,
    (a <- getitem [Slice; Slice; NewAxis; NewAxis] (transpose values) ;;
     prod <- multiply a G ;;
     sum 1 prod) = Ok U /\
    shape U = [nE; nP; nD] /\
    forall e p j, e < nE -> p < nP -> j < nD ->
      item U [e; p; j]
      = add_reduce ((nP =? 1) && (nD =? 1))
          (List.map (fun b => mul (item values [b; e]) (item G [e; b; p; j]))
                    (seq 0 nB)).
Proof.
  intros Hv HG.
  unfold getitem, transpose. cbn [shape]. rewrite Hv. cbn [rev app index_shape rbind].
  unfold multiply, binop. cbn [shape]. rewrite HG.
  unfold broadcast_shapes. cbn [length Nat.max pad Nat.sub repeat app bzip].
  rewrite ?bdim_1_r, ?bdim_1_l, ?bdim_refl. cbn [rbind].
  unfold sum, ndim, norm_axis. cbn [shape length].
  change (norm_index 1 4) with (Some 1). cbn [rbind remove_at nth].
  eexists. split; [reflexivity|]. split; [reflexivity|].
  intros e p j He Hp Hj. cbn [item innermost skipn forallb].
  rewrite andb_true_r, (Nat.eqb_sym 1 nP), (Nat.eqb_sym 1 nD). f_equal.
  apply map_ext_in. intros b Hin. apply in_seq in Hin.
  cbn. unclamp. reflexivity.
Qed.
End Combinations.

(** X5. With [deriv = 2], for an inverse Jacobian of shape
    cells x points x dim x dim and local second derivatives of shape
    basis x points x dim x dim, [eval_global_derivatives] returns the
    cells x basis x points x dim x dim array whose entry (e, b, p, i, j) is
    the sum over l of (the sum over k of [inv_jac[e,p,k,i]] times
    [local[b,p,k,l]]) times [inv_jac[e,p,l,j]]. *)
Theorem eval_global_derivatives_second_order
  (F : Scalar) (self : FESpace.t) (points inv_jac local_derivatives : ndarray sc)
  (nE nB nP nD : nat) (t0 : list FESpace.event) :
  Mesh.jacobian_inverse (Mesh.ref_map (FESpace.mesh self)) points = Ok inv_jac ->
  shape inv_jac = [nE; nP; nD; nD] ->
  eval_basis (FESpace.element self) points 2 = Ok local_derivatives ->
  shape local_derivatives = [nB; nP; nD; nD] ->
  exists derivatives,
    FESpace.eval_global_derivatives self points 2 t0
    = (Ok derivatives,
       t0 ++ [FESpace.Call_jacobian_inverse points;
              FESpace.Call_eval_basis points 2]) /\
    shape derivatives = [nE; nB; nP; nD; nD] /\
    forall e b p i j, e < nE -> b < nB -> p < nP -> i < nD -> j < nD ->
      item derivatives [e; b; p; i; j]
      = total (List.map
                 (fun l =>
                    mul (total (List.map
                                  (fun k => mul (item inv_jac [e; p; k; i])
                                                (item local_derivatives [b; p; k; l]))
                                  (seq 0 nD)))
                        (item inv_jac [e; p; l; j]))
                 (seq 0 nD)).
Proof.
  intros Hcall_inv Hinv Hcall_loc Hloc.
  destruct (contract_second_order inv_jac local_derivatives Hinv Hloc)
    as (d & E & Hd & Hentries).
  unfold FESpace.eval_global_derivatives. cbn [Z.eqb orb negb Pos.eqb].
  unfold bind, call, lift. rewrite Hcall_inv, Hcall_loc, E.
  exists d. split; [now rewrite <- app_assoc|]. split; assumption.
Qed.

(** X6. [eval_dofs] with [deriv = 0]: for a table of global indices
    (numbered from 1, all within the vector of degrees of freedom) of shape
    basis x entities and basis values of shape basis x points, the result
    is the entities x points array whose entry (e, p) is the sum over b of
    [dofs[dof_map[b,e] - 1]] times [basis[b,p]]; the manager is asked first,
    then the element. The products are added the way NumPy reduces the
    basis axis: one after the other from 0, except for a single entity
    and a single point, where they lie one after the other in memory and,
    from 8 basis functions on, are summed pairwise. *)
Theorem eval_dofs_values
  (F : Scalar) (self : FESpace.t) (dofs points basis : ndarray sc)
  (dof_map : ndarray Z) (dim nB nE nP nDof : nat) (t0 : list FESpace.event) :
  size_axis0 points = Ok dim ->
  FESpace.get_dof_map self dim = Ok dof_map ->
  shape dof_map = [nB; nE] ->
  shape dofs = [nDof] ->
  (forall b e, b < nB -> e < nE ->
     (1 <= item dof_map [b; e] <= Z.of_nat nDof)%Z) ->
  eval_basis (FESpace.element self) points 0 = Ok basis ->
  shape basis = [nB; nP] ->
  exists U,
    FESpace.eval_dofs self dofs points 0 true t0
    = (Ok U, t0 ++ [FESpace.Call_get_dof_map dim;
                    FESpace.Call_eval_basis points 0]) /\
    shape U = [nE; nP] /\
    forall e p, e < nE -> p < nP ->
      item U [e; p]
      = add_reduce ((nE =? 1) && (nP =? 1))
          (List.map
             (fun b => mul (item dofs [Z.to_nat (item dof_map [b; e] - 1)])
                           (item basis [b; p]))
             (seq 0 nB)).
Proof.
  intros Hsize Hget Hmap Hdofs Hvalid Hbasis Hshape.
  destruct (gather_dofs dof_map dofs Hmap Hdofs Hvalid)
    as (values & Etake & Hv & Hvalues).
  destruct (combine_values values basis Hv Hshape) as (U & EU & HU & Hentries).
  unfold FESpace.eval_dofs. cbn [negb Z.eqb Z.ltb Z.compare].
  unfold bind, call, lift. rewrite Hsize, andb_false_r, Hget, Etake, Hbasis, EU.
  exists U. split; [now rewrite <- app_assoc|]. split; [assumption|].
  intros e p He Hp. rewrite (Hentries e p He Hp). f_equal.
  apply map_ext_in. intros b Hin. apply in_seq in Hin.
  rewrite Hvalues by lia. reflexivity.
Qed.

(** X7. [eval_dofs] with [deriv = 1], on points of the mesh's dimension:
    with global derivatives [G] of shape cells x basis x points x dim, the
    result is the cells x points x dim array whose entry (e, p, j) is the
    sum over b of [dofs[dof_map[b,e] - 1]] times [G[e,b,p,j]]. The
    products are added the way NumPy reduces the basis axis: one after
    the other from 0, except for a single point on a mesh of one spatial
    axis, where they lie one after the other in memory and, from 8 basis
    functions on, are summed pairwise. *)
Theorem eval_dofs_gradients
  (F : Scalar) (self : FESpace.t) (dofs points G : ndarray sc)
  (dof_map : ndarray Z) (dim nB nE nP nD nDof : nat)
  (t0 t1 : list FESpace.event) :
  size_axis0 points = Ok dim ->
  Mesh.dimension (FESpace.mesh self) <= dim ->
  FESpace.get_dof_map self dim = Ok dof_map ->
  shape dof_map = [nB; nE] ->
  shape dofs = [nDof] ->
  (forall b e, b < nB -> e < nE ->
     (1 <= item dof_map [b; e] <= Z.of_nat nDof)%Z) ->
  FESpace.eval_global_derivatives self points 1
    (t0 ++ [FESpace.Call_get_dof_map dim]) = (Ok G, t1) ->
  shape G = [nE; nB; nP; nD] ->
  exists U,
    FESpace.eval_dofs self dofs points 1 true t0 = (Ok U, t1) /\
    shape U = [nE; nP; nD] /\
    forall e p j, e < nE -> p < nP -> j < nD ->
      item U [e; p; j]
      = add_reduce ((nP =? 1) && (nD =? 1))
          (List.map
             (fun b => mul (item dofs [Z.to_nat (item dof_map [b; e] - 1)])
                           (item G [e; b; p; j]))
             (seq 0 nB)).
Proof.
  intros Hsize Hdim Hget Hmap Hdofs Hvalid Hglobal HG.
  destruct (gather_dofs dof_map dofs Hmap Hdofs Hvalid)
    as (values & Etake & Hv & Hvalues).
  destruct (combine_gradients values G Hv HG) as (U & EU & HU & Hentries).
  unfold FESpace.eval_dofs. cbn [negb Z.eqb Pos.eqb].
  unfold bind at 1. unfold lift at 1. rewrite Hsize.
  destruct (Nat.ltb_spec dim (Mesh.dimension (FESpace.mesh self))); [lia|].
  cbn [andb]. unfold bind at 1. unfold call at 1. rewrite Hget.
  unfold bind at 1. unfold lift at 1. rewrite Etake.
  unfold bind at 1. rewrite Hglobal. unfold lift. rewrite EU.
  exists U. split; [reflexivity|]. split; [assumption|].
  intros e p j He Hp Hj. rewrite (Hentries e p j He Hp Hj). f_equal.
  apply map_ext_in. intros b Hin. apply in_seq in Hin.
  rewrite Hvalues by lia. reflexivity.
Qed.

(** X8. [eval_dofs] refuses before it calls anything: with
    [local = False], and for a derivative on points of fewer coordinates
    than the mesh has dimensions, the log of calls is unchanged; points
    without any axis end in the exception of [np.size]. *)
Theorem eval_dofs_refuses_before_any_call
  (F : Scalar) (self : FESpace.t) (dofs points : ndarray sc)
  (deriv : Z) (t0 : list FESpace.event) :
  FESpace.eval_dofs self dofs points deriv false t0
  = (Raise (NotImplementedError EmptyString), t0)
  /\
  (forall dim, size_axis0 points = Ok dim ->
     dim < Mesh.dimension (FESpace.mesh self) -> (0 < deriv)%Z ->
     FESpace.eval_dofs self dofs points deriv true t0
     = (Raise (NotImplementedError
                 "Higher order derivatives for traces not supported!"%string),
        t0))
  /\
  (forall e, size_axis0 points = Raise e ->
     FESpace.eval_dofs self dofs points deriv true t0 = (Raise e, t0)).
Proof.
  split; [reflexivity|]. split.
  - intros dim Hsize Hlt Hder.
    unfold FESpace.eval_dofs, bind, lift. cbn [negb]. rewrite Hsize.
    apply Nat.ltb_lt in Hlt. apply Z.ltb_lt in Hder. now rewrite Hlt, Hder.
  - intros e Hsize.
    unfold FESpace.eval_dofs, bind, lift. cbn [negb]. now rewrite Hsize.
Qed.

(** X9. When the quadrature rule of dimension [d] has no point
    ([qpoints.size = 0]), [get_quadrature_data(d)] does not call the
    reference map: the determinants returned are the entities x 1 array of
    ones, and a failing lookup of the number of entities is the failure of
    the call. *)
Theorem get_quadrature_data_empty_rule
  (F : Scalar) (self : FESpace.t) (d : Z) (t0 : list FESpace.event)
  (qpoints qweights : ndarray sc) :
  FESpace.points (FESpace.quad_rule self) d = Ok qpoints ->
  FESpace.weights (FESpace.quad_rule self) d = Ok qweights ->
  size qpoints = 0 ->
  (forall nE, Mesh.n_entities (Mesh.topology (FESpace.mesh self)) d = Ok nE ->
     exists jac_dets,
       FESpace.get_quadrature_data self d t0
       = (Ok (qpoints, qweights, jac_dets), t0) /\
       shape jac_dets = [nE; 1] /\
       forall idx, item jac_dets idx = one)
  /\
  (forall e, Mesh.n_entities (Mesh.topology (FESpace.mesh self)) d = Raise e ->
     FESpace.get_quadrature_data self d t0 = (Raise e, t0)).
Proof.
  intros Hp Hw Hsize. split.
  - intros nE HnE.
    unfold FESpace.get_quadrature_data, bind, lift, call, ret.
    rewrite Hp, Hw, Hsize. cbn [Nat.ltb Nat.leb]. rewrite HnE.
    eexists. split; [reflexivity|]. split; reflexivity.
  - intros e HnE.
    unfold FESpace.get_quadrature_data, bind, lift, call, ret.
    rewrite Hp, Hw, Hsize. cbn [Nat.ltb Nat.leb]. now rewrite HnE.
Qed.

(** X10. The order of the calls of [eval_global_derivatives]: when the
    reference map raises, the element is never asked; when the element
    raises, the reference map has been asked before; in both cases the
    exception is the outcome. *)
Theorem eval_global_derivatives_propagates
  (F : Scalar) (self : FESpace.t) (points : ndarray sc) (deriv : Z)
  (t0 : list FESpace.event) (e : exn) :
  deriv = 1%Z \/ deriv = 2%Z ->
  (Mesh.jacobian_inverse (Mesh.ref_map (FESpace.mesh self)) points = Raise e ->
   FESpace.eval_global_derivatives self points deriv t0
   = (Raise e, t0 ++ [FESpace.Call_jacobian_inverse points]))
  /\
  (forall inv_jac,
     Mesh.jacobian_inverse (Mesh.ref_map (FESpace.mesh self)) points = Ok inv_jac ->
     eval_basis (FESpace.element self) points deriv = Raise e ->
     FESpace.eval_global_derivatives self points deriv t0
     = (Raise e, t0 ++ [FESpace.Call_jacobian_inverse points;
                        FESpace.Call_eval_basis points deriv])).
Proof.
  intros Hd. split.
  - intros Hinv. unfold FESpace.eval_global_derivatives, bind, call.
    destruct Hd as [-> | ->]; cbn [Z.eqb Pos.eqb orb negb]; now rewrite Hinv.
  - intros inv_jac Hinv Hloc.
    unfold FESpace.eval_global_derivatives, bind, call.
    destruct Hd as [-> | ->]; cbn [Z.eqb Pos.eqb orb negb];
      rewrite Hinv, Hloc; now rewrite <- app_assoc.
Qed.

(** ** Construction and boundary of the mesh *)

(** X11. Nodes given as a flat list of [n] coordinates are read by
    [np.atleast_2d] as a single node with [n] coordinates: the mesh built has
    dimension [n], and the construction fails unless [n] is 1, 2 or 3. *)
Theorem Mesh_init_flat_nodes
  (F : Scalar) (C : Mesh.constructors) (nodes : ndarray sc)
  (connectivity : ndarray Z) (n : nat) :
  shape nodes = [n] ->
  shape (atleast_2d nodes) = [1; n] /\
  (forall j, item (atleast_2d nodes) [0; j] = item nodes [j]) /\
  (~ (1 <= n <= 3) ->
   Mesh.__init__ C nodes connectivity = Raise AssertionError) /\
  (1 <= n <= 3 ->
   forall geometry topology ref_map,
     Mesh.new_MeshGeometry C (atleast_2d nodes) = Ok geometry ->
     Mesh.new_MeshTopology C connectivity n = Ok topology ->
     Mesh.new_ReferenceMap C n geometry topology = Ok ref_map ->
     exists mesh,
       Mesh.__init__ C nodes connectivity = Ok mesh /\
       Mesh.dimension mesh = n).
Proof.
  intros Hs.
  assert (Hat : shape (atleast_2d nodes) = [1; n]).
  { unfold atleast_2d. now rewrite Hs. }
  split; [exact Hat|]. split.
  { intros j. unfold atleast_2d. now rewrite Hs. }
  unfold Mesh.__init__. rewrite Hat. cbn [tuple_get nth_error rbind].
  split.
  - intros Hn.
    destruct (Nat.leb_spec 1 n), (Nat.leb_spec n 3); cbn [andb];
      try reflexivity. lia.
  - intros Hn geometry topology ref_map Hg Ht Hr.
    destruct (Nat.leb_spec 1 n), (Nat.leb_spec n 3); try lia.
    cbn [andb]. rewrite Hg. cbn [rbind]. rewrite Ht. cbn [rbind].
    rewrite Hr. cbn [rbind]. eexists. split; reflexivity.
Qed.

Section BoundaryRuns.
Context {F : Scalar}.
Variable self : Mesh.t.
Variable fnc : Mesh.predicate.
Variables mask : ndarray bool.
Variable c : ndarray sc.
Variable n : nat.
Hypothesis Hmask : shape mask = [n].

(** The last three statements of [boundary]: the answers replace the true
    entries of the boundary mask, in order. *)
Lemma restrict_mask (part_mask : ndarray bool) :
  shape part_mask = [length (true_positions mask)] \/ shape part_mask = [] ->
  exists mask',
    (selected <- getitem_mask mask mask ;;
     value <- logical_and selected part_mask ;;
     setitem_mask mask mask value) = Ok mask' /\
    shape mask' = [n] /\
    forall i, i < n ->
      item mask' [i]
      = item mask [i] && item part_mask (bidx (shape part_mask) [boundary_rank mask i]).
Proof.
  intros Hpm.
  assert (Hpos : true_positions mask = filter (fun k => item mask [k]) (seq 0 n)).
  { unfold true_positions. now rewrite Hmask. }
  unfold getitem_mask. rewrite Hmask, Nat.eqb_refl. cbn [rbind].
  unfold logical_and, binop. cbn [shape].
  assert (Hbs : broadcast_shapes [length (true_positions mask)] (shape part_mask)
                = Some [length (true_positions mask)]).
  { destruct Hpm as [-> | ->]; unfold broadcast_shapes;
      cbn [length Nat.max pad Nat.sub repeat app bzip];
      now rewrite ?bdim_refl, ?bdim_1_r. }
  rewrite Hbs. cbn [rbind]. unfold setitem_mask. cbn [shape].
  rewrite Hmask, Nat.eqb_refl, can_broadcast_refl.
  eexists. split; [reflexivity|]. split; [reflexivity|].
  intros i Hi. cbn [item hd]. fold (boundary_rank mask i).
  destruct (item mask [i]) eqn:Hmi; [|reflexivity].
  assert (Hr : boundary_rank mask i < length (true_positions mask)).
  { rewrite Hpos. unfold boundary_rank.
    now apply (rank_lt (fun k => item mask [k])). }
  assert (Hb : bidx [length (true_positions mask)] [boundary_rank mask i]
               = [boundary_rank mask i]).
  { apply bidx_in_bounds. cbn [in_bounds].
    now rewrite (proj2 (Nat.ltb_lt _ _) Hr). }
  cbn [andb]. unfold vidx. cbn [length Nat.sub repeat app skipn].
  rewrite !Hb. cbn [hd].
  rewrite Hpos, (nth_filter_true (fun k => item mask [k])); [reflexivity|].
  rewrite <- Hpos. exact Hr.
Qed.
End BoundaryRuns.

(** X12. When the predicate accepts the centroids all at once and answers
    with one truth value per boundary facet, it is called exactly once, and
    facet i is in the result exactly when it is a boundary facet and the
    answer at its position among the boundary facets is true. *)
Theorem boundary_vectorised_predicate
  (F : Scalar) (self : Mesh.t) (fnc : Mesh.predicate)
  (mask part_mask : ndarray bool) (c : ndarray sc) (n : nat)
  (t0 : list (ndarray sc)) :
  Mesh.get_boundary (Mesh.topology self) (Z.of_nat (Mesh.dimension self) - 1)
  = Ok mask ->
  shape mask = [n] ->
  Mesh.boundary_centroids self mask = Ok c ->
  fnc (transpose c) = Ok part_mask ->
  shape part_mask = [length (true_positions mask)] ->
  exists mask',
    Mesh.boundary self (Some fnc) t0 = (Ok mask', t0 ++ [transpose c]) /\
    shape mask' = [n] /\
    forall i, i < n ->
      item mask' [i] = item mask [i] && item part_mask [boundary_rank mask i].
Proof.
  intros Hget Hmask Hc Hf Hpm.
  destruct (@restrict_mask mask n Hmask part_mask (or_introl Hpm))
    as (mask' & E & Hs & Hitems).
  unfold Mesh.boundary, bind, lift, try_except, call.
  rewrite Hget, Hc, Hf.
  destruct (getitem_mask mask mask) as [selected|e]; [|discriminate E].
  cbn [rbind] in E.
  destruct (logical_and selected part_mask) as [value|e]; [|discriminate E].
  cbn [rbind] in E. rewrite E.
  exists mask'. split; [reflexivity|]. split; [exact Hs|].
  intros i Hi. rewrite (Hitems i Hi).
  destruct (item mask [i]) eqn:Hmi; [|reflexivity]. cbn [andb].
  rewrite Hpm, bidx_in_bounds; [reflexivity|].
  cbn [in_bounds]. rewrite andb_true_r. apply Nat.ltb_lt.
  unfold true_positions. rewrite Hmask. cbn [nth].
  now apply (rank_lt (fun k => item mask [k])).
Qed.

Section Fallback.
Context {F : Scalar}.
Variable fnc : Mesh.predicate.
Variable c : ndarray sc.
Variables nBF D : nat.
Hypothesis Hc : shape c = [nBF; D].
Hypothesis Hpointwise :
  forall k r, k < nBF -> getitem [Int (Z.of_nat k); Slice] c = Ok r ->
    exists v, fnc r = Ok v /\ shape v = [].

Lemma part_body_run (k : nat) (pm : ndarray bool) (t : list (ndarray sc)) :
  k < nBF -> shape pm = [nBF] ->
  exists pm' r,
    getitem [Int (Z.of_nat k); Slice] c = Ok r /\
    Mesh.part_body fnc c k pm t = (Ok pm', t ++ [r]) /\
    shape pm' = [nBF] /\
    forall j, item pm' [j]
              = if j =? k then pointwise_answer fnc c k else item pm [j].
Proof.
  intros Hk Hpm.
  assert (exists r, getitem [Int (Z.of_nat k); Slice] c = Ok r) as (r & Er)
    by (eexists; exact (@centroid_row F c nBF D Hc k Hk)).
  destruct (Hpointwise Hk Er) as (v & Ev & Hv).
  unfold Mesh.part_body, bind, lift, call. rewrite Er, Ev.
  erewrite setitem_ok; cycle 1.
  { rewrite Hpm. cbn. rewrite norm_index_of_nat by assumption. reflexivity. }
  { rewrite Hv. reflexivity. }
  eexists. exists r. split; [reflexivity|]. split; [reflexivity|].
  split; [exact Hpm|].
  intros j. cbn [item]. rewrite Hpm. cbn [index_target hd].
  rewrite norm_index_of_nat by assumption.
  unfold pointwise_answer. rewrite Er, Ev.
  destruct (j =? k); [|reflexivity].
  cbn. now rewrite Hv.
Qed.

Lemma part_loop_run (k : nat) : forall (s : nat) (pm : ndarray bool)
                                      (t : list (ndarray sc)),
  s + k <= nBF -> shape pm = [nBF] ->
  exists pm' rows,
    for_eachM (seq s k) (Mesh.part_body fnc c) pm t = (Ok pm', t ++ rows) /\
    shape pm' = [nBF] /\
    length rows = k /\
    (forall i, i < k ->
       getitem [Int (Z.of_nat (s + i)); Slice] c = Ok (nth i rows c)) /\
    forall j, item pm' [j]
              = if (s <=? j) && (j <? s + k) then pointwise_answer fnc c j
                else item pm [j].
Proof.
  induction k as [|k IH]; intros s pm t Hk Hpm.
  - exists pm, []. cbn [seq for_eachM]. unfold ret.
    split; [now rewrite app_nil_r|]. split; [assumption|].
    split; [reflexivity|]. split; [intros i Hi; lia|].
    intros j. destruct (Nat.leb_spec s j), (Nat.ltb_spec j (s + 0));
      cbn [andb]; try reflexivity. lia.
  - cbn [seq for_eachM]. unfold bind at 1.
    destruct (@part_body_run s pm t) as (pm1 & r & Er & E1 & H1 & I1);
      [lia|assumption|]. rewrite E1.
    destruct (IH (S s) pm1 (t ++ [r])) as (pm2 & rows & E2 & H2 & Hl & Hrows & I2);
      [lia|assumption|]. rewrite E2.
    exists pm2, (r :: rows). split; [now rewrite <- app_assoc|].
    split; [assumption|]. split; [cbn; now rewrite Hl|]. split.
    + intros [|i] Hi; cbn [nth].
      * now rewrite Nat.add_0_r.
      * replace (s + S i) with (S s + i) by lia. apply Hrows. lia.
    + intros j. rewrite (I2 j), (I1 j).
      destruct (Nat.leb_spec (S s) j), (Nat.ltb_spec j (S s + k)),
        (Nat.leb_spec s j), (Nat.ltb_spec j (s + S k)), (Nat.eqb_spec j s);
        cbn [andb]; try lia; try reflexivity. now subst.
Qed.
End Fallback.

(** X13. When the predicate raises on the centroids stacked together but
    answers each single centroid with one truth value, [boundary] calls it
    on every centroid in turn, in order, and facet i is in the result
    exactly when it is a boundary facet and the answer for its centroid is
    true. *)
Theorem boundary_pointwise_fallback
  (F : Scalar) (self : Mesh.t) (fnc : Mesh.predicate)
  (mask : ndarray bool) (c : ndarray sc) (n D : nat) (e0 : exn)
  (t0 : list (ndarray sc)) :
  Mesh.get_boundary (Mesh.topology self) (Z.of_nat (Mesh.dimension self) - 1)
  = Ok mask ->
  shape mask = [n] ->
  Mesh.boundary_centroids self mask = Ok c ->
  shape c = [length (true_positions mask); D] ->
  fnc (transpose c) = Raise e0 ->
  (forall k r, k < length (true_positions mask) ->
     getitem [Int (Z.of_nat k); Slice] c = Ok r ->
     exists v, fnc r = Ok v /\ shape v = []) ->
  exists mask' rows,
    Mesh.boundary self (Some fnc) t0
    = (Ok mask', t0 ++ transpose c :: rows) /\
    shape mask' = [n] /\
    length rows = length (true_positions mask) /\
    (forall k, k < length (true_positions mask) ->
       getitem [Int (Z.of_nat k); Slice] c = Ok (nth k rows c)) /\
    forall i, i < n ->
      item mask' [i]
      = item mask [i] && pointwise_answer fnc c (boundary_rank mask i).
Proof.
  intros Hget Hmask Hc Hsc Hf Hpointwise.
  destruct (@part_loop_run F fnc c _ D Hsc Hpointwise
              (length (true_positions mask)) 0
              (empty_bool [length (true_positions mask)])
              (t0 ++ [transpose c]))
    as (pm & rows & Erun & Hpm & Hlen & Hrows & Ipm); [lia|reflexivity|].
  destruct (@restrict_mask mask n Hmask pm (or_introl Hpm))
    as (mask' & E & Hs & Hitems).
  unfold Mesh.boundary. unfold bind at 1. unfold lift at 1. rewrite Hget.
  unfold bind at 1. unfold lift at 1. rewrite Hc.
  unfold bind at 1. unfold try_except, call. rewrite Hf.
  unfold bind at 1. unfold lift at 1. unfold size_axis0. rewrite Hsc.
  rewrite Erun. unfold bind, lift.
  destruct (getitem_mask mask mask) as [selected|e]; [|discriminate E].
  cbn [rbind] in E.
  destruct (logical_and selected pm) as [value|e]; [|discriminate E].
  cbn [rbind] in E. rewrite E.
  exists mask', rows. split; [now rewrite <- app_assoc|].
  split; [exact Hs|]. split; [exact Hlen|]. split; [exact Hrows|].
  intros i Hi. rewrite (Hitems i Hi).
  destruct (item mask [i]) eqn:Hmi; [|reflexivity]. cbn [andb].
  assert (Hr : boundary_rank mask i < length (true_positions mask)).
  { unfold true_positions. rewrite Hmask. cbn [nth].
    now apply (rank_lt (fun k => item mask [k])). }
  rewrite Hpm, bidx_in_bounds.
  - rewrite Ipm. cbn [Nat.leb Nat.add].
    now rewrite (proj2 (Nat.ltb_lt _ _) Hr).
  - cbn [in_bounds]. now rewrite (proj2 (Nat.ltb_lt _ _) Hr).
Qed.

(** X14. The fallback covers exceptions of the predicate only: when the
    predicate answers the stacked call with an array whose length is
    neither the number of boundary facets nor 1, [boundary] raises
    [ValueError], after that single call. *)
Theorem boundary_wrong_length_answer
  (F : Scalar) (self : Mesh.t) (fnc : Mesh.predicate)
  (mask part_mask : ndarray bool) (c : ndarray sc) (n m : nat)
  (t0 : list (ndarray sc)) :
  Mesh.get_boundary (Mesh.topology self) (Z.of_nat (Mesh.dimension self) - 1)
  = Ok mask ->
  shape mask = [n] ->
  Mesh.boundary_centroids self mask = Ok c ->
  fnc (transpose c) = Ok part_mask ->
  shape part_mask = [m] ->
  m <> length (true_positions mask) -> m <> 1 ->
  exists msg,
    Mesh.boundary self (Some fnc) t0
    = (Raise (ValueError msg), t0 ++ [transpose c]).
Proof.
  intros Hget Hmask Hc Hf Hpm Hm H1.
  unfold Mesh.boundary, bind, lift, try_except, call.
  rewrite Hget, Hc, Hf.
  unfold getitem_mask. rewrite Hmask, Nat.eqb_refl.
  unfold logical_and, binop. cbn [shape]. rewrite Hpm.
  unfold broadcast_shapes. cbn [length Nat.max pad Nat.sub repeat app bzip].
  unfold bdim.
  destruct (Nat.eqb_spec (length (true_positions mask)) m); [congruence|].
  destruct (Nat.eqb_spec (length (true_positions mask)) 1) as [E1|E1].
  - cbn [rbind]. unfold setitem_mask. cbn [shape].
    rewrite Hmask, Nat.eqb_refl. unfold can_broadcast.
    cbn [length Nat.sub firstn forallb skipn pad repeat app combine andb].
    rewrite E1.
    destruct (Nat.eqb_spec m 1); [contradiction|].
    cbn [orb andb]. eexists. reflexivity.
  - destruct (Nat.eqb_spec m 1); [contradiction|].
    eexists. reflexivity.
Qed.

(** X15. A predicate that answers the stacked call with a single truth
    value applies it to every boundary facet. *)
Theorem boundary_single_answer
  (F : Scalar) (self : Mesh.t) (fnc : Mesh.predicate)
  (mask answer : ndarray bool) (c : ndarray sc) (n : nat)
  (t0 : list (ndarray sc)) :
  Mesh.get_boundary (Mesh.topology self) (Z.of_nat (Mesh.dimension self) - 1)
  = Ok mask ->
  shape mask = [n] ->
  Mesh.boundary_centroids self mask = Ok c ->
  fnc (transpose c) = Ok answer ->
  shape answer = [] ->
  exists mask',
    Mesh.boundary self (Some fnc) t0 = (Ok mask', t0 ++ [transpose c]) /\
    shape mask' = [n] /\
    forall i, i < n -> item mask' [i] = item mask [i] && item answer [].
Proof.
  intros Hget Hmask Hc Hf Hans.
  destruct (@restrict_mask mask n Hmask answer (or_intror Hans))
    as (mask' & E & Hs & Hitems).
  unfold Mesh.boundary, bind, lift, try_except, call.
  rewrite Hget, Hc, Hf.
  destruct (getitem_mask mask mask) as [selected|e]; [|discriminate E].
  cbn [rbind] in E.
  destruct (logical_and selected answer) as [value|e]; [|discriminate E].
  cbn [rbind] in E. rewrite E.
  exists mask'. split; [reflexivity|]. split; [exact Hs|].
  intros i Hi. rewrite (Hitems i Hi), Hans. reflexivity.
Qed.

(** ** The further properties at concrete inputs *)

Lemma P1_init_attributes_witness :
  (0 <= 2 <= 3)%Z /\
  order (self (P1.__init__ (F := exactZ) 2)) = 1%Z /\
  tuple_get (n_basis (self (P1.__init__ (F := exactZ) 2))) 2 = Ok (2 + 1) /\
  tuple_get (n_basis (self (P1.__init__ (F := exactZ) 2))) 3
  = Raise (IndexError "tuple index out of range"%string).
Proof.
  assert (H : (0 <= 2 <= 3)%Z) by lia.
  destruct (@P1_init_attributes exactZ 2%Z H) as (Ho & _ & Hin & Hout).
  split; [exact H|]. split; [exact Ho|]. split.
  - apply (Hin 2). lia.
  - apply (Hout 3). lia.
Defined.

Lemma P1_second_derivatives_vanish_witness :
  exists basis,
    eval_basis (F := exactZ) (P1.__init__ 2) Data.triangle_vertices 2 = Ok basis /\
    shape basis = [2 + 1; 3; 2; 2] /\
    forall idx, item basis idx = 0%Z.
Proof.
  apply (@P1_second_derivatives_vanish exactZ 2%Z Data.triangle_vertices 2 3).
  - lia.
  - reflexivity.
  - lia.
Defined.

Lemma P1_eval_basis_rejects_witness :
  eval_basis (F := exactZ) (P1.__init__ 1) Data.triangle_vertices 1
  = Raise (IndexError "tuple index out of range"%string)
  /\ eval_basis (F := exactZ) (P1.__init__ 1) (of_list 0%Z [0; 1]%Z) 1
     = Raise (ValueError "wrong number of values to unpack"%string).
Proof.
  assert (Hd : (0 <= 1 <= 3)%Z) by lia.
  assert (Hv : (0 <= 1 <= 2)%Z) by lia.
  split.
  - apply (proj1 (@P1_eval_basis_rejects exactZ 1%Z 1%Z
                    Data.triangle_vertices Hd Hv) 2 3).
    + reflexivity.
    + lia.
  - apply (proj2 (@P1_eval_basis_rejects exactZ 1%Z 1%Z
                    (of_list 0%Z [0; 1]%Z) Hd Hv)).
    cbn. lia.
Defined.

Lemma P1_basis_is_nodal_witness :
  exists basis,
    eval_basis (F := binary64) (P1.__init__ (Z.of_nat 3))
               (reference_vertices (F := binary64) 3) 0 = Ok basis /\
    shape basis = [3 + 1; 3 + 1] /\
    forall b p, b <= 3 -> p <= 3 ->
      item basis [b; p] = if b =? p then 1%float else 0%float.
Proof.
  apply (@P1_basis_is_nodal binary64 3).
  - split; reflexivity.
  - lia.
Defined.

Lemma eval_global_derivatives_second_order_witness :
  exists inv_jac local_derivatives derivatives,
    Mesh.jacobian_inverse (Mesh.ref_map (FESpace.mesh Data.interval_space))
                          Data.midpoint = Ok inv_jac /\
    eval_basis (FESpace.element Data.interval_space) Data.midpoint 2
    = Ok local_derivatives /\
    fst (FESpace.eval_global_derivatives Data.interval_space Data.midpoint 2 [])
    = Ok derivatives /\
    shape derivatives = [1; 2; 1; 1; 1] /\
    forall e b p i j, e < 1 -> b < 2 -> p < 1 -> i < 1 -> j < 1 ->
      item derivatives [e; b; p; i; j]
      = total (F := binary64)
          (List.map
             (fun l =>
                mul (total (List.map
                              (fun k => mul (item inv_jac [e; p; k; i])
                                            (item local_derivatives [b; p; k; l]))
                              (seq 0 1)))
                    (item inv_jac [e; p; l; j]))
             (seq 0 1)).
Proof.
  do 2 eexists.
  destruct (@eval_global_derivatives_second_order binary64 Data.interval_space
              Data.midpoint _ _ 1 2 1 1 [] eq_refl eq_refl eq_refl eq_refl)
    as (d & E & Hs & Hentries).
  exists d. split; [reflexivity|]. split; [reflexivity|].
  split; [now rewrite E|]. split; [exact Hs|exact Hentries].
Defined.

Lemma sixteen_dof_map_valid (b e : nat) :
  b < 16 -> e < 1 ->
  (1 <= item Data.sixteen_dof_map [b; e] <= Z.of_nat 16)%Z.
Proof. intros Hb He. cbn. lia. Qed.

Lemma eval_dofs_values_witness :
  exists U,
    FESpace.eval_dofs Data.sixteen_space Data.sixteen_dofs Data.midpoint
                      0 true []
    = (Ok U, [] ++ [FESpace.Call_get_dof_map (F := binary64) 1;
                    FESpace.Call_eval_basis (F := binary64) Data.midpoint 0]) /\
    shape U = [1; 1] /\
    item U [0; 0] = 0x1.0000000000007p+0%float.
Proof.
  destruct (@eval_dofs_values binary64 Data.sixteen_space Data.sixteen_dofs
              Data.midpoint (ones [16; 1]) Data.sixteen_dof_map
              1 16 1 1 16 []
              eq_refl eq_refl eq_refl eq_refl sixteen_dof_map_valid
              eq_refl eq_refl)
    as (U & E & Hs & Hentries).
  exists U. split; [exact E|]. split; [exact Hs|].
  rewrite (Hentries 0 0 (le_n 1) (le_n 1)). vm_compute. reflexivity.
Defined.

Lemma eval_dofs_gradients_witness :
  exists U,
    fst (FESpace.eval_dofs Data.sixteen_space Data.sixteen_dofs Data.midpoint
           1 true []) = Ok U /\
    shape U = [1; 1; 1] /\
    item U [0; 0; 0] = (-0x1.0000000000007p+0)%float.
Proof.
  destruct (@eval_dofs_gradients binary64 Data.sixteen_space
              Data.sixteen_dofs Data.midpoint _ Data.sixteen_dof_map
              1 16 1 1 1 16 [] _
              eq_refl (le_n 1) eq_refl eq_refl eq_refl sixteen_dof_map_valid
              eq_refl eq_refl)
    as (U & E & Hs & Hentries).
  exists U. split; [now rewrite E|]. split; [exact Hs|].
  rewrite (Hentries 0 0 0 (le_n 1) (le_n 1) (le_n 1)).
  vm_compute. reflexivity.
Defined.

Lemma eval_dofs_refuses_before_any_call_witness :
  FESpace.eval_dofs Data.interval_space Data.dofs_1_3 Data.vertex_point 1 true []
  = (Raise (NotImplementedError
              "Higher order derivatives for traces not supported!"%string), []).
Proof.
  apply (proj1 (proj2 (@eval_dofs_refuses_before_any_call binary64
                         Data.interval_space Data.dofs_1_3 Data.vertex_point
                         1%Z [])) 0).
  - reflexivity.
  - cbn. lia.
  - lia.
Defined.

Lemma get_quadrature_data_empty_rule_witness :
  exists jac_dets,
    FESpace.get_quadrature_data Data.interval_space 0 []
    = (Ok (mk_ndarray [1; 0] (fun _ => 0%float), of_list 0%float [1%float],
           jac_dets), []) /\
    shape jac_dets = [2; 1] /\
    forall idx, item jac_dets idx = 1%float.
Proof.
  apply (proj1 (@get_quadrature_data_empty_rule binary64 Data.interval_space
                  0%Z [] _ _ eq_refl eq_refl eq_refl) 2).
  reflexivity.
Defined.

Lemma eval_global_derivatives_propagates_witness :
  FESpace.eval_global_derivatives Data.interval_space
    (of_list 0%float [0.5%float]) 1 []
  = (Raise (ValueError "wrong number of values to unpack"%string),
     [] ++ [FESpace.Call_jacobian_inverse (F := binary64)
              (of_list 0%float [0.5%float]);
            FESpace.Call_eval_basis (F := binary64)
              (of_list 0%float [0.5%float]) 1]).
Proof.
  apply (proj2 (@eval_global_derivatives_propagates binary64
                  Data.interval_space (of_list 0%float [0.5%float]) 1%Z []
                  (ValueError "wrong number of values to unpack"%string)
                  (or_introl eq_refl))
               (full [1; 0; 1; 1] (-1)%float)).
  - reflexivity.
  - reflexivity.
Defined.

Lemma Mesh_init_flat_nodes_witness :
  shape Data.flat_nodes = [2] /\
  exists mesh,
    Mesh.__init__ Data.interval_constructors Data.flat_nodes
                  Data.interval_cells = Ok mesh /\
    Mesh.dimension mesh = 2.
Proof.
  split; [reflexivity|].
  apply (proj2 (proj2 (proj2 (@Mesh_init_flat_nodes binary64
                   Data.interval_constructors Data.flat_nodes
                   Data.interval_cells 2 eq_refl)))
           (conj (le_S 1 1 (le_n 1)) (le_S 2 2 (le_n 2)))
           (Data.interval_geometry (atleast_2d Data.flat_nodes))
           (Data.interval_topology Data.interval_cells)
           Data.interval_ref_map);
    reflexivity.
Defined.

Lemma boundary_vectorised_predicate_witness :
  exists part_mask mask',
    Data.left_or_right (transpose Data.square_centroids) = Ok part_mask /\
    Mesh.boundary Data.square_mesh (Some Data.left_or_right) []
    = (Ok mask', [] ++ [transpose Data.square_centroids]) /\
    shape mask' = [5] /\
    forall i, i < 5 ->
      item mask' [i]
      = item Data.square_boundary_mask [i]
        && item part_mask [boundary_rank Data.square_boundary_mask i].
Proof.
  eexists.
  destruct (@boundary_vectorised_predicate binary64 Data.square_mesh
              Data.left_or_right Data.square_boundary_mask _
              Data.square_centroids 5 [] eq_refl eq_refl eq_refl eq_refl eq_refl)
    as (mask' & E & Hs & Hitems).
  exists mask'. split; [reflexivity|]. split; [exact E|].
  split; [exact Hs|exact Hitems].
Defined.

Lemma square_centroids_answered (k : nat) (r : ndarray float) :
  k < length (true_positions Data.square_boundary_mask) ->
  getitem [Int (Z.of_nat k); Slice] Data.square_centroids = Ok r ->
  exists v, Data.left_or_right_pointwise r = Ok v /\ shape v = [].
Proof.
  intros Hk Hr. change (k < 4) in Hk.
  destruct k as [|[|[|[|k]]]]; [| | | |lia];
    vm_compute in Hr; injection Hr as <-; eexists; split; reflexivity.
Qed.

Lemma boundary_pointwise_fallback_witness :
  exists mask' rows,
    Mesh.boundary Data.square_mesh (Some Data.left_or_right_pointwise) []
    = (Ok mask', [] ++ transpose Data.square_centroids :: rows) /\
    shape mask' = [5] /\
    length rows = length (true_positions Data.square_boundary_mask) /\
    (forall k, k < length (true_positions Data.square_boundary_mask) ->
       getitem [Int (Z.of_nat k); Slice] Data.square_centroids
       = Ok (nth k rows Data.square_centroids)) /\
    forall i, i < 5 ->
      item mask' [i]
      = item Data.square_boundary_mask [i]
        && pointwise_answer Data.left_or_right_pointwise Data.square_centroids
             (boundary_rank Data.square_boundary_mask i).
Proof.
  apply (@boundary_pointwise_fallback binary64 Data.square_mesh
           Data.left_or_right_pointwise Data.square_boundary_mask
           Data.square_centroids 5 2
           (ValueError "The truth value of an array with more than one element is ambiguous"%string)
           [] eq_refl eq_refl eq_refl eq_refl eq_refl).
  exact square_centroids_answered.
Defined.

Lemma boundary_wrong_length_answer_witness :
  exists msg,
    Mesh.boundary Data.square_mesh (Some Data.three_answers) []
    = (Raise (ValueError msg), [] ++ [transpose Data.square_centroids]).
Proof.
  apply (@boundary_wrong_length_answer binary64 Data.square_mesh
           Data.three_answers Data.square_boundary_mask
           (of_list false [true; false; true]) Data.square_centroids 5 3 []
           eq_refl eq_refl eq_refl eq_refl eq_refl).
  - cbn. lia.
  - lia.
Defined.

Lemma boundary_single_answer_witness :
  exists mask',
    Mesh.boundary Data.square_mesh (Some Data.everywhere) []
    = (Ok mask', [] ++ [transpose Data.square_centroids]) /\
    shape mask' = [5] /\
    forall i, i < 5 ->
      item mask' [i] = item Data.square_boundary_mask [i] && item (scalar true) [].
Proof.
  apply (@boundary_single_answer binary64 Data.square_mesh Data.everywhere
           Data.square_boundary_mask (scalar true) Data.square_centroids 5 []
           eq_refl eq_refl eq_refl eq_refl eq_refl).
Defined.
